(** * django-pagetree: sections, pageblocks and per-user state

    A shallow embedding of [pagetree/models.py] and
    [pagetree/generic/models.py].  The Django ORM is modelled by tables
    held in a database record that every method threads through a small
    state-and-exception monad; treebeard's materialized-path tree is a
    forest of nodes addressed by their path; Python dictionaries with text
    keys are [gmap]s or, where they are exported, ordered association
    lists. *)

From Stdlib Require Import ZArith String Ascii List DecimalString Permutation Lia.
From stdpp Require Import gmap strings list fin_maps sorting.

Open Scope string_scope.
Open Scope list_scope.

(** ** Python text operations used by the models *)

(** [s.startswith(pre)] *)
Fixpoint startswith (s pre : string) {struct pre} : bool :=
  match pre with
  | EmptyString => true
  | String a pre' =>
      match s with
      | EmptyString => false
      | String b s' => if Ascii.eqb a b then startswith s' pre' else false
      end
  end.

(** [s[n:]] *)
Fixpoint slice_from (n : nat) (s : string) : string :=
  match n with
  | O => s
  | S n' => match s with
            | EmptyString => EmptyString
            | String _ s' => slice_from n' s'
            end
  end.

(** [s.endswith(suf)] *)
Fixpoint endswith (s suf : string) : bool :=
  if String.eqb s suf then true
  else match s with
       | EmptyString => false
       | String _ s' => endswith s' suf
       end.

(** [s[:-1]] *)
Fixpoint drop_last (s : string) : string :=
  match s with
  | EmptyString => EmptyString
  | String c s' =>
      match s' with
      | EmptyString => EmptyString
      | String _ _ => String c (drop_last s')
      end
  end.

(** [s.split(sep)] for a one-character separator: never the empty list. *)
Fixpoint split (sep : ascii) (s : string) : list string :=
  match s with
  | EmptyString => [EmptyString]
  | String c s' =>
      if Ascii.eqb c sep then EmptyString :: split sep s'
      else match split sep s' with
           | [] => [String c EmptyString]
           | w :: ws => String c w :: ws
           end
  end.

(** ["%d" % z] *)
Definition format_d (z : Z) : string := NilZero.string_of_int (Z.to_int z).

(** Django's [slugify] on ASCII text: keep letters, digits, underscores,
    hyphens and blanks, trim, lower-case, and turn each run of blanks and
    hyphens into one hyphen. *)
Definition is_blank (c : ascii) : bool :=
  let n := nat_of_ascii c in (n =? 32)%nat || ((9 <=? n)%nat && (n <=? 13)%nat).

Definition is_word (c : ascii) : bool :=
  let n := nat_of_ascii c in
  ((48 <=? n)%nat && (n <=? 57)%nat) || ((65 <=? n)%nat && (n <=? 90)%nat)
  || ((97 <=? n)%nat && (n <=? 122)%nat) || (n =? 95)%nat.

Definition is_hyphen (c : ascii) : bool := (nat_of_ascii c =? 45)%nat.

Definition lower (c : ascii) : ascii :=
  let n := nat_of_ascii c in
  if ((65 <=? n)%nat && (n <=? 90)%nat) then ascii_of_nat (n + 32) else c.

Fixpoint lstrip (l : list ascii) : list ascii :=
  match l with
  | c :: l' => if is_blank c then lstrip l' else l
  | [] => []
  end.

Definition strip (l : list ascii) : list ascii := rev (lstrip (rev (lstrip l))).

(** [hyphenate pending l]: [pending] records that a run of blanks and
    hyphens is being read. *)
Fixpoint hyphenate (pending : bool) (l : list ascii) : list ascii :=
  match l with
  | [] => if pending then ["-"%char] else []
  | c :: l' =>
      if is_blank c || is_hyphen c then hyphenate true l'
      else (if pending then ["-"%char] else []) ++ c :: hyphenate false l'
  end.

Definition slugify (s : string) : string :=
  let kept := filter (fun c => is_word c || is_blank c || is_hyphen c) (list_ascii_of_string s) in
  string_of_list_ascii (hyphenate false (lower <$> strip kept)).

(** ** Values, dictionaries and exceptions *)

Inductive Value :=
| VNone
| VStr (s : string)
| VInt (z : Z).

Definition Value_eqb (a b : Value) : bool :=
  match a, b with
  | VNone, VNone => true
  | VStr s, VStr t => String.eqb s t
  | VInt x, VInt y => Z.eqb x y
  | _, _ => false
  end.

(** A flat dictionary in insertion order; a key occurs at most once. *)
Definition Dict := list (string * Value).

Fixpoint dict_get (d : Dict) (k : string) : option Value :=
  match d with
  | [] => None
  | (k', v) :: d' => if String.eqb k' k then Some v else dict_get d' k
  end.

(** [d[k] = v] *)
Fixpoint dict_set (d : Dict) (k : string) (v : Value) : Dict :=
  match d with
  | [] => [(k, v)]
  | (k', v') :: d' =>
      if String.eqb k' k then (k', v) :: d' else (k', v') :: dict_set d' k v
  end.

Inductive Exception :=
| Http404
| DoesNotExist
| MultipleObjectsReturned
| TypeError
| AttributeError
| IndexError
| RecursionError.

#[global] Instance Exception_eq_dec : EqDecision Exception.
Proof. solve_decision. Defined.

Inductive result (A : Type) :=
| Ok (a : A)
| Raise (e : Exception).
Arguments Ok {A} a.
Arguments Raise {A} e.

(** ** Rows of the tables *)

Inductive User :=
| AnonymousUser
| AuthUser (user_pk : Z).

Definition is_anonymous (u : User) : bool :=
  match u with AnonymousUser => true | AuthUser _ => false end.

Record Hierarchy := {
  hierarchy_pk : Z;
  name : string;
  base_url : string }.

(** A stored section with its children in sibling order; the position of
    a node in the forest is its materialized path. *)
#[warnings="-register-all"]
Inductive Node := MkNode {
  node_pk : Z;
  node_label : string;
  node_slug : string;
  node_hierarchy : Z;
  node_children : list Node }.

(** A Section instance as Python holds it: the row, its path (one step
    per level, so [depth] is the number of steps) and [numchild]. *)
Record SectionObj := {
  pk : Z;
  path : list nat;
  label : string;
  slug : string;
  hierarchy : Z;
  numchild : nat }.

Definition depth (s : SectionObj) : nat := length (path s).

(** A content object: an instance of some pageblock class.  A method the
    class does not define is [None] ([hasattr] is false). *)
Record Block := {
  block_model : string;
  block_pk : Z;
  display_name : string;
  needs_submit : option bool;
  redirect_to_self_on_submit : option bool;
  block_as_dict : option Dict }.

Record PageBlock := {
  pb_pk : Z;
  pb_section : Z;
  ordinality : nat;
  pb_label : option string;
  css_extra : option string;
  content_type : string;
  object_id : Z }.

Record UserLocation := {
  ul_pk : Z;
  ul_user : Z;
  ul_hierarchy : Z;
  ul_path : string }.

Record UserPageVisit := {
  upv_pk : Z;
  upv_user : Z;
  upv_section : Z;
  status : string;
  first_visit : nat;
  last_visit : nat }.

(** A value posted for one field: a scalar or the list of a multi-select. *)
Inductive FormValue :=
| Scalar (v : string)
| Listed (vs : list string).

(** One call of a content object's [submit(user, data)]. *)
Record Submission := {
  sub_model : string;
  sub_block : Z;
  sub_user : User;
  sub_data : gmap string FormValue }.

(** A pageblock class as [get_model] resolves it. *)
Record BlockClass := {
  cls_model : string;
  cls_display_name : string;
  create_from_dict : option (Dict -> Z -> Block) }.

(** [settings]: [PAGEBLOCKS] may be missing; [installed] is the registry
    [get_model] looks into. *)
Record Settings := {
  PAGEBLOCKS : option (list string);
  installed : list BlockClass }.

Record DB := {
  hierarchies : list Hierarchy;
  sections : list Node;
  pageblocks : list PageBlock;
  blocks : list Block;
  userlocations : list UserLocation;
  userpagevisits : list UserPageVisit;
  submitted : list Submission;
  now : nat }.

Definition empty_db : DB :=
  {| hierarchies := []; sections := []; pageblocks := []; blocks := [];
     userlocations := []; userpagevisits := []; submitted := []; now := 0 |}.

Definition set_hierarchies (f : list Hierarchy -> list Hierarchy) (db : DB) : DB :=
  {| hierarchies := f (hierarchies db); sections := sections db;
     pageblocks := pageblocks db; blocks := blocks db;
     userlocations := userlocations db; userpagevisits := userpagevisits db;
     submitted := submitted db; now := now db |}.

Definition set_sections (f : list Node -> list Node) (db : DB) : DB :=
  {| hierarchies := hierarchies db; sections := f (sections db);
     pageblocks := pageblocks db; blocks := blocks db;
     userlocations := userlocations db; userpagevisits := userpagevisits db;
     submitted := submitted db; now := now db |}.

Definition set_pageblocks (f : list PageBlock -> list PageBlock) (db : DB) : DB :=
  {| hierarchies := hierarchies db; sections := sections db;
     pageblocks := f (pageblocks db); blocks := blocks db;
     userlocations := userlocations db; userpagevisits := userpagevisits db;
     submitted := submitted db; now := now db |}.

Definition set_blocks (f : list Block -> list Block) (db : DB) : DB :=
  {| hierarchies := hierarchies db; sections := sections db;
     pageblocks := pageblocks db; blocks := f (blocks db);
     userlocations := userlocations db; userpagevisits := userpagevisits db;
     submitted := submitted db; now := now db |}.

Definition set_userlocations (f : list UserLocation -> list UserLocation) (db : DB) : DB :=
  {| hierarchies := hierarchies db; sections := sections db;
     pageblocks := pageblocks db; blocks := blocks db;
     userlocations := f (userlocations db); userpagevisits := userpagevisits db;
     submitted := submitted db; now := now db |}.

Definition set_userpagevisits (f : list UserPageVisit -> list UserPageVisit) (db : DB) : DB :=
  {| hierarchies := hierarchies db; sections := sections db;
     pageblocks := pageblocks db; blocks := blocks db;
     userlocations := userlocations db; userpagevisits := f (userpagevisits db);
     submitted := submitted db; now := now db |}.

Definition set_submitted (f : list Submission -> list Submission) (db : DB) : DB :=
  {| hierarchies := hierarchies db; sections := sections db;
     pageblocks := pageblocks db; blocks := blocks db;
     userlocations := userlocations db; userpagevisits := userpagevisits db;
     submitted := f (submitted db); now := now db |}.

(** ** The monad of model methods

    A method reads and writes the database and either returns or raises;
    what it wrote before raising stays written. *)

Definition M (A : Type) : Type := DB -> result A * DB.

Definition ret {A} (a : A) : M A := fun db => (Ok a, db).

Definition bind {A B} (c : M A) (k : A -> M B) : M B :=
  fun db => match c db with
            | (Ok a, db') => k a db'
            | (Raise e, db') => (Raise e, db')
            end.

Definition raise {A} (e : Exception) : M A := fun db => (Raise e, db).

Definition read {A} (f : DB -> A) : M A := fun db => (Ok (f db), db).

Definition write (f : DB -> DB) : M unit := fun db => (Ok tt, f db).

(** [try: c except e: h] *)
Definition try_except {A} (c : M A) (e : Exception) (h : M A) : M A :=
  fun db => match c db with
            | (Raise e', db') =>
                if decide (e' = e) then h db' else (Raise e', db')
            | r => r
            end.

#[global] Instance M_ret : MRet M := @ret.
#[global] Instance M_bind : MBind M := fun A B k c => bind c k.

(** [for x in l: body x] *)
Fixpoint for_each {A} (l : list A) (body : A -> M unit) : M unit :=
  match l with
  | [] => ret tt
  | x :: l' => bind (body x) (fun _ => for_each l' body)
  end.

(** The next value of an auto-incremented key. *)
Definition fresh (pks : list Z) : Z := (1 + foldr Z.max 0 pks)%Z.

(** ** treebeard: the materialized-path forest *)

Definition instance (p : list nat) (n : Node) : SectionObj :=
  {| pk := node_pk n; path := p; label := node_label n; slug := node_slug n;
     hierarchy := node_hierarchy n; numchild := length (node_children n) |}.

Fixpoint node_at (p : list nat) (n : Node) : option Node :=
  match p with
  | [] => Some n
  | i :: p' => match node_children n !! i with
               | Some c => node_at p' c
               | None => None
               end
  end.

Definition forest_at (f : list Node) (p : list nat) : option Node :=
  match p with
  | [] => None
  | i :: p' => match f !! i with
               | Some n => node_at p' n
               | None => None
               end
  end.

Definition add_kid (c : Node) (n : Node) : Node :=
  MkNode (node_pk n) (node_label n) (node_slug n) (node_hierarchy n)
         (node_children n ++ [c]).

Fixpoint node_alter (f : Node -> Node) (p : list nat) (n : Node) : Node :=
  match p with
  | [] => f n
  | i :: p' =>
      MkNode (node_pk n) (node_label n) (node_slug n) (node_hierarchy n)
             (alter (node_alter f p') i (node_children n))
  end.

Definition forest_alter (f : Node -> Node) (p : list nat) (t : list Node) : list Node :=
  match p with
  | [] => t
  | i :: p' => alter (node_alter f p') i t
  end.

(** The nodes of a tree in path order, which is depth first, parents
    before children, siblings in sibling order. *)
Fixpoint tree_list (p : list nat) (n : Node) : list SectionObj :=
  instance p n ::
    (fix kids (i : nat) (cs : list Node) : list SectionObj :=
       match cs with
       | [] => []
       | c :: cs' => tree_list (p ++ [i]) c ++ kids (S i) cs'
       end) 0%nat (node_children n).

Fixpoint kids_list (p : list nat) (i : nat) (cs : list Node) : list SectionObj :=
  match cs with
  | [] => []
  | c :: cs' => tree_list (p ++ [i]) c ++ kids_list p (S i) cs'
  end.

(** [Section.objects.all()] *)
Definition all_sections (db : DB) : list SectionObj := kids_list [] 0 (sections db).

Definition is_root (s : SectionObj) : bool := (depth s =? 1)%nat.

Definition is_leaf (s : SectionObj) : bool := (numchild s =? 0)%nat.

Definition get_children (s : SectionObj) : M (list SectionObj) :=
  read (fun db =>
          match forest_at (sections db) (path s) with
          | Some n => imap (fun i c => instance (path s ++ [i]) c) (node_children n)
          | None => []
          end).

(** [objects.get(...)] on the rows that match *)
Definition objects_get {A} (rows : list A) : M A :=
  match rows with
  | [] => raise DoesNotExist
  | [r] => ret r
  | _ :: _ :: _ => raise MultipleObjectsReturned
  end.

Definition section_by_path (p : list nat) : M SectionObj :=
  fun db => match forest_at (sections db) p with
            | Some n => (Ok (instance p n), db)
            | None => (Raise DoesNotExist, db)
            end.

Definition get_parent (s : SectionObj) : M (option SectionObj) :=
  if (depth s <=? 1)%nat then ret None
  else p ← section_by_path (removelast (path s)); ret (Some p).

Definition get_root (s : SectionObj) : M SectionObj :=
  section_by_path (take 1 (path s)).

(** The proper ancestors, root first. *)
Definition get_ancestors (s : SectionObj) : M (list SectionObj) :=
  read (fun db =>
          omap (fun k => instance (take k (path s)) <$> forest_at (sections db) (take k (path s)))
               (seq 1 (depth s - 1))).

(** [cls.get_tree(parent=None)]: without a parent every row of the table,
    in path order; with one, the parent and the nodes below it. *)
Definition get_tree (parent : option SectionObj) : M (list SectionObj) :=
  read (fun db =>
          match parent with
          | None => all_sections db
          | Some p => match forest_at (sections db) (path p) with
                      | Some n => tree_list (path p) n
                      | None => []
                      end
          end).

(** [cls.get_annotated_list(parent=None)] is a class method: in
    [node.get_annotated_list()] the node [receiver] only names the class,
    it is not the [parent].  The nodes of [get_tree(parent)], each with its
    level, the depth below the first node listed. *)
Definition get_annotated_list (receiver : SectionObj) (parent : option SectionObj)
  : M (list (SectionObj * nat)) :=
  tree ← get_tree parent;
  let start_depth := match tree with
                     | x :: _ => depth x
                     | [] => 0%nat
                     end in
  ret ((fun x => (x, (depth x - start_depth)%nat)) <$> tree).

Definition add_root (l sl : string) (h : Z) : M SectionObj :=
  fun db =>
    let n := MkNode (fresh (pk <$> all_sections db)) l sl h [] in
    (Ok (instance [length (sections db)] n), set_sections (fun t => t ++ [n]) db).

Definition add_child (self : SectionObj) (l sl : string) (h : Z) : M SectionObj :=
  fun db =>
    match forest_at (sections db) (path self) with
    | Some parent =>
        let n := MkNode (fresh (pk <$> all_sections db)) l sl h [] in
        (Ok (instance (path self ++ [length (node_children parent)]) n),
         set_sections (forest_alter (add_kid n) (path self)) db)
    | None => (Raise DoesNotExist, db)
    end.

(** ** Hierarchy *)

Definition Hierarchy_objects_create (n b : string) : M Hierarchy :=
  fun db =>
    let h := {| hierarchy_pk := fresh (hierarchy_pk <$> hierarchies db);
                name := n; base_url := b |} in
    (Ok h, set_hierarchies (fun t => t ++ [h]) db).

Definition Hierarchy_get_hierarchy (n : string) : M Hierarchy :=
  rows ← read (fun db => filter (fun h => name h = n) (hierarchies db));
  match rows with
  | [] => Hierarchy_objects_create n "/"
  | [h] => ret h
  | _ :: _ :: _ => raise MultipleObjectsReturned
  end.

Definition Hierarchy_get_absolute_url (self : Hierarchy) : string := base_url self.

Definition Hierarchy_get_root (self : Hierarchy) : M SectionObj :=
  try_except
    (rows ← read (fun db =>
                    filter (fun s => hierarchy s = hierarchy_pk self ∧ label s = "Root")
                           (all_sections db));
     s ← objects_get rows;
     get_root s)
    DoesNotExist
    (add_root "Root" "" (hierarchy_pk self)).

Definition Hierarchy_get_top_level (self : Hierarchy) : M (list SectionObj) :=
  root ← Hierarchy_get_root self; get_children root.

(** The loop of [find_section_from_path] over the slugs of the path. *)
Fixpoint find_section_loop (slugs_of_path : list string) (current : SectionObj)
  : M (option SectionObj) :=
  match slugs_of_path with
  | [] => ret (Some current)
  | sl :: rest =>
      cs ← get_children current;
      let slugs : gmap string SectionObj :=
        foldl (fun m c => <[slug c := c]> m) ∅ cs in
      match slugs !! sl with
      | Some c => find_section_loop rest c
      | None => ret None
      end
  end.

Definition Hierarchy_find_section_from_path (self : Hierarchy) (path0 : string)
  : M (option SectionObj) :=
  let path1 := if endswith path0 "/" then drop_last path0 else path0 in
  root ← Hierarchy_get_root self;
  let current := root in
  if String.eqb path1 "" then ret (Some current)
  else find_section_loop (split "/"%char path1) current.

Definition Hierarchy_get_section_from_path (self : Hierarchy) (path0 : string)
  : M SectionObj :=
  s ← Hierarchy_find_section_from_path self path0;
  match s with
  | None => raise Http404
  | Some s' => ret s'
  end.

(** Each entry of [settings.PAGEBLOCKS] stands for the class that
    [get_model] resolves it to. *)
Definition Hierarchy_available_pageblocks (settings : option (list BlockClass))
  : list BlockClass :=
  match settings with
  | Some classes => classes
  | None => []
  end.

(** ** UserLocation and UserPageVisit *)

Definition UserLocation_get_or_create (user : User) (h : Hierarchy)
  : M (UserLocation * bool) :=
  match user with
  | AnonymousUser => raise TypeError
  | AuthUser u =>
      fun db =>
        match filter (fun r => ul_user r = u ∧ ul_hierarchy r = hierarchy_pk h)
                     (userlocations db) with
        | [] =>
            let r := {| ul_pk := fresh (ul_pk <$> userlocations db);
                        ul_user := u; ul_hierarchy := hierarchy_pk h;
                        ul_path := "/" |} in
            (Ok (r, true), set_userlocations (fun t => t ++ [r]) db)
        | [r] => (Ok (r, false), db)
        | _ :: _ :: _ => (Raise MultipleObjectsReturned, db)
        end
  end.

(** [row.save()]: the row with that key is overwritten, else inserted. *)
Definition UserLocation_save (r : UserLocation) : M unit :=
  write (set_userlocations (fun t =>
    if bool_decide (ul_pk r ∈ ul_pk <$> t)
    then (fun x => if bool_decide (ul_pk x = ul_pk r) then r else x) <$> t
    else t ++ [r])).

Definition with_path (r : UserLocation) (p : string) : UserLocation :=
  {| ul_pk := ul_pk r; ul_user := ul_user r; ul_hierarchy := ul_hierarchy r;
     ul_path := p |}.

Definition Hierarchy_get_user_location (self : Hierarchy) (user : User) : M string :=
  if is_anonymous user then ret "/"
  else '(ul, created) ← UserLocation_get_or_create user self;
       ret (ul_path ul).

Definition UserPageVisit_get_or_create (s : SectionObj) (user : User)
  : M (UserPageVisit * bool) :=
  match user with
  | AnonymousUser => raise TypeError
  | AuthUser u =>
      fun db =>
        match filter (fun r => upv_section r = pk s ∧ upv_user r = u)
                     (userpagevisits db) with
        | [] =>
            let r := {| upv_pk := fresh (upv_pk <$> userpagevisits db);
                        upv_user := u; upv_section := pk s;
                        status := "incomplete";
                        first_visit := now db; last_visit := now db |} in
            (Ok (r, true), set_userpagevisits (fun t => t ++ [r]) db)
        | [r] => (Ok (r, false), db)
        | _ :: _ :: _ => (Raise MultipleObjectsReturned, db)
        end
  end.

Definition with_status (r : UserPageVisit) (st : string) : UserPageVisit :=
  {| upv_pk := upv_pk r; upv_user := upv_user r; upv_section := upv_section r;
     status := st; first_visit := first_visit r; last_visit := last_visit r |}.

(** [last_visit] is [auto_now]: set at every save. *)
Definition UserPageVisit_save (r : UserPageVisit) : M unit :=
  fun db =>
    let r' := {| upv_pk := upv_pk r; upv_user := upv_user r;
                 upv_section := upv_section r; status := status r;
                 first_visit := first_visit r; last_visit := now db |} in
    (Ok tt,
     set_userpagevisits (fun t =>
       if bool_decide (upv_pk r ∈ upv_pk <$> t)
       then (fun x => if bool_decide (upv_pk x = upv_pk r) then r' else x) <$> t
       else t ++ [r']) db).

(** ** PageBlock *)

Fixpoint insert_by_ordinality (b : PageBlock) (l : list PageBlock) : list PageBlock :=
  match l with
  | [] => [b]
  | c :: l' =>
      if (ordinality b <=? ordinality c)%nat then b :: l
      else c :: insert_by_ordinality b l'
  end.

(** [Meta.ordering = ('section', 'ordinality')] within one section. *)
Definition order_by_ordinality (l : list PageBlock) : list PageBlock :=
  foldr insert_by_ordinality [] l.

(** [section.pageblock_set.all()] *)
Definition pageblock_set (db : DB) (section_pk : Z) : list PageBlock :=
  order_by_ordinality (filter (fun p => pb_section p = section_pk) (pageblocks db)).

Definition pageblock_set_all (s : SectionObj) : M (list PageBlock) :=
  read (fun db => pageblock_set db (pk s)).

Definition pageblock_set_count (s : SectionObj) : M nat :=
  read (fun db => length (filter (fun p => pb_section p = pk s) (pageblocks db))).

(** [PageBlock.objects.create(section, label, ordinality, content_object)];
    [css_extra] is left null. *)
Definition PageBlock_objects_create (s : SectionObj) (l : option string) (ord : nat)
    (content_object : Block) : M PageBlock :=
  fun db =>
    let p := {| pb_pk := fresh (pb_pk <$> pageblocks db); pb_section := pk s;
                ordinality := ord; pb_label := l; css_extra := None;
                content_type := block_model content_object;
                object_id := block_pk content_object |} in
    (Ok p, set_pageblocks (fun t => t ++ [p]) db).

Definition PageBlock_objects_get (id : Z) : M PageBlock :=
  rows ← read (fun db => filter (fun p => pb_pk p = id) (pageblocks db));
  objects_get rows.

Definition with_ordinality (p : PageBlock) (ord : nat) : PageBlock :=
  {| pb_pk := pb_pk p; pb_section := pb_section p; ordinality := ord;
     pb_label := pb_label p; css_extra := css_extra p;
     content_type := content_type p; object_id := object_id p |}.

Definition PageBlock_save (p : PageBlock) : M unit :=
  write (set_pageblocks (fun t =>
    if bool_decide (pb_pk p ∈ pb_pk <$> t)
    then (fun x => if bool_decide (pb_pk x = pb_pk p) then p else x) <$> t
    else t ++ [p])).

(** [self.content_object]: the generic reference resolved, or [None]. *)
Definition block_of (db : DB) (p : PageBlock) : option Block :=
  head (filter (fun b => block_model b = content_type p ∧ block_pk b = object_id p)
               (blocks db)).

Definition PageBlock_block (p : PageBlock) : M (option Block) :=
  read (fun db => block_of db p).

Definition of_option (o : option string) : Value :=
  match o with Some s => VStr s | None => VNone end.

Definition PageBlock_as_dict (self : PageBlock) : M Dict :=
  co ← PageBlock_block self;
  let d := match co with
           | Some b => match block_as_dict b with Some d0 => d0 | None => [] end
           | None => []
           end in
  let d := dict_set d "label" (of_option (pb_label self)) in
  let d := dict_set d "css_extra" (of_option (css_extra self)) in
  match co with
  | Some b => ret (dict_set d "block_type" (VStr (display_name b)))
  | None => raise AttributeError
  end.

(** The content object's own [submit(user, data)]: recorded. *)
Definition Block_submit (b : Block) (user : User) (data : gmap string FormValue) : M unit :=
  write (set_submitted (fun l =>
    l ++ [{| sub_model := block_model b; sub_block := block_pk b;
             sub_user := user; sub_data := data |}])).

(** ** Section *)

Definition Section_hierarchy (self : SectionObj) : M Hierarchy :=
  rows ← read (fun db => filter (fun h => hierarchy_pk h = hierarchy self) (hierarchies db));
  objects_get rows.

(** [get_previous]: [self.get_root().get_annotated_list()] gives the class
    method no parent; the loop returns at the first entry with the key of
    [self]. *)
Definition Section_get_previous (self : SectionObj) : M (option SectionObj) :=
  root ← get_root self;
  depth_first_traversal ← get_annotated_list root None;
  match list_find (fun e => pk (fst e) = pk self) depth_first_traversal with
  | Some (i, _) =>
      if (1 <? i)%nat then
        match depth_first_traversal !! (i - 1)%nat with
        | Some (prev, _) => if negb (is_root prev) then ret (Some prev) else ret None
        | None => raise IndexError
        end
      else ret None
  | None => ret None
  end.

Definition Section_get_next (self : SectionObj) : M (option SectionObj) :=
  root ← get_root self;
  depth_first_traversal ← get_annotated_list root None;
  match list_find (fun e => pk (fst e) = pk self) depth_first_traversal with
  | Some (i, _) =>
      if (i <? length depth_first_traversal - 1)%nat then
        match depth_first_traversal !! (i + 1)%nat with
        | Some (next, _) => ret (Some next)
        | None => raise IndexError
        end
      else ret None
  | None => ret None
  end.

Definition Section_append_child (self : SectionObj) (l sl : string) : M SectionObj :=
  let sl := if String.eqb sl "" then slugify l else sl in
  add_child self l sl (hierarchy self).

(** The parameters [append_pageblock] declares besides [self]. *)
Definition Section_append_pageblock_params : list string := ["label"; "content_object"].

Definition Section_append_pageblock (self : SectionObj) (l : option string)
    (content_object : Block) : M PageBlock :=
  n ← pageblock_set_count self;
  let neword := (n + 1)%nat in
  PageBlock_objects_create self l neword content_object.

(** [get_absolute_url] calls itself on the parent; [fuel] bounds the
    nesting of the calls. *)
Fixpoint get_absolute_url_rec (fuel : nat) (self : SectionObj) : M string :=
  if is_root self then
    h ← Section_hierarchy self; ret (Hierarchy_get_absolute_url h)
  else
    match fuel with
    | O => raise RecursionError
    | S fuel' =>
        parent ← get_parent self;
        match parent with
        | Some p => u ← get_absolute_url_rec fuel' p; ret (u +:+ slug self +:+ "/")
        | None => raise AttributeError
        end
    end.

Definition Section_get_absolute_url (self : SectionObj) : M string :=
  get_absolute_url_rec (depth self) self.

Definition Section_get_path (self : SectionObj) : M string :=
  u ← Section_get_absolute_url self; ret (slice_from 1 u).

(** The loop of [renumber_pageblocks], [i] being the counter. *)
Fixpoint renumber_loop (i : nat) (bs : list PageBlock) : M unit :=
  match bs with
  | [] => ret tt
  | block :: bs' =>
      _ ← PageBlock_save (with_ordinality block i);
      renumber_loop (i + 1)%nat bs'
  end.

Definition Section_renumber_pageblocks (self : SectionObj) : M unit :=
  bs ← pageblock_set_all self;
  renumber_loop 1%nat bs.

(** The loop of [update_pageblocks_order] over [enumerate(pageblock_ids)],
    [i] being the index of the first id of the list. *)
Fixpoint update_order_loop (i : nat) (pageblock_ids : list Z) : M unit :=
  match pageblock_ids with
  | [] => ret tt
  | id :: ids =>
      sc ← PageBlock_objects_get id;
      _ ← PageBlock_save (with_ordinality sc (i + 1));
      update_order_loop (S i) ids
  end.

Definition Section_update_pageblocks_order (self : SectionObj) (pageblock_ids : list Z)
  : M unit :=
  update_order_loop 0 pageblock_ids.

Definition Section_available_pageblocks (settings : option (list BlockClass))
    (self : SectionObj) : M (list BlockClass) :=
  _ ← Section_hierarchy self;
  ret (Hierarchy_available_pageblocks settings).

(** [PageBlock.delete] *)
Definition PageBlock_delete (self : PageBlock) : M unit :=
  rows ← read (fun db => filter (fun s => pk s = pb_section self) (all_sections db));
  section ← objects_get rows;
  _ ← write (set_pageblocks (filter (fun p => pb_pk p ≠ pb_pk self)));
  Section_renumber_pageblocks section.

(** [request_data]: a QueryDict, each key with the list of its values. *)
Definition getlist (request_data : gmap string (list string)) (k : string) : list string :=
  default [] (request_data !! k).

(** [request_data[k]]: the last value of the key. *)
Definition getitem (request_data : gmap string (list string)) (k : string) : string :=
  default "" (last (getlist request_data k)).

Definition keys (request_data : gmap string (list string)) : list string :=
  (map_to_list request_data).*1.

(** The dictionary [submit] builds for the block with the given prefix. *)
Definition submit_data (pre : string) (request_data : gmap string (list string))
  : gmap string FormValue :=
  foldl (fun data k =>
           if startswith k pre then
             let v := getlist request_data k in
             if (length v =? 1)%nat
             then <[slice_from (String.length pre) k := Scalar (getitem request_data k)]> data
             else <[slice_from (String.length pre) k := Listed v]> data
           else data)
        ∅ (keys request_data).

Definition submit_prefix (p : PageBlock) : string :=
  "pageblock-" +:+ format_d (pb_pk p) +:+ "-".

Fixpoint submit_loop (request_data : gmap string (list string)) (user : User)
    (ps : list PageBlock) (proceed : bool) : M bool :=
  match ps with
  | [] => ret proceed
  | p :: ps' =>
      co ← PageBlock_block p;
      match co with
      | Some b =>
          match needs_submit b with
          | Some true =>
              let data := submit_data (submit_prefix p) request_data in
              _ ← Block_submit b user data;
              match redirect_to_self_on_submit b with
              | Some r => submit_loop request_data user ps' (negb r)
              | None => submit_loop request_data user ps' proceed
              end
          | _ => submit_loop request_data user ps' proceed
          end
      | None => submit_loop request_data user ps' proceed
      end
  end.

Definition Section_submit (self : SectionObj) (request_data : gmap string (list string))
    (user : User) : M bool :=
  ps ← pageblock_set_all self;
  submit_loop request_data user ps true.

(** *** Export and import as nested dictionaries *)

(** The dictionary of a section; a key that is absent is [None]. *)
#[warnings="-register-all"]
Inductive SectionDict := MkSectionDict {
  sd_label : option string;
  sd_slug : option string;
  sd_pageblocks : option (list Dict);
  sd_children : option (list SectionDict) }.

Record HierarchyDict := {
  hd_name : option string;
  hd_base_url : option string;
  hd_sections : option (list SectionDict) }.

Fixpoint map_M {A B} (f : A -> M B) (l : list A) : M (list B) :=
  match l with
  | [] => ret []
  | x :: l' => bind (f x) (fun y => bind (map_M f l') (fun ys => ret (y :: ys)))
  end.

Fixpoint node_as_dict (n : Node) : M SectionDict :=
  bs ← read (fun db => pageblock_set db (node_pk n));
  pbs ← map_M PageBlock_as_dict bs;
  cs ← (fix kids (cs : list Node) : M (list SectionDict) :=
          match cs with
          | [] => ret []
          | c :: cs' => d ← node_as_dict c; ds ← kids cs'; ret (d :: ds)
          end) (node_children n);
  ret (MkSectionDict (Some (node_label n)) (Some (node_slug n)) (Some pbs) (Some cs)).

Definition Section_as_dict (self : SectionObj) : M SectionDict :=
  bs ← pageblock_set_all self;
  pbs ← map_M PageBlock_as_dict bs;
  stored ← read (fun db => match forest_at (sections db) (path self) with
                           | Some n => node_children n
                           | None => []
                           end);
  cs ← map_M node_as_dict stored;
  ret (MkSectionDict (Some (label self)) (Some (slug self)) (Some pbs) (Some cs)).

Definition Hierarchy_as_dict (self : Hierarchy) : M HierarchyDict :=
  root ← Hierarchy_get_root self;
  d ← Section_as_dict root;
  ret {| hd_name := Some (name self); hd_base_url := Some (base_url self);
         hd_sections := Some [d] |}.

Definition Block_objects_create (mk : Z -> Block) : M Block :=
  fun db =>
    let b := mk (fresh (block_pk <$> blocks db)) in
    (Ok b, set_blocks (fun t => t ++ [b]) db).

Definition as_label (v : Value) : option string :=
  match v with
  | VStr s => Some s
  | VNone => None
  | VInt z => Some (format_d z)
  end.

(** A call with keyword arguments is accepted when every keyword names a
    parameter of the callee. *)
Definition accepts (params keywords : list string) : bool :=
  forallb (fun k => bool_decide (k ∈ params)) keywords.

Definition Section_add_pageblock_from_dict (settings : option (list BlockClass))
    (self : SectionObj) (d : Dict) : M unit :=
  let blocktype := default (VStr "") (dict_get d "block_type") in
  classes ← Section_available_pageblocks settings self;
  for_each classes (fun pb_class =>
    if Value_eqb (VStr (cls_display_name pb_class)) blocktype then
      match create_from_dict pb_class with
      | Some create =>
          block ← Block_objects_create (create d);
          if accepts Section_append_pageblock_params ["label"; "css_extra"; "content_object"]
          then _ ← Section_append_pageblock self
                     (as_label (default (VStr "") (dict_get d "label"))) block;
               ret tt
          else raise TypeError
      | None => ret tt
      end
    else ret tt).

Fixpoint Section_add_child_section_from_dict (settings : option (list BlockClass))
    (self : SectionObj) (d : SectionDict) : M unit :=
  match d with
  | MkSectionDict l sl pbs cs =>
      s ← Section_append_child self (default "" l) (default "" sl);
      _ ← for_each (default [] pbs) (Section_add_pageblock_from_dict settings s);
      match cs with
      | Some cs =>
          (fix loop (cs : list SectionDict) : M unit :=
             match cs with
             | [] => ret tt
             | c :: cs' =>
                 _ ← Section_add_child_section_from_dict settings s c; loop cs'
             end) cs
      | None => ret tt
      end
  end.

Definition Hierarchy_add_section_from_dict (settings : option (list BlockClass))
    (self : Hierarchy) (d : SectionDict) : M SectionObj :=
  s ← add_root "Root" "" (hierarchy_pk self);
  _ ← for_each (default [] (sd_pageblocks d)) (Section_add_pageblock_from_dict settings s);
  _ ← for_each (default [] (sd_children d)) (Section_add_child_section_from_dict settings s);
  ret s.

Definition Hierarchy_from_dict (settings : option (list BlockClass)) (d : HierarchyDict)
  : M Hierarchy :=
  h ← Hierarchy_objects_create (default "" (hd_name d)) (default "/" (hd_base_url d));
  _ ← for_each (default [] (hd_sections d))
        (fun s => _ ← Hierarchy_add_section_from_dict settings h s; ret tt);
  ret h.

(** *** Per-user state *)

Definition Hierarchy_get_user_section (self : Hierarchy) (user : User)
  : M (option SectionObj) :=
  loc ← Hierarchy_get_user_location self user;
  Hierarchy_find_section_from_path self (slice_from 1 loc).

Definition Hierarchy_user_visit (self : Hierarchy) (user : User) (section : SectionObj)
  : M unit :=
  p ← Section_get_absolute_url section;
  '(ul, created) ← UserLocation_get_or_create user self;
  UserLocation_save (with_path ul p).

Definition Section_user_visit (self : SectionObj) (user : User) : M unit :=
  h ← Section_hierarchy self;
  Hierarchy_user_visit h user self.

Definition Section_user_pagevisit (self : SectionObj) (user : User) (st : string) : M unit :=
  '(upv, created) ← UserPageVisit_get_or_create self user;
  UserPageVisit_save (with_status upv st).

Definition Section_get_uservisit (self : SectionObj) (user : User)
  : M (option UserPageVisit) :=
  match user with
  | AnonymousUser => raise TypeError
  | AuthUser u =>
      read (fun db => head (filter (fun r => upv_section r = pk self ∧ upv_user r = u)
                                   (userpagevisits db)))
  end.

(** ** Stated properties of the stored state *)

(** Keys are unique, and each (user, hierarchy) and each (user, section)
    has at most one row. *)
Definition ul_key (r : UserLocation) : Z * Z := (ul_user r, ul_hierarchy r).

Definition upv_key (r : UserPageVisit) : Z * Z := (upv_user r, upv_section r).

Definition user_state_ok (db : DB) : Prop :=
  NoDup (ul_pk <$> userlocations db) ∧ NoDup (ul_key <$> userlocations db) ∧
  NoDup (upv_pk <$> userpagevisits db) ∧ NoDup (upv_key <$> userpagevisits db).

(** No row of the per-user tables is removed or re-keyed: the rows of
    [db] are still the first rows of [db']. *)
Definition never_deletes (db db' : DB) : Prop :=
  ((fun r => (ul_pk r, ul_key r)) <$> userlocations db)
    `prefix_of` ((fun r => (ul_pk r, ul_key r)) <$> userlocations db') ∧
  ((fun r => (upv_pk r, upv_key r)) <$> userpagevisits db)
    `prefix_of` ((fun r => (upv_pk r, upv_key r)) <$> userpagevisits db').

(** The ordinalities of a section's pageblocks, in their order, are
    1..N. *)
Definition contiguous (db : DB) (section_pk : Z) : Prop :=
  ordinality <$> pageblock_set db section_pk
  = seq 1 (length (pageblock_set db section_pk)).

Definition ordinalities_ok (db : DB) : Prop :=
  NoDup (pb_pk <$> pageblocks db) ∧ ∀ section_pk, contiguous db section_pk.

(** A pageblock row after the ordinalities [start], [start + 1], ... were
    given to the rows with the keys [ids], in that order. *)
Definition position (ids : list Z) (id : Z) : option nat :=
  fst <$> list_find (fun i => i = id) ids.

Definition reorder (start : nat) (ids : list Z) (x : PageBlock) : PageBlock :=
  match position ids (pb_pk x) with
  | Some k => with_ordinality x (start + k)
  | None => x
  end.

(** Every root of the forest is labelled "Root" and has the empty slug. *)
Definition roots_ok (db : DB) : Prop :=
  Forall (fun n => node_label n = "Root" ∧ node_slug n = "") (sections db).

(** How [submit] hands over the values posted for one field. *)
Definition posted (v : list string) : FormValue :=
  match v with
  | [x] => Scalar x
  | _ => Listed v
  end.

(** The call of [submit] that a pageblock gets, if any. *)
Definition submission_of (db : DB) (request_data : gmap string (list string))
    (user : User) (p : PageBlock) : option Submission :=
  match block_of db p with
  | Some b =>
      match needs_submit b with
      | Some true =>
          Some {| sub_model := block_model b; sub_block := block_pk b; sub_user := user;
                  sub_data := submit_data (submit_prefix p) request_data |}
      | _ => None
      end
  | None => None
  end.

(** What a pageblock that is submitted answers to
    [redirect_to_self_on_submit()], if it has the method. *)
Definition redirect_of (db : DB) (p : PageBlock) : option bool :=
  match block_of db p with
  | Some b =>
      match needs_submit b with
      | Some true => redirect_to_self_on_submit b
      | _ => None
      end
  | None => None
  end.

(** The slugs of a list of sections, each followed by a slash. *)
Definition slugs_path (l : list SectionObj) : string :=
  foldr (fun a acc => slug a +:+ "/" +:+ acc) "" l.

(** The labels, slugs and children order of a section tree. *)
#[warnings="-register-all"]
Inductive Outline :=
| MkOutline (o_label o_slug : string) (o_children : list Outline).

Fixpoint node_outline (n : Node) : Outline :=
  MkOutline (node_label n) (node_slug n) (node_outline <$> node_children n).

Fixpoint dict_outline (d : SectionDict) : Outline :=
  match d with
  | MkSectionDict l sl _ cs =>
      MkOutline (default "" l) (default "" sl)
                (match cs with
                 | Some cs => dict_outline <$> cs
                 | None => []
                 end)
  end.

(** A section dictionary is imported with the slug it holds: a slug is
    only generated for an empty one, from the label. *)
Fixpoint slugs_kept (d : SectionDict) : bool :=
  match d with
  | MkSectionDict l sl _ cs =>
      String.eqb (if String.eqb (default "" sl) "" then slugify (default "" l)
                  else default "" sl)
                 (default "" sl)
      && match cs with
         | Some cs => forallb slugs_kept cs
         | None => true
         end
  end.

(** A pageblock dictionary that [add_pageblock_from_dict] re-creates: an
    available class has its block type and [create_from_dict]. *)
Definition importable (settings : option (list BlockClass)) (d : Dict) : bool :=
  existsb (fun c => Value_eqb (VStr (cls_display_name c))
                              (default (VStr "") (dict_get d "block_type"))
                    && bool_decide (is_Some (create_from_dict c)))
          (Hierarchy_available_pageblocks settings).

Fixpoint no_importable (settings : option (list BlockClass)) (d : SectionDict) : bool :=
  match d with
  | MkSectionDict _ _ pbs cs =>
      forallb (fun pb => negb (importable settings pb)) (default [] pbs)
      && match cs with
         | Some cs => forallb (no_importable settings) cs
         | None => true
         end
  end.

(** What an exported hierarchy must satisfy to be imported as it is: below
    the roots slugs are kept, and no pageblock is importable. *)
Definition exported_slugs_kept (d : HierarchyDict) : bool :=
  forallb (fun s => forallb slugs_kept (default [] (sd_children s)))
          (default [] (hd_sections d)).

Definition exported_no_importable (settings : option (list BlockClass))
    (d : HierarchyDict) : bool :=
  forallb (no_importable settings) (default [] (hd_sections d)).

Definition add_kids (cs : list Node) (n : Node) : Node :=
  MkNode (node_pk n) (node_label n) (node_slug n) (node_hierarchy n)
         (node_children n ++ cs).

(** ** Further methods of the models *)

(** [node.get_siblings()]: the nodes at the depth of the node that lie
    below its parent, the node itself among them; for a root, the roots. *)
Definition get_siblings (s : SectionObj) : M (list SectionObj) :=
  read (fun db =>
          if (1 <? depth s)%nat then
            match forest_at (sections db) (removelast (path s)) with
            | Some parent =>
                imap (fun i c => instance (removelast (path s) ++ [i]) c)
                     (node_children parent)
            | None => []
            end
          else if (depth s =? 1)%nat then imap (fun i n => instance [i] n) (sections db)
          else []).

(** [get_siblings()[0]] *)
Definition get_first_sibling (s : SectionObj) : M SectionObj :=
  l ← get_siblings s;
  match head l with
  | Some x => ret x
  | None => raise IndexError
  end.

(** [get_siblings().reverse()[0]] *)
Definition get_last_sibling (s : SectionObj) : M SectionObj :=
  l ← get_siblings s;
  match head (reverse l) with
  | Some x => ret x
  | None => raise IndexError
  end.

Definition Section_get_module (self : SectionObj) : M (option SectionObj) :=
  if is_root self then ret None
  else if (depth self =? 2)%nat then ret (Some self)
  else ancestors ← get_ancestors self;
       match ancestors !! 1%nat with
       | Some a => ret (Some a)
       | None => raise IndexError
       end.

Definition Section_is_first_child (self : SectionObj) : M bool :=
  f ← get_first_sibling self; ret (bool_decide (pk f = pk self)).

Definition Section_is_last_child (self : SectionObj) : M bool :=
  l ← get_last_sibling self; ret (bool_decide (pk l = pk self)).

(** [closing_children] is a generator; the list is what it yields when it
    is run to its end.  Every turn of the loop moves to the parent, so
    [fuel] is the number of turns allowed. *)
Fixpoint closing_children_loop (fuel : nat) (s : SectionObj) : M (list SectionObj) :=
  if is_root s then ret []
  else
    lc ← Section_is_last_child s;
    if lc : bool then
      match fuel with
      | O => raise RecursionError
      | S fuel' =>
          parent ← get_parent s;
          match parent with
          | Some p => rest ← closing_children_loop fuel' p; ret (s :: rest)
          | None => raise AttributeError
          end
      end
    else ret [].

Definition Section_closing_children (self : SectionObj) : M (list SectionObj) :=
  closing_children_loop (depth self) self.

(** [get_first_leaf] calls itself on the first child; [fuel] bounds the
    nesting of the calls. *)
Fixpoint Section_get_first_leaf (fuel : nat) (self : SectionObj) : M SectionObj :=
  if is_leaf self then ret self
  else
    match fuel with
    | O => raise RecursionError
    | S fuel' =>
        cs ← get_children self;
        match cs !! 0%nat with
        | Some c => Section_get_first_leaf fuel' c
        | None => raise IndexError
        end
    end.

Fixpoint Hierarchy_get_first_leaf (fuel : nat) (self : Hierarchy) (section : SectionObj)
  : M SectionObj :=
  if is_leaf section then ret section
  else
    match fuel with
    | O => raise RecursionError
    | S fuel' =>
        cs ← get_children section;
        match cs !! 0%nat with
        | Some c => Hierarchy_get_first_leaf fuel' self c
        | None => raise IndexError
        end
    end.

(** The nesting of a stored tree below its top node. *)
Fixpoint height (n : Node) : nat :=
  match n with
  | MkNode _ _ _ _ cs => foldr (fun c h => Nat.max (S (height c)) h) 0%nat cs
  end.

(** ** Paths that resolve *)

Fixpoint no_slash (s : string) : bool :=
  match s with
  | EmptyString => true
  | String c s' => negb (Ascii.eqb c "/"%char) && no_slash s'
  end.

(** The slugs met on the way down the steps [q] from the node [n]. *)
Fixpoint path_slugs (q : list nat) (n : Node) : list string :=
  match q with
  | [] => []
  | j :: q' =>
      match node_children n !! j with
      | Some c => node_slug c :: path_slugs q' c
      | None => []
      end
  end.

(** Each slug followed by a slash. *)
Definition slash_each (slugs_of_path : list string) : string :=
  foldr (fun sl acc => sl +:+ "/" +:+ acc) "" slugs_of_path.

(** ["/".join(slugs)] *)
Fixpoint join_slash (slugs_of_path : list string) : string :=
  match slugs_of_path with
  | [] => ""
  | sl :: rest =>
      match rest with
      | [] => sl
      | _ :: _ => sl +:+ "/" +:+ join_slash rest
      end
  end.

(** On the way down the steps [q] from [n], every section has a slug
    without a slash that none of its later siblings has. *)
Fixpoint resolves (q : list nat) (n : Node) : Prop :=
  match q with
  | [] => True
  | j :: q' =>
      match node_children n !! j with
      | Some c =>
          no_slash (node_slug c) = true
          ∧ Forall (fun c' => node_slug c' ≠ node_slug c) (drop (S j) (node_children n))
          ∧ resolves q' c
      | None => False
      end
  end.

(** ** Positions among siblings *)

(** The stored nodes directly below the path [p]; the roots for the
    empty path. *)
Definition kids_at (t : list Node) (p : list nat) : list Node :=
  match p with
  | [] => t
  | _ :: _ => match forest_at t p with
              | Some n => node_children n
              | None => []
              end
  end.

(** The path [p] ends at the last of the nodes stored below its parent. *)
Definition is_last_path (t : list Node) (p : list nat) : bool :=
  bool_decide (last p = Some (length (kids_at t (removelast p)) - 1)%nat).

(** A character of a generated slug: a lower-case letter, a digit, an
    underscore or a hyphen. *)
Definition is_slug_char (c : ascii) : bool :=
  let n := nat_of_ascii c in
  ((48 <=? n)%nat && (n <=? 57)%nat) || ((97 <=? n)%nat && (n <=? 122)%nat)
  || (n =? 95)%nat || (n =? 45)%nat.

(** ** pagetree.generic: what BasePageBlock answers *)

Definition BasePageBlock_needs_submit : bool := false.

Definition BasePageBlock_unlocked (user : User) : bool := true.

Definition BasePageBlock_redirect_to_self_on_submit : bool := true.

(** ** Reordering children *)

(** A node with its child at position [j] made its last child. *)
Definition move_to_end (j : nat) (n : Node) : Node :=
  match node_children n !! j with
  | Some c =>
      MkNode (node_pk n) (node_label n) (node_slug n) (node_hierarchy n)
             (delete j (node_children n) ++ [c])
  | None => n
  end.

(** [s.move(p, pos="last-child")] where [p] is the parent of [s]:
    treebeard makes [s], with its subtree, the last of the children of
    [p]. *)
Definition move_last_child (s p : SectionObj) : M unit :=
  write (set_sections (fun t => match last (path s) with
                                | Some j => forest_alter (move_to_end j) (path p) t
                                | None => t
                                end)).

(** [update_children_order]: [get_parent()] of a root is [None], on which
    [move] raises AttributeError. *)
Definition Section_update_children_order (self : SectionObj) (children_ids : list Z)
  : M unit :=
  for_each children_ids (fun section_id =>
    rows ← read (fun db => filter (fun s => pk s = section_id) (all_sections db));
    s ← objects_get rows;
    p ← get_parent s;
    match p with
    | Some p' => move_last_child s p'
    | None => raise AttributeError
    end).

Definition with_children (cs : list Node) (n : Node) : Node :=
  MkNode (node_pk n) (node_label n) (node_slug n) (node_hierarchy n) cs.

(** The children [cs] after the one with the key [id] was moved to the
    end. *)
Definition moved_to_end (cs : list Node) (id : Z) : list Node :=
  filter (fun c => node_pk c ≠ id) cs ++ filter (fun c => node_pk c = id) cs.

(** ** What an operation leaves alone *)

(** A computation that leaves the table of hierarchies as it is, whether
    it returns or raises. *)
Definition keeps_hierarchies {A : Type} (c : M A) : Prop :=
  ∀ db, hierarchies (snd (c db)) = hierarchies db.

(** A computation that keeps a property of the database, whether it
    returns or raises. *)
Definition preserves {A : Type} (P : DB → Prop) (c : M A) : Prop :=
  ∀ db, P db → P (snd (c db)).

(** ** Sample data *)

Definition demo_hierarchy : Hierarchy :=
  {| hierarchy_pk := 1; name := "main"; base_url := "/" |}.

Definition demo_tree : Node :=
  MkNode 1 "Root" "" 1
    [ MkNode 2 "Intro" "intro" 1 [ MkNode 3 "Part One" "part-one" 1 [] ];
      MkNode 4 "About" "about" 1 [] ].

Definition demo_db : DB :=
  set_hierarchies (fun _ => [demo_hierarchy]) (set_sections (fun _ => [demo_tree]) empty_db).

Definition demo_root : SectionObj := instance [0%nat] demo_tree.

Definition demo_intro : SectionObj :=
  {| pk := 2; path := [0%nat; 0%nat]; label := "Intro"; slug := "intro";
     hierarchy := 1; numchild := 1 |}.

Definition demo_part_one : SectionObj :=
  {| pk := 3; path := [0%nat; 0%nat; 0%nat]; label := "Part One"; slug := "part-one";
     hierarchy := 1; numchild := 0 |}.

Definition demo_about : SectionObj :=
  {| pk := 4; path := [0%nat; 1%nat]; label := "About"; slug := "about";
     hierarchy := 1; numchild := 0 |}.

(** The sample database after user 7 visited "Intro". *)
Definition demo_visited_db : DB :=
  set_userlocations
    (fun _ => [ {| ul_pk := 1; ul_user := 7; ul_hierarchy := 1; ul_path := "/intro/" |} ])
    (set_userpagevisits
       (fun _ => [ {| upv_pk := 1; upv_user := 7; upv_section := 2;
                      status := "complete"; first_visit := 0; last_visit := 0 |} ])
       demo_db).

(** "Intro" with two quiz blocks: the first asks to stay on the page,
    the second does not. *)
Definition demo_quiz (id : Z) (stay : bool) : Block :=
  {| block_model := "quiz.Quiz"; block_pk := id; display_name := "Quiz";
     needs_submit := Some true; redirect_to_self_on_submit := Some stay;
     block_as_dict := Some [("description", VStr "a quiz")] |}.

Definition demo_pageblock (id : Z) (ord : nat) : PageBlock :=
  {| pb_pk := id; pb_section := 2; ordinality := ord; pb_label := Some "Quiz";
     css_extra := None; content_type := "quiz.Quiz"; object_id := id |}.

Definition demo_submit_db : DB :=
  set_blocks (fun _ => [demo_quiz 1 true; demo_quiz 2 false])
    (set_pageblocks (fun _ => [demo_pageblock 1 1; demo_pageblock 2 2]) demo_db).

Definition demo_request : gmap string (list string) :=
  <["pageblock-1-answer" := ["yes"]]>
    (<["pageblock-2-choices" := ["a"; "b"]]> ∅).

(** A hierarchy whose section "Intro" was stored with an empty slug. *)
Definition demo_unslugged_db : DB :=
  set_hierarchies (fun _ => [demo_hierarchy])
    (set_sections (fun _ => [MkNode 1 "Root" "" 1 [MkNode 2 "Intro" "" 1 []]]) empty_db).

(** The quiz class, with [create_from_dict], listed in the settings. *)
Definition demo_quiz_class : BlockClass :=
  {| cls_model := "quiz.Quiz"; cls_display_name := "Quiz";
     create_from_dict := Some (fun d id => demo_quiz id true) |}.

Definition demo_settings : option (list BlockClass) := Some [demo_quiz_class].

(** A hierarchy that has no section yet. *)
Definition demo_new_db : DB :=
  set_hierarchies (fun _ => [demo_hierarchy]) empty_db.

(** Two children of the root with the same slug. *)
Definition demo_twins_tree : Node :=
  MkNode 1 "Root" "" 1 [ MkNode 2 "First" "page" 1 []; MkNode 3 "Second" "page" 1 [] ].

Definition demo_twins_db : DB :=
  set_hierarchies (fun _ => [demo_hierarchy])
    (set_sections (fun _ => [demo_twins_tree]) empty_db).

(** "Intro" with one block that keeps what BasePageBlock answers. *)
Definition demo_text : Block :=
  {| block_model := "text.Text"; block_pk := 1; display_name := "Text";
     needs_submit := Some BasePageBlock_needs_submit;
     redirect_to_self_on_submit := Some BasePageBlock_redirect_to_self_on_submit;
     block_as_dict := None |}.

Definition demo_text_pageblock : PageBlock :=
  {| pb_pk := 1; pb_section := 2; ordinality := 1; pb_label := Some "Welcome";
     css_extra := None; content_type := "text.Text"; object_id := 1 |}.

Definition demo_text_db : DB :=
  set_blocks (fun _ => [demo_text]) (set_pageblocks (fun _ => [demo_text_pageblock]) demo_db).

(** Two hierarchies, each with its tree: the sample tree, and after it a
    root with one page. *)
Definition demo_other_hierarchy : Hierarchy :=
  {| hierarchy_pk := 2; name := "other"; base_url := "/other/" |}.

Definition demo_other_tree : Node :=
  MkNode 5 "Root" "" 2 [ MkNode 6 "Welcome" "welcome" 2 [] ].

Definition demo_other_root : SectionObj := instance [1%nat] demo_other_tree.

Definition demo_two_db : DB :=
  set_hierarchies (fun _ => [demo_hierarchy; demo_other_hierarchy])
    (set_sections (fun _ => [demo_tree; demo_other_tree]) empty_db).

(** ** Proofs *)

Ltac unfold_M :=
  unfold mbind, M_bind, mret, M_ret, bind, ret, raise, read, write in *.

(** *** Text *)

Lemma endswith_append_slash (p : string) : endswith (p +:+ "/") "/" = true.
Proof.
  induction p as [|c p IH]; [reflexivity|].
  simpl. rewrite IH. by repeat case_match.
Qed.

Lemma drop_last_append_slash (p : string) : drop_last (p +:+ "/") = p.
Proof.
  induction p as [|c p IH]; [reflexivity|].
  simpl. rewrite IH. by destruct p.
Qed.

Lemma append_assoc (a b c : string) : (a +:+ b) +:+ c = a +:+ (b +:+ c).
Proof.
  induction a as [|x a IH]; [done|].
  change (String x ((a +:+ b) +:+ c) = String x (a +:+ (b +:+ c))). by rewrite IH.
Qed.

Lemma append_empty_r (a : string) : a +:+ "" = a.
Proof.
  induction a as [|x a IH]; [done|].
  change (String x (a +:+ "") = String x a). by rewrite IH.
Qed.

(** *** Hierarchy.get_root and find_section_from_path *)

Lemma objects_get_raises {A} (rows : list A) (e : Exception) (db db' : DB) :
  objects_get rows db = (Raise e, db') →
  db' = db ∧ (e = DoesNotExist ∨ e = MultipleObjectsReturned).
Proof.
  destruct rows as [|r [|r' rows]]; cbn; intros [= <- <-]; auto.
Qed.

Lemma Hierarchy_get_root_raises (self : Hierarchy) (db db' : DB) (e : Exception) :
  Hierarchy_get_root self db = (Raise e, db') → e = MultipleObjectsReturned ∧ db' = db.
Proof.
  unfold Hierarchy_get_root, try_except. unfold_M.
  destruct (filter _ (all_sections db)) as [|s [|s' rows]]; cbn.
  - case_decide; [|done]. unfold add_root. intros [=].
  - unfold get_root, section_by_path.
    destruct (forest_at _ _); cbn; [intros [=]|].
    case_decide; [|done]. unfold add_root. intros [=].
  - case_decide; [done|]. by intros [= <- <-].
Qed.

Lemma find_section_loop_returns (l : list string) (current : SectionObj) (db : DB) :
  ∃ r, find_section_loop l current db = (Ok r, db).
Proof.
  revert current. induction l as [|sl l IH]; intros current; cbn.
  - by eexists.
  - unfold get_children. unfold_M. destruct (_ !! sl); [apply IH|by eexists].
Qed.

Lemma find_section_from_path_raises (self : Hierarchy) (p : string) (db db' : DB)
    (e : Exception) :
  Hierarchy_find_section_from_path self p db = (Raise e, db') →
  e = MultipleObjectsReturned.
Proof.
  unfold Hierarchy_find_section_from_path. unfold_M.
  destruct (Hierarchy_get_root self db) as [[root|e'] db1] eqn:Hroot.
  - destruct (String.eqb _ _); [intros [=]|].
    destruct (find_section_loop_returns
                (split "/"%char (if endswith p "/" then drop_last p else p)) root db1)
      as [r ->]. intros [=].
  - intros [= <- <-]. by apply Hierarchy_get_root_raises in Hroot as [-> _].
Qed.

(** C8: [get_section_from_path] raises Http404 exactly when
    [find_section_from_path] returns None, and returns the section that
    [find_section_from_path] resolved otherwise. *)
Theorem get_section_from_path_404 (self : Hierarchy) (p : string) (db : DB) :
  (∀ db', Hierarchy_get_section_from_path self p db = (Raise Http404, db')
          ↔ Hierarchy_find_section_from_path self p db = (Ok None, db')) ∧
  (∀ s db', Hierarchy_find_section_from_path self p db = (Ok (Some s), db')
            ↔ Hierarchy_get_section_from_path self p db = (Ok s, db')).
Proof.
  unfold Hierarchy_get_section_from_path. unfold_M.
  destruct (Hierarchy_find_section_from_path self p db) as [[[s|]|e] db1] eqn:Hfind.
  - split; intros; split; intros [=]; by subst.
  - split; intros; split; intros [=]; by subst.
  - apply find_section_from_path_raises in Hfind as ->.
    split; intros; split; intros [=].
Qed.

(** C9 (as amended): for a path that does not itself end with a slash,
    adding one trailing slash does not change what
    [find_section_from_path] does; the empty path and "/" resolve to the
    root that [get_root] gives. *)
Theorem find_section_from_path_trailing_slash (self : Hierarchy) (p : string) (db : DB) :
  endswith p "/" = false →
  Hierarchy_find_section_from_path self (p +:+ "/") db
  = Hierarchy_find_section_from_path self p db
  ∧ Hierarchy_find_section_from_path self "" db
    = (root ← Hierarchy_get_root self; mret (Some root)) db
  ∧ Hierarchy_find_section_from_path self "/" db
    = (root ← Hierarchy_get_root self; mret (Some root)) db.
Proof.
  intros Hp. unfold Hierarchy_find_section_from_path.
  rewrite endswith_append_slash, drop_last_append_slash, Hp. done.
Qed.

Lemma find_section_from_path_trailing_slash_witness :
  endswith "intro" "/" = false ∧
  (Hierarchy_find_section_from_path demo_hierarchy ("intro" +:+ "/") demo_db
   = Hierarchy_find_section_from_path demo_hierarchy "intro" demo_db
   ∧ Hierarchy_find_section_from_path demo_hierarchy "" demo_db
     = (root ← Hierarchy_get_root demo_hierarchy; mret (Some root)) demo_db
   ∧ Hierarchy_find_section_from_path demo_hierarchy "/" demo_db
     = (root ← Hierarchy_get_root demo_hierarchy; mret (Some root)) demo_db).
Proof.
  split; [reflexivity|].
  apply (find_section_from_path_trailing_slash demo_hierarchy "intro" demo_db).
  reflexivity.
Defined.

(** C9 as stated fails at the path "/": with one more slash the path
    no longer resolves, while "/" resolves to the root. *)
Lemma find_section_from_path_double_slash :
  fst (Hierarchy_find_section_from_path demo_hierarchy ("/" +:+ "/") demo_db) = Ok None ∧
  fst (Hierarchy_find_section_from_path demo_hierarchy "/" demo_db) = Ok (Some demo_root) ∧
  Hierarchy_find_section_from_path demo_hierarchy ("/" +:+ "/") demo_db
  ≠ Hierarchy_find_section_from_path demo_hierarchy "/" demo_db.
Proof.
  split; [by vm_compute|]. split; [by vm_compute|].
  intros H. apply (f_equal fst) in H. vm_compute in H. discriminate H.
Qed.

(** *** Per-user state *)

Lemma fresh_above (l : list Z) (x : Z) : x ∈ l → (x < fresh l)%Z.
Proof.
  unfold fresh. induction 1 as [x l|x y l _ IH]; cbn; lia.
Qed.

Lemma fresh_not_elem (l : list Z) : fresh l ∉ l.
Proof. intros H%fresh_above. lia. Qed.

(** C10: for the anonymous user [get_user_location] returns "/" and the
    database is unchanged; for an authenticated user without a UserLocation
    row in this hierarchy it returns "/" and the only change is one new
    row, with a new key and the path "/", added to the UserLocation
    table. *)
Theorem get_user_location_effect (self : Hierarchy) (db : DB) :
  Hierarchy_get_user_location self AnonymousUser db = (Ok "/", db) ∧
  ∀ u : Z,
    filter (fun r => ul_user r = u ∧ ul_hierarchy r = hierarchy_pk self)
           (userlocations db) = [] →
    ∃ r, Hierarchy_get_user_location self (AuthUser u) db
         = (Ok "/", set_userlocations (fun t => t ++ [r]) db)
         ∧ ul_user r = u ∧ ul_hierarchy r = hierarchy_pk self ∧ ul_path r = "/"
         ∧ ul_pk r ∉ ul_pk <$> userlocations db.
Proof.
  split; [reflexivity|]. intros u Hnone.
  unfold Hierarchy_get_user_location, UserLocation_get_or_create. unfold_M. cbn.
  rewrite Hnone. eexists. split; [reflexivity|]. cbn.
  repeat split. apply fresh_not_elem.
Qed.

Lemma get_user_location_effect_witness :
  Hierarchy_get_user_location demo_hierarchy AnonymousUser demo_db = (Ok "/", demo_db) ∧
  ∃ r, Hierarchy_get_user_location demo_hierarchy (AuthUser 7) demo_db
       = (Ok "/", set_userlocations (fun t => t ++ [r]) demo_db)
       ∧ ul_user r = 7%Z ∧ ul_hierarchy r = hierarchy_pk demo_hierarchy ∧ ul_path r = "/"
       ∧ ul_pk r ∉ ul_pk <$> userlocations demo_db.
Proof.
  split; [apply (get_user_location_effect demo_hierarchy demo_db)|].
  apply (get_user_location_effect demo_hierarchy demo_db). reflexivity.
Defined.

Lemma filter_by_key {A K : Type} (key : A → K) (P : A → Prop)
    `{!∀ x, Decision (P x)} (k : K) (l : list A) :
  (∀ x, P x ↔ key x = k) → NoDup (key <$> l) →
  (filter P l = [] ∧ k ∉ key <$> l) ∨ (∃ r, filter P l = [r] ∧ r ∈ l ∧ key r = k).
Proof.
  intros HP. induction l as [|x l IH]; intros Hnd.
  - left. split; [done|]. by intros ?%elem_of_nil.
  - rewrite fmap_cons in Hnd. apply NoDup_cons in Hnd as [Hx Hnd].
    rewrite filter_cons. destruct (decide (P x)) as [Hpx|Hpx].
    + right. exists x. split; [|split; [left|by apply HP]].
      f_equal. destruct (IH Hnd) as [[-> _]|(r & _ & Hr & Hk)]; [done|].
      exfalso. apply Hx. apply HP in Hpx. rewrite Hpx, <- Hk.
      by apply list_elem_of_fmap_2.
    + destruct (IH Hnd) as [[-> Hk]|(r & -> & Hr & Hk)].
      * left. split; [done|]. rewrite fmap_cons.
        intros [->|?]%elem_of_cons; [by apply Hpx, HP|done].
      * right. exists r. split; [done|]. split; [by right|done].
Qed.

Lemma NoDup_fmap_eq {A K : Type} (key : A → K) (l : list A) (x y : A) :
  NoDup (key <$> l) → x ∈ l → y ∈ l → key x = key y → x = y.
Proof.
  induction l as [|z l IH]; [by intros _ ?%elem_of_nil|].
  rewrite fmap_cons. intros [Hz Hnd]%NoDup_cons Hx Hy Hk.
  apply elem_of_cons in Hx as [->|Hx]; apply elem_of_cons in Hy as [->|Hy].
  - done.
  - exfalso. apply Hz. rewrite Hk. by apply list_elem_of_fmap_2.
  - exfalso. apply Hz. rewrite <- Hk. by apply list_elem_of_fmap_2.
  - by apply IH.
Qed.

(** Saving an edited copy of a stored row keeps the keys of the table. *)
Lemma save_keeps_keys {A K : Type} (pk_of : A → Z) (key : A → K) (r r' : A) (l : list A) :
  NoDup (pk_of <$> l) → r ∈ l → pk_of r' = pk_of r → key r' = key r →
  (fun x => (pk_of x, key x))
    <$> ((fun x => if bool_decide (pk_of x = pk_of r') then r' else x) <$> l)
  = (fun x => (pk_of x, key x)) <$> l.
Proof.
  intros Hnd Hr Hpk Hkey. rewrite <- list_fmap_compose.
  apply list_fmap_ext. intros i x Hx. cbn.
  case_bool_decide as Hc; [|done].
  assert (x = r) as ->.
  { apply (NoDup_fmap_eq pk_of l); [done| |done|congruence].
    by eapply list_elem_of_lookup_2. }
  by rewrite Hpk, Hkey.
Qed.

Lemma user_state_ok_of_keys (db db' : DB) :
  user_state_ok db →
  (fun r => (ul_pk r, ul_key r)) <$> userlocations db'
  = (fun r => (ul_pk r, ul_key r)) <$> userlocations db →
  (fun r => (upv_pk r, upv_key r)) <$> userpagevisits db'
  = (fun r => (upv_pk r, upv_key r)) <$> userpagevisits db →
  user_state_ok db' ∧ never_deletes db db'.
Proof.
  intros (H1 & H2 & H3 & H4) Hl Hv. split.
  - unfold user_state_ok.
    replace (ul_pk <$> userlocations db')
      with (fst <$> ((fun r => (ul_pk r, ul_key r)) <$> userlocations db'))
      by (by rewrite <- list_fmap_compose).
    replace (ul_key <$> userlocations db')
      with (snd <$> ((fun r => (ul_pk r, ul_key r)) <$> userlocations db'))
      by (by rewrite <- list_fmap_compose).
    replace (upv_pk <$> userpagevisits db')
      with (fst <$> ((fun r => (upv_pk r, upv_key r)) <$> userpagevisits db'))
      by (by rewrite <- list_fmap_compose).
    replace (upv_key <$> userpagevisits db')
      with (snd <$> ((fun r => (upv_pk r, upv_key r)) <$> userpagevisits db'))
      by (by rewrite <- list_fmap_compose).
    rewrite Hl, Hv, <- !list_fmap_compose. done.
  - split; [rewrite Hl|rewrite Hv]; done.
Qed.

Lemma user_state_ok_new_location (db : DB) (r : UserLocation) :
  user_state_ok db →
  ul_pk r ∉ ul_pk <$> userlocations db → ul_key r ∉ ul_key <$> userlocations db →
  user_state_ok (set_userlocations (fun t => t ++ [r]) db)
  ∧ never_deletes db (set_userlocations (fun t => t ++ [r]) db).
Proof.
  intros (H1 & H2 & H3 & H4) Hpk Hkey. split.
  - unfold user_state_ok. cbn. rewrite !fmap_app. cbn.
    repeat split; try done; apply NoDup_app; (split; [done|]);
      (split; [|apply NoDup_singleton]); intros x Hx ->%list_elem_of_singleton; done.
  - split; cbn; [|done]. rewrite fmap_app. by apply prefix_app_r.
Qed.

Lemma user_state_ok_new_visit (db : DB) (r : UserPageVisit) :
  user_state_ok db →
  upv_pk r ∉ upv_pk <$> userpagevisits db → upv_key r ∉ upv_key <$> userpagevisits db →
  user_state_ok (set_userpagevisits (fun t => t ++ [r]) db)
  ∧ never_deletes db (set_userpagevisits (fun t => t ++ [r]) db).
Proof.
  intros (H1 & H2 & H3 & H4) Hpk Hkey. split.
  - unfold user_state_ok. cbn. rewrite !fmap_app. cbn.
    repeat split; try done; apply NoDup_app; (split; [done|]);
      (split; [|apply NoDup_singleton]); intros x Hx ->%list_elem_of_singleton; done.
  - split; cbn; [done|]. rewrite fmap_app. by apply prefix_app_r.
Qed.

Lemma never_deletes_trans (db1 db2 db3 : DB) :
  never_deletes db1 db2 → never_deletes db2 db3 → never_deletes db1 db3.
Proof. intros [??] [??]. split; by etrans. Qed.

Lemma never_deletes_refl (db : DB) : never_deletes db db.
Proof. by split. Qed.

Lemma UserLocation_get_or_create_cases (u : Z) (h : Hierarchy) (db : DB) :
  NoDup (ul_key <$> userlocations db) →
  (∃ r, UserLocation_get_or_create (AuthUser u) h db = (Ok (r, false), db)
        ∧ r ∈ userlocations db ∧ ul_key r = (u, hierarchy_pk h))
  ∨ (∃ r, UserLocation_get_or_create (AuthUser u) h db
          = (Ok (r, true), set_userlocations (fun t => t ++ [r]) db)
        ∧ ul_pk r = fresh (ul_pk <$> userlocations db)
        ∧ ul_key r = (u, hierarchy_pk h) ∧ ul_path r = "/"
        ∧ (u, hierarchy_pk h) ∉ ul_key <$> userlocations db).
Proof.
  intros Hnd. unfold UserLocation_get_or_create.
  destruct (filter_by_key ul_key
              (fun r => ul_user r = u ∧ ul_hierarchy r = hierarchy_pk h)
              (u, hierarchy_pk h) (userlocations db))
    as [[-> Hk]|(r & -> & Hr & Hk)]; [|done| |].
  - intros r. unfold ul_key. split; [by intros [-> ->]|by intros [= -> ->]].
  - right. eexists. split; [reflexivity|]. done.
  - left. by exists r.
Qed.

Lemma UserPageVisit_get_or_create_cases (u : Z) (s : SectionObj) (db : DB) :
  NoDup (upv_key <$> userpagevisits db) →
  (∃ r, UserPageVisit_get_or_create s (AuthUser u) db = (Ok (r, false), db)
        ∧ r ∈ userpagevisits db ∧ upv_key r = (u, pk s))
  ∨ (∃ r, UserPageVisit_get_or_create s (AuthUser u) db
          = (Ok (r, true), set_userpagevisits (fun t => t ++ [r]) db)
        ∧ upv_pk r = fresh (upv_pk <$> userpagevisits db)
        ∧ upv_key r = (u, pk s)
        ∧ (u, pk s) ∉ upv_key <$> userpagevisits db).
Proof.
  intros Hnd. unfold UserPageVisit_get_or_create.
  destruct (filter_by_key upv_key
              (fun r => upv_section r = pk s ∧ upv_user r = u)
              (u, pk s) (userpagevisits db))
    as [[-> Hk]|(r & -> & Hr & Hk)]; [|done| |].
  - intros r. unfold upv_key. split; [by intros [-> ->]|by intros [= -> ->]].
  - right. eexists. split; [reflexivity|]. done.
  - left. by exists r.
Qed.

Lemma UserLocation_save_eq (r : UserLocation) (db : DB) :
  ul_pk r ∈ ul_pk <$> userlocations db →
  UserLocation_save r db
  = (Ok tt, set_userlocations
              (fmap (fun x => if bool_decide (ul_pk x = ul_pk r) then r else x)) db).
Proof.
  intros H. unfold UserLocation_save, write, set_userlocations.
  by rewrite bool_decide_eq_true_2.
Qed.

Lemma UserPageVisit_save_eq (r : UserPageVisit) (db : DB) :
  upv_pk r ∈ upv_pk <$> userpagevisits db →
  UserPageVisit_save r db
  = (Ok tt, set_userpagevisits
              (fmap (fun x => if bool_decide (upv_pk x = upv_pk r)
                              then {| upv_pk := upv_pk r; upv_user := upv_user r;
                                      upv_section := upv_section r; status := status r;
                                      first_visit := first_visit r;
                                      last_visit := now db |}
                              else x)) db).
Proof.
  intros H. unfold UserPageVisit_save, set_userpagevisits.
  by rewrite bool_decide_eq_true_2.
Qed.

Lemma UserLocation_save_stored (r r' : UserLocation) (db : DB) :
  user_state_ok db → r ∈ userlocations db →
  ul_pk r' = ul_pk r → ul_key r' = ul_key r →
  fst (UserLocation_save r' db) = Ok tt
  ∧ user_state_ok (snd (UserLocation_save r' db))
  ∧ never_deletes db (snd (UserLocation_save r' db))
  ∧ r' ∈ userlocations (snd (UserLocation_save r' db)).
Proof.
  intros Hok Hr Hpk Hkey.
  rewrite UserLocation_save_eq by (rewrite Hpk; by apply list_elem_of_fmap_2).
  split; [done|].
  match goal with
  | |- user_state_ok ?d ∧ _ =>
      destruct (user_state_ok_of_keys db d) as [H1 H2]; [done| |done|]
  end.
  - cbn. apply (save_keeps_keys ul_pk ul_key r r'); [apply Hok|done..].
  - split; [done|]. split; [done|].
    cbn. apply list_elem_of_fmap. exists r. split; [|done].
    by rewrite bool_decide_eq_true_2.
Qed.

Lemma UserPageVisit_save_stored (r r' : UserPageVisit) (db : DB) :
  user_state_ok db → r ∈ userpagevisits db →
  upv_pk r' = upv_pk r → upv_key r' = upv_key r →
  fst (UserPageVisit_save r' db) = Ok tt
  ∧ user_state_ok (snd (UserPageVisit_save r' db))
  ∧ never_deletes db (snd (UserPageVisit_save r' db))
  ∧ ∃ x, x ∈ userpagevisits (snd (UserPageVisit_save r' db))
         ∧ upv_key x = upv_key r' ∧ status x = status r'.
Proof.
  intros Hok Hr Hpk Hkey.
  rewrite UserPageVisit_save_eq by (rewrite Hpk; by apply list_elem_of_fmap_2).
  split; [done|].
  set (saved := {| upv_pk := upv_pk r'; upv_user := upv_user r';
                   upv_section := upv_section r'; status := status r';
                   first_visit := first_visit r'; last_visit := now db |}).
  match goal with
  | |- user_state_ok ?d ∧ _ =>
      destruct (user_state_ok_of_keys db d) as [H1 H2]; [done|done| |]
  end.
  - cbn. apply (save_keeps_keys upv_pk upv_key r saved); [apply Hok|done..].
  - split; [done|]. split; [done|]. exists saved. split; [|done].
    cbn. apply list_elem_of_fmap. exists r. split; [|done].
    by rewrite bool_decide_eq_true_2.
Qed.

(** Reading the URL of a section leaves the database as it is. *)
Lemma Section_hierarchy_reads (self : SectionObj) (db : DB) :
  snd (Section_hierarchy self db) = db.
Proof.
  unfold Section_hierarchy. unfold_M.
  by destruct (filter _ (hierarchies db)) as [|h [|h' rows]].
Qed.

Lemma get_absolute_url_rec_reads (fuel : nat) (self : SectionObj) (db : DB) :
  snd (get_absolute_url_rec fuel self db) = db.
Proof.
  revert self. induction fuel as [|fuel IH]; intros self; cbn.
  - destruct (is_root self); [|done]. unfold_M.
    pose proof (Section_hierarchy_reads self db) as H.
    by destruct (Section_hierarchy self db) as [[?|?] ?]; cbn in *.
  - destruct (is_root self).
    + unfold_M. pose proof (Section_hierarchy_reads self db) as H.
      by destruct (Section_hierarchy self db) as [[?|?] ?]; cbn in *.
    + unfold get_parent. destruct (depth self <=? 1)%nat; [done|].
      unfold section_by_path. unfold_M.
      destruct (forest_at _ _); [|done].
      specialize (IH (instance (removelast (path self)) n)).
      by destruct (get_absolute_url_rec fuel _ db) as [[?|?] ?]; cbn in *.
Qed.

Lemma Section_get_absolute_url_reads (self : SectionObj) (db : DB) :
  snd (Section_get_absolute_url self db) = db.
Proof. apply get_absolute_url_rec_reads. Qed.

Lemma Hierarchy_get_user_location_upsert (self : Hierarchy) (user : User) (db : DB) :
  user_state_ok db →
  user_state_ok (snd (Hierarchy_get_user_location self user db))
  ∧ never_deletes db (snd (Hierarchy_get_user_location self user db))
  ∧ ∀ u, user = AuthUser u →
      ∃ r, r ∈ userlocations (snd (Hierarchy_get_user_location self user db))
           ∧ ul_key r = (u, hierarchy_pk self)
           ∧ fst (Hierarchy_get_user_location self user db) = Ok (ul_path r).
Proof.
  intros Hok. destruct user as [|u].
  - cbn. split; [done|]. split; [apply never_deletes_refl|done].
  - unfold Hierarchy_get_user_location, is_anonymous. unfold_M.
    destruct (UserLocation_get_or_create_cases u self db) as
      [(r & -> & Hr & Hk)|(r & -> & Hpk & Hk & Hp & Hnew)]; [apply Hok|..]; cbn.
    + split; [done|]. split; [apply never_deletes_refl|].
      intros ? [= <-]. by exists r.
    + destruct (user_state_ok_new_location db r) as [H1 H2]; [done| |by rewrite Hk|].
      { rewrite Hpk. apply fresh_not_elem. }
      split; [done|]. split; [done|]. intros ? [= <-]. exists r.
      split; [|done]. cbn. apply elem_of_app. right. by left.
Qed.

Lemma Hierarchy_user_visit_upsert (self : Hierarchy) (user : User) (section : SectionObj)
    (db : DB) :
  user_state_ok db →
  user_state_ok (snd (Hierarchy_user_visit self user section db))
  ∧ never_deletes db (snd (Hierarchy_user_visit self user section db))
  ∧ ∀ u url, user = AuthUser u →
      Section_get_absolute_url section db = (Ok url, db) →
      fst (Hierarchy_user_visit self user section db) = Ok tt
      ∧ ∃ r, r ∈ userlocations (snd (Hierarchy_user_visit self user section db))
             ∧ ul_key r = (u, hierarchy_pk self) ∧ ul_path r = url.
Proof.
  intros Hok. unfold Hierarchy_user_visit. unfold_M.
  pose proof (Section_get_absolute_url_reads section db) as Hreads.
  destruct (Section_get_absolute_url section db) as [[url|e] db1]; cbn in Hreads; subst db1.
  2:{ split; [done|]. split; [apply never_deletes_refl|]. intros ?? _ [=]. }
  destruct user as [|u].
  { cbn. split; [done|]. split; [apply never_deletes_refl|]. intros ?? [=]. }
  destruct (UserLocation_get_or_create_cases u self db) as
    [(r & -> & Hr & Hk)|(r & -> & Hpk & Hk & Hp & Hnew)]; [apply Hok|..].
  - destruct (UserLocation_save_stored r (with_path r url) db)
      as (Hf & H1 & H2 & H3); [done..|].
    destruct (UserLocation_save (with_path r url) db) as [res db2]; cbn in *.
    split; [done|]. split; [done|]. intros ? ? [= <-] [= <-]. split; [done|].
    by exists (with_path r url).
  - destruct (user_state_ok_new_location db r) as [H1 H2]; [done| |by rewrite Hk|].
    { rewrite Hpk. apply fresh_not_elem. }
    destruct (UserLocation_save_stored r (with_path r url)
                (set_userlocations (fun t => t ++ [r]) db))
      as (Hf & H3 & H4 & H5); [done| |done..|].
    { cbn. apply elem_of_app. right. by left. }
    destruct (UserLocation_save (with_path r url) _) as [res db2]; cbn in *.
    split; [done|]. split; [by eapply never_deletes_trans|].
    intros ? ? [= <-] [= <-]. split; [done|].
    by exists (with_path r url).
Qed.

Lemma Section_user_pagevisit_upsert (self : SectionObj) (user : User) (st : string)
    (db : DB) :
  user_state_ok db →
  user_state_ok (snd (Section_user_pagevisit self user st db))
  ∧ never_deletes db (snd (Section_user_pagevisit self user st db))
  ∧ ∀ u, user = AuthUser u →
      fst (Section_user_pagevisit self user st db) = Ok tt
      ∧ ∃ r, r ∈ userpagevisits (snd (Section_user_pagevisit self user st db))
             ∧ upv_key r = (u, pk self) ∧ status r = st.
Proof.
  intros Hok. unfold Section_user_pagevisit. unfold_M.
  destruct user as [|u].
  { cbn. split; [done|]. split; [apply never_deletes_refl|]. intros ? [=]. }
  destruct (UserPageVisit_get_or_create_cases u self db) as
    [(r & -> & Hr & Hk)|(r & -> & Hpk & Hk & Hnew)]; [apply Hok|..].
  - destruct (UserPageVisit_save_stored r (with_status r st) db)
      as (Hf & H1 & H2 & x & Hx & Hxk & Hxs); [done..|].
    destruct (UserPageVisit_save (with_status r st) db) as [res db2]; cbn in *.
    split; [done|]. split; [done|]. intros ? [= <-]. split; [done|].
    exists x. split; [done|]. by rewrite Hxk.
  - destruct (user_state_ok_new_visit db r) as [H1 H2]; [done| |by rewrite Hk|].
    { rewrite Hpk. apply fresh_not_elem. }
    destruct (UserPageVisit_save_stored r (with_status r st)
                (set_userpagevisits (fun t => t ++ [r]) db))
      as (Hf & H3 & H4 & x & Hx & Hxk & Hxs); [done| |done..|].
    { cbn. apply elem_of_app. right. by left. }
    destruct (UserPageVisit_save (with_status r st) _) as [res db2]; cbn in *.
    split; [done|]. split; [by eapply never_deletes_trans|].
    intros ? [= <-]. split; [done|].
    exists x. split; [done|]. by rewrite Hxk.
Qed.

(** C7: from a state with unique keys and at most one UserLocation per
    (user, hierarchy) and one UserPageVisit per (user, section),
    [get_user_location], [user_visit] and [user_pagevisit] lead to such a
    state again, remove or re-key no row, and for an authenticated user
    leave a row for the key they were called with ([user_visit] when the
    URL of the section can be read). *)
Theorem per_user_state_upserts (db : DB) :
  user_state_ok db →
  (∀ (self : Hierarchy) (user : User),
      let out := Hierarchy_get_user_location self user db in
      user_state_ok (snd out) ∧ never_deletes db (snd out)
      ∧ ∀ u, user = AuthUser u →
          ∃ r, r ∈ userlocations (snd out) ∧ ul_key r = (u, hierarchy_pk self)
               ∧ fst out = Ok (ul_path r))
  ∧ (∀ (self : Hierarchy) (user : User) (section : SectionObj),
      let out := Hierarchy_user_visit self user section db in
      user_state_ok (snd out) ∧ never_deletes db (snd out)
      ∧ ∀ u url, user = AuthUser u →
          Section_get_absolute_url section db = (Ok url, db) →
          fst out = Ok tt
          ∧ ∃ r, r ∈ userlocations (snd out) ∧ ul_key r = (u, hierarchy_pk self)
                 ∧ ul_path r = url)
  ∧ (∀ (self : SectionObj) (user : User) (st : string),
      let out := Section_user_pagevisit self user st db in
      user_state_ok (snd out) ∧ never_deletes db (snd out)
      ∧ ∀ u, user = AuthUser u →
          fst out = Ok tt
          ∧ ∃ r, r ∈ userpagevisits (snd out) ∧ upv_key r = (u, pk self)
                 ∧ status r = st).
Proof.
  intros Hok. split; [|split].
  - intros. by apply Hierarchy_get_user_location_upsert.
  - intros. by apply Hierarchy_user_visit_upsert.
  - intros. by apply Section_user_pagevisit_upsert.
Qed.

Lemma demo_visited_db_ok : user_state_ok demo_visited_db.
Proof.
  unfold user_state_ok. cbn.
  repeat split; apply NoDup_singleton.
Qed.

Lemma per_user_state_upserts_witness :
  user_state_ok demo_visited_db
  ∧ user_state_ok
      (snd (Hierarchy_user_visit demo_hierarchy (AuthUser 7) demo_part_one demo_visited_db))
  ∧ never_deletes demo_visited_db
      (snd (Hierarchy_user_visit demo_hierarchy (AuthUser 7) demo_part_one demo_visited_db)).
Proof.
  split; [exact demo_visited_db_ok|].
  pose proof (per_user_state_upserts demo_visited_db demo_visited_db_ok) as (_ & H & _).
  specialize (H demo_hierarchy (AuthUser 7) demo_part_one) as (H1 & H2 & _).
  exact (conj H1 H2).
Defined.

(** *** Section.submit *)

Lemma startswith_append (pre f : string) : startswith (pre +:+ f) pre = true.
Proof.
  induction pre as [|a pre IH]; [done|]. simpl. by rewrite Ascii.eqb_refl.
Qed.

Lemma slice_from_append (pre f : string) :
  slice_from (String.length pre) (pre +:+ f) = f.
Proof. induction pre as [|a pre IH]; [done|]. done. Qed.

Lemma startswith_inv (k pre : string) :
  startswith k pre = true → k = pre +:+ slice_from (String.length pre) k.
Proof.
  revert k. induction pre as [|a pre IH]; intros k; [done|].
  destruct k as [|b k]; [done|]. simpl.
  destruct (Ascii.eqb a b) eqn:Hab; [|done].
  apply Ascii.eqb_eq in Hab as ->. intros H.
  change (String b k = String b (pre +:+ slice_from (String.length pre) k)).
  f_equal. by apply IH.
Qed.

Lemma append_inj (pre f g : string) : pre +:+ f = pre +:+ g → f = g.
Proof.
  intros H. rewrite <- (slice_from_append pre f), <- (slice_from_append pre g).
  by rewrite H.
Qed.

Lemma submit_step_posted (request_data : gmap string (list string)) (k : string) :
  (if (length (getlist request_data k) =? 1)%nat
   then Scalar (getitem request_data k) else Listed (getlist request_data k))
  = posted (getlist request_data k).
Proof.
  unfold getitem. by destruct (getlist request_data k) as [|x [|y v]].
Qed.

Lemma submit_data_fold (pre : string) (request_data : gmap string (list string))
    (ks : list string) (data : gmap string FormValue) (field : string) :
  foldl (fun data k =>
           if startswith k pre then
             let v := getlist request_data k in
             if (length v =? 1)%nat
             then <[slice_from (String.length pre) k := Scalar (getitem request_data k)]> data
             else <[slice_from (String.length pre) k := Listed v]> data
           else data) data ks !! field
  = if bool_decide (pre +:+ field ∈ ks)
    then Some (posted (getlist request_data (pre +:+ field)))
    else data !! field.
Proof.
  revert data. induction ks as [|k ks IH]; intros data; [done|].
  cbn [foldl]. rewrite IH. clear IH.
  destruct (bool_decide (pre +:+ field ∈ ks)) eqn:Hin.
  - apply bool_decide_eq_true in Hin.
    rewrite bool_decide_eq_true_2; [done|]. by right.
  - apply bool_decide_eq_false in Hin.
    destruct (startswith k pre) eqn:Hk.
    + apply startswith_inv in Hk.
      assert ((if (length (getlist request_data k) =? 1)%nat
               then <[slice_from (String.length pre) k := Scalar (getitem request_data k)]> data
               else <[slice_from (String.length pre) k := Listed (getlist request_data k)]> data)
              = <[slice_from (String.length pre) k := posted (getlist request_data k)]> data)
        as ->.
      { rewrite <- submit_step_posted. by destruct (_ =? _)%nat. }
      destruct (decide (slice_from (String.length pre) k = field)) as [Heq|Hne].
      * rewrite Heq in *. rewrite lookup_insert_eq.
        rewrite bool_decide_eq_true_2; [by rewrite <- Hk|]. rewrite <- Hk. by left.
      * rewrite lookup_insert_ne by done.
        rewrite bool_decide_eq_false_2; [done|].
        intros [Hc|Hc]%elem_of_cons; [|done].
        apply Hne. rewrite Hk in Hc. by apply append_inj in Hc.
    + rewrite bool_decide_eq_false_2; [done|].
      intros [Hc|Hc]%elem_of_cons; [|done].
      rewrite <- Hc, startswith_append in Hk. done.
Qed.

(** The dictionary a block gets holds, under each field name, what was
    posted under the prefixed name, and nothing else. *)
Lemma submit_data_lookup (pre : string) (request_data : gmap string (list string))
    (field : string) :
  submit_data pre request_data !! field = posted <$> request_data !! (pre +:+ field).
Proof.
  unfold submit_data. rewrite submit_data_fold, lookup_empty.
  unfold keys, getlist.
  destruct (request_data !! (pre +:+ field)) as [v|] eqn:Hv; cbn.
  - rewrite bool_decide_eq_true_2; [done|].
    apply list_elem_of_fmap. exists (pre +:+ field, v). split; [done|].
    by apply elem_of_map_to_list.
  - rewrite bool_decide_eq_false_2; [done|].
    intros ([k v] & Hk & Hin)%list_elem_of_fmap. cbn in Hk. subst k.
    apply elem_of_map_to_list in Hin. congruence.
Qed.

Lemma submit_loop_effect (request_data : gmap string (list string)) (user : User)
    (ps : list PageBlock) (proceed : bool) (db : DB) :
  submit_loop request_data user ps proceed db
  = (Ok (foldl (fun acc p => match redirect_of db p with
                             | Some r => negb r
                             | None => acc
                             end) proceed ps),
     set_submitted (fun l => l ++ omap (submission_of db request_data user) ps) db).
Proof.
  revert proceed db. induction ps as [|p ps IH]; intros proceed db.
  - cbn. unfold ret, set_submitted. rewrite app_nil_r. by destruct db.
  - cbn [submit_loop foldl]. unfold PageBlock_block. unfold_M.
    assert (∀ f : PageBlock → option Submission,
               omap f (p :: ps)
               = match f p with Some y => y :: omap f ps | None => omap f ps end)
      as -> by done.
    remember (redirect_of db p) as rp eqn:Hrp.
    remember (submission_of db request_data user p) as sp eqn:Hsp.
    unfold redirect_of in Hrp. unfold submission_of in Hsp.
    destruct (block_of db p) as [b|] eqn:Hb.
    2:{ subst. rewrite IH. done. }
    destruct (needs_submit b) as [[|]|] eqn:Hn.
    2,3: subst; rewrite IH; done.
    unfold Block_submit, write. subst.
    destruct (redirect_to_self_on_submit b) as [r|] eqn:Hr;
      rewrite IH; unfold set_submitted; cbn; rewrite <- app_assoc; done.
Qed.

Lemma foldl_redirect_last (g : PageBlock → option bool) (ps : list PageBlock) (a : bool) :
  foldl (fun acc p => match g p with Some r => negb r | None => acc end) a ps
  = match last (omap g ps) with Some r => negb r | None => a end.
Proof.
  revert a. induction ps as [|p ps IH]; intros a; [done|].
  cbn [foldl]. rewrite IH.
  assert (omap g (p :: ps)
          = match g p with Some y => y :: omap g ps | None => omap g ps end) as -> by done.
  destruct (g p) as [r|]; [|done].
  rewrite last_cons. by destruct (last (omap g ps)).
Qed.

(** What [submit] returns is decided by the last pageblock, in page
    order, that is submitted and has [redirect_to_self_on_submit]. *)
Lemma Section_submit_proceed (self : SectionObj) (request_data : gmap string (list string))
    (user : User) (db : DB) :
  fst (Section_submit self request_data user db)
  = Ok (match last (omap (redirect_of db) (pageblock_set db (pk self))) with
        | Some r => negb r
        | None => true
        end).
Proof.
  unfold Section_submit, pageblock_set_all. unfold_M.
  rewrite submit_loop_effect. cbn [fst]. by rewrite foldl_redirect_last.
Qed.

(** C1 fails on the code: the first pageblock of the sample page is
    submitted and answers true to [redirect_to_self_on_submit()], yet
    [submit] returns True, because the second block answers false and only
    the last answer is kept. *)
Theorem submit_keeps_last_redirect_only :
  (∃ p b, p ∈ pageblock_set demo_submit_db (pk demo_intro)
          ∧ block_of demo_submit_db p = Some b
          ∧ needs_submit b = Some true
          ∧ redirect_to_self_on_submit b = Some true)
  ∧ fst (Section_submit demo_intro demo_request (AuthUser 7) demo_submit_db) = Ok true.
Proof.
  split.
  - exists (demo_pageblock 1 1), (demo_quiz 1 true).
    split; [|by vm_compute]. left.
  - rewrite Section_submit_proceed. by vm_compute.
Qed.

(** C4: the calls of [submit] that [Section.submit] makes are, in page
    order, one for each pageblock whose content object has [needs_submit]
    and answers true; the dictionary of a call holds under each field name
    what the request holds under "pageblock-<id>-" followed by that name
    (one value as a scalar, otherwise the list) and nothing else; a block
    without [needs_submit], or answering false, gets no call.  Nothing
    else in the database changes. *)
Theorem submit_dispatch (self : SectionObj) (request_data : gmap string (list string))
    (user : User) (db : DB) :
  snd (Section_submit self request_data user db)
  = set_submitted
      (fun l => l ++ omap (submission_of db request_data user)
                          (pageblock_set db (pk self))) db
  ∧ (∀ p sub, submission_of db request_data user p = Some sub →
       ∃ b, block_of db p = Some b ∧ needs_submit b = Some true
            ∧ sub_model sub = block_model b ∧ sub_block sub = block_pk b
            ∧ sub_user sub = user
            ∧ ∀ field, sub_data sub !! field
                       = posted <$> request_data
                                    !! ("pageblock-" +:+ format_d (pb_pk p) +:+ "-" +:+ field))
  ∧ (∀ p, (∀ b, block_of db p = Some b → needs_submit b ≠ Some true) →
          submission_of db request_data user p = None).
Proof.
  split; [|split].
  - unfold Section_submit, pageblock_set_all. unfold_M.
    by rewrite submit_loop_effect.
  - intros p sub. unfold submission_of.
    destruct (block_of db p) as [b|]; [|done].
    destruct (needs_submit b) as [[|]|] eqn:Hn; [|done..].
    intros [= <-]. exists b. cbn. repeat split; try done.
    intros field. rewrite submit_data_lookup. unfold submit_prefix.
    by rewrite !append_assoc.
  - intros p Hp. unfold submission_of.
    destruct (block_of db p) as [b|]; [|done].
    specialize (Hp b eq_refl). by destruct (needs_submit b) as [[|]|].
Qed.

(** *** The root of a hierarchy and the URL of a section *)

Lemma Hierarchy_get_root_label (self : Hierarchy) (s : SectionObj) (db db' : DB) :
  roots_ok db → Hierarchy_get_root self db = (Ok s, db') →
  label s = "Root" ∧ slug s = "" ∧ is_root s = true ∧ roots_ok db'.
Proof.
  intros Hok. unfold Hierarchy_get_root, try_except. unfold_M.
  assert (add_root "Root" "" (hierarchy_pk self) db = (Ok s, db') →
          label s = "Root" ∧ slug s = "" ∧ is_root s = true ∧ roots_ok db') as Hadd.
  { unfold add_root. intros [= <- <-]. repeat split.
    unfold roots_ok. cbn. apply Forall_app. split; [done|]. by apply Forall_singleton. }
  destruct (filter _ (all_sections db)) as [|s0 [|s1 rows]]; cbn.
  - case_decide; [|done]. exact Hadd.
  - unfold get_root, section_by_path.
    destruct (path s0) as [|i q]; cbn; [case_decide; [|done]; exact Hadd|].
    rewrite take_0.
    destruct (sections db !! i) as [n|] eqn:Hn; [|case_decide; [|done]; exact Hadd].
    intros [= <- <-].
    pose proof Hok as Hall. unfold roots_ok in Hall. rewrite Forall_forall in Hall.
    destruct (Hall n) as [H1 H2]; [by eapply list_elem_of_lookup_2|].
    done.
  - case_decide; [done|]. intros [=].
Qed.

Lemma Hierarchy_get_root_returns (self : Hierarchy) (db : DB) :
  (length (filter (fun s => hierarchy s = hierarchy_pk self ∧ label s = "Root")
                  (all_sections db)) ≤ 1)%nat →
  ∃ s db', Hierarchy_get_root self db = (Ok s, db').
Proof.
  intros Hlen. unfold Hierarchy_get_root, try_except. unfold_M.
  destruct (filter _ (all_sections db)) as [|s0 [|s1 rows]]; cbn in *.
  - case_decide; [|done]. unfold add_root. by eexists _, _.
  - unfold get_root, section_by_path.
    destruct (forest_at _ _); [by eexists _, _|].
    case_decide; [|done]. unfold add_root. by eexists _, _.
  - lia.
Qed.

Lemma node_at_snoc (p : list nat) (j : nat) (n : Node) :
  node_at (p ++ [j]) n
  = match node_at p n with Some m => node_children m !! j | None => None end.
Proof.
  revert n. induction p as [|i p IH]; intros n; cbn.
  - by destruct (node_children n !! j).
  - destruct (node_children n !! i); [apply IH|done].
Qed.

Lemma forest_at_snoc (f : list Node) (i : nat) (q : list nat) (j : nat) :
  forest_at f ((i :: q) ++ [j])
  = match forest_at f (i :: q) with Some m => node_children m !! j | None => None end.
Proof.
  cbn. destruct (f !! i); [apply node_at_snoc|done].
Qed.

Lemma slugs_path_snoc (l : list SectionObj) (s : SectionObj) :
  slugs_path (l ++ [s]) = slugs_path l +:+ slug s +:+ "/".
Proof.
  unfold slugs_path. induction l as [|a l IH]; cbn.
  - by rewrite append_empty_r.
  - rewrite IH. by rewrite !append_assoc.
Qed.

Lemma ancestors_snoc (f : list Node) (p : list nat) (j : nat) (m : Node) :
  forest_at f p = Some m →
  omap (fun k => instance (take k (p ++ [j])) <$> forest_at f (take k (p ++ [j])))
       (seq 1 (length (p ++ [j]) - 1))
  = omap (fun k => instance (take k p) <$> forest_at f (take k p))
         (seq 1 (length p - 1)) ++ [instance p m].
Proof.
  intros Hm. destruct p as [|i q]; [done|].
  rewrite length_app. cbn [length].
  replace (S (length q) + 1 - 1) with (S (length q)) by lia.
  replace (S (length q) - 1) with (length q) by lia.
  rewrite seq_S, omap_app. f_equal.
  - apply list_omap_ext. apply Forall2_same_length_lookup_2; [done|].
    intros k x y Hx Hy. rewrite Hx in Hy. injection Hy as <-.
    apply lookup_seq in Hx as [-> Hlt].
    rewrite take_app_le by (cbn; lia). done.
  - cbn [omap list_omap].
    replace (1 + length q) with (length (i :: q)) by (cbn; lia).
    rewrite take_app_length, Hm. done.
Qed.

Lemma get_absolute_url_path (db : DB) (i : nat) (root : Node) (h : Hierarchy)
    (q : list nat) (n : Node) :
  sections db !! i = Some root →
  filter (fun x => hierarchy_pk x = node_hierarchy root) (hierarchies db) = [h] →
  forest_at (sections db) (i :: q) = Some n →
  get_absolute_url_rec (length (i :: q)) (instance (i :: q) n) db
  = (Ok (base_url h +:+
         slugs_path
           (filter (fun a => is_root a = false)
              (omap (fun k => instance (take k (i :: q))
                                <$> forest_at (sections db) (take k (i :: q)))
                    (seq 1 (length (i :: q) - 1))
               ++ [instance (i :: q) n]))), db).
Proof.
  intros Hroot Hh. revert n. induction q as [|j q IH] using rev_ind; intros n Hn.
  - cbn in Hn. rewrite Hroot in Hn. injection Hn as <-.
    cbn. unfold Section_hierarchy. unfold_M. cbn. rewrite Hh. cbn.
    by rewrite append_empty_r.
  - change (i :: q ++ [j]) with ((i :: q) ++ [j]) in *.
    rewrite forest_at_snoc in Hn.
    destruct (forest_at (sections db) (i :: q)) as [m|] eqn:Hm; [|done].
    rewrite (ancestors_snoc _ _ _ m Hm).
    assert (is_root (instance ((i :: q) ++ [j]) n) = false) as Hnr.
    { unfold is_root, depth. cbn. rewrite length_app. cbn.
      apply Nat.eqb_neq. lia. }
    rewrite filter_app.
    rewrite (filter_cons_True _ (instance ((i :: q) ++ [j]) n)) by done.
    rewrite filter_nil, slugs_path_snoc, <- append_assoc.
    specialize (IH m eq_refl).
    replace (length ((i :: q) ++ [j])) with (S (length (i :: q)))
      by (rewrite length_app; cbn; lia).
    set (fuel := length (i :: q)) in *.
    cbn [get_absolute_url_rec]. rewrite Hnr.
    unfold get_parent, depth. cbn [path instance].
    replace (length ((i :: q) ++ [j]) <=? 1)%nat with false
      by (symmetry; apply Nat.leb_gt; rewrite length_app; cbn; lia).
    rewrite removelast_last. unfold section_by_path. unfold_M. rewrite Hm, IH.
    reflexivity.
Qed.

Lemma demo_db_roots_ok : roots_ok demo_db.
Proof. unfold roots_ok. cbn. by apply Forall_singleton. Qed.

(** *** Finding a section in a listing *)

Lemma list_find_middle (self : SectionObj) (l1 l2 : list SectionObj) :
  NoDup (pk <$> (l1 ++ self :: l2)) →
  list_find (fun x => pk x = pk self) (l1 ++ self :: l2) = Some (length l1, self).
Proof.
  intros Hnd. apply list_find_Some. split; [|split; [done|]].
  - by rewrite list_lookup_middle.
  - intros j y Hy Hj Hpk. rewrite lookup_app_l in Hy by done.
    rewrite fmap_app, fmap_cons in Hnd.
    apply NoDup_app in Hnd as (_ & Hnd & _).
    apply (Hnd (pk y)).
    + apply list_elem_of_fmap_2. by eapply list_elem_of_lookup_2.
    + rewrite Hpk. left.
Qed.

Lemma traversal_find (self : SectionObj) (d : nat) (l1 l2 : list SectionObj) :
  NoDup (pk <$> (l1 ++ self :: l2)) →
  list_find (fun e : SectionObj * nat => pk (fst e) = pk self)
            ((fun x => (x, (depth x - d)%nat)) <$> (l1 ++ self :: l2))
  = Some (length l1, (self, (depth self - d)%nat)).
Proof.
  intros Hnd. rewrite list_find_fmap.
  change (list_find _ (l1 ++ self :: l2))
    with (list_find (fun x => pk x = pk self) (l1 ++ self :: l2)).
  by rewrite list_find_middle.
Qed.

(** *** Ordinalities of pageblocks *)

Lemma insert_by_ordinality_perm (b : PageBlock) (l : list PageBlock) :
  insert_by_ordinality b l ≡ₚ b :: l.
Proof.
  induction l as [|c l IH]; [done|]. cbn.
  destruct (ordinality b <=? ordinality c)%nat; [done|].
  rewrite IH. apply Permutation_swap.
Qed.

Lemma order_by_ordinality_perm (l : list PageBlock) : order_by_ordinality l ≡ₚ l.
Proof.
  induction l as [|b l IH]; [done|]. cbn.
  rewrite insert_by_ordinality_perm. by rewrite IH.
Qed.

Lemma insert_by_ordinality_sorted (b : PageBlock) (l : list PageBlock) :
  Sorted le (ordinality <$> l) → Sorted le (ordinality <$> insert_by_ordinality b l).
Proof.
  induction l as [|c l IH]; intros Hs; cbn.
  - by repeat constructor.
  - destruct (ordinality b <=? ordinality c)%nat eqn:Hle.
    + apply Nat.leb_le in Hle. cbn. constructor; [done|]. by constructor.
    + apply Nat.leb_gt in Hle. cbn in Hs. apply Sorted_inv in Hs as [Hs Hhd].
      cbn. constructor; [by apply IH|].
      destruct l as [|d l]; cbn.
      * constructor. lia.
      * destruct (ordinality b <=? ordinality d)%nat; cbn; constructor; [lia|].
        by apply HdRel_inv in Hhd.
Qed.

Lemma order_by_ordinality_sorted (l : list PageBlock) :
  Sorted le (ordinality <$> order_by_ordinality l).
Proof.
  induction l as [|b l IH]; [constructor|]. cbn.
  by apply insert_by_ordinality_sorted.
Qed.

Lemma seq_sorted (a n : nat) : Sorted le (seq a n).
Proof.
  revert a. induction n as [|n IH]; intros a; cbn; [constructor|].
  constructor; [apply IH|]. destruct n; cbn; constructor. lia.
Qed.

Lemma pageblock_set_length (db : DB) (section_pk : Z) :
  length (pageblock_set db section_pk)
  = length (filter (fun p => pb_section p = section_pk) (pageblocks db)).
Proof. unfold pageblock_set. by rewrite order_by_ordinality_perm. Qed.

(** Contiguity says that the ordinalities of the section's rows are
    1..N in some order. *)
Lemma contiguous_perm (db : DB) (section_pk : Z) :
  contiguous db section_pk
  ↔ ordinality <$> filter (fun p => pb_section p = section_pk) (pageblocks db)
    ≡ₚ seq 1 (length (filter (fun p => pb_section p = section_pk) (pageblocks db))).
Proof.
  unfold contiguous. rewrite pageblock_set_length. unfold pageblock_set.
  set (rows := filter _ (pageblocks db)). split.
  - intros <-. by rewrite order_by_ordinality_perm.
  - intros Hp. apply (Sorted_unique le).
    + apply order_by_ordinality_sorted.
    + apply seq_sorted.
    + by rewrite order_by_ordinality_perm.
Qed.

Lemma position_lookup (ids : list Z) (k : nat) (id : Z) :
  NoDup ids → ids !! k = Some id → position ids id = Some k.
Proof.
  intros Hnd Hk. unfold position.
  assert (list_find (fun i => i = id) ids = Some (k, id)) as ->; [|done].
  apply list_find_Some. split; [done|]. split; [done|].
  intros j y Hj Hlt ->. assert (j = k) by (by eapply NoDup_lookup). lia.
Qed.

Lemma position_None (ids : list Z) (id : Z) : id ∉ ids → position ids id = None.
Proof.
  intros Hid. unfold position.
  destruct (list_find _ ids) as [[k y]|] eqn:Hf; [|done].
  apply list_find_Some in Hf as (Hk & -> & _).
  exfalso. apply Hid. by eapply list_elem_of_lookup_2.
Qed.

Lemma position_cons (id0 : Z) (ids : list Z) (id : Z) :
  position (id0 :: ids) id
  = if decide (id0 = id) then Some 0%nat else S <$> position ids id.
Proof.
  unfold position. cbn. destruct (decide (id0 = id)); [done|].
  destruct (list_find _ ids) as [[k y]|]; done.
Qed.

Lemma positions_seq (start : nat) (ids : list Z) :
  NoDup ids →
  (fun id => match position ids id with Some k => (start + k)%nat | None => 0%nat end)
    <$> ids = seq start (length ids).
Proof.
  intros Hnd. apply list_eq. intros k. rewrite list_lookup_fmap.
  destruct (ids !! k) as [id|] eqn:Hk; cbn.
  - rewrite (position_lookup ids k id Hnd Hk). symmetry.
    apply lookup_seq. split; [done|]. by eapply lookup_lt_Some.
  - symmetry. apply lookup_seq_ge. by apply lookup_ge_None.
Qed.

Lemma reorder_keeps (start : nat) (ids : list Z) (x : PageBlock) :
  pb_pk (reorder start ids x) = pb_pk x
  ∧ pb_section (reorder start ids x) = pb_section x.
Proof. unfold reorder. by destruct (position ids (pb_pk x)). Qed.

Lemma filter_fmap_keeps {A : Type} (P : A → Prop) `{!∀ x, Decision (P x)}
    (g : A → A) (l : list A) :
  (∀ x, x ∈ l → P (g x) ↔ P x) → filter P (g <$> l) = g <$> filter P l.
Proof.
  induction l as [|x l IH]; intros Hg; [done|].
  rewrite fmap_cons, !filter_cons.
  assert (P (g x) ↔ P x) as Hx by (apply Hg; left).
  rewrite IH by (intros y Hy; apply Hg; by right).
  destruct (decide (P (g x))), (decide (P x)); try done; tauto.
Qed.

Lemma NoDup_fmap_filter {A K : Type} (key : A → K) (P : A → Prop)
    `{!∀ x, Decision (P x)} (l : list A) :
  NoDup (key <$> l) → NoDup (key <$> filter P l).
Proof.
  induction l as [|x l IH]; [done|].
  rewrite fmap_cons. intros [Hx Hnd]%NoDup_cons. rewrite filter_cons.
  destruct (decide (P x)); [|by apply IH].
  rewrite fmap_cons. apply NoDup_cons. split; [|by apply IH].
  intros (y & Hy & Hin)%list_elem_of_fmap. apply Hx.
  apply list_elem_of_fmap. exists y. split; [done|].
  by apply list_elem_of_filter in Hin as [_ ?].
Qed.

(** Giving the rows of one section the ordinalities [start], ... in the
    order of a list of exactly their keys makes that section contiguous
    and touches no other section. *)
Lemma reorder_ordinalities (start : nat) (ids : list Z) (t : list PageBlock) (s : Z) :
  NoDup (pb_pk <$> t) →
  ids ≡ₚ pb_pk <$> filter (fun p => pb_section p = s) t →
  pb_pk <$> (reorder start ids <$> t) = pb_pk <$> t
  ∧ ordinality <$> filter (fun p => pb_section p = s) (reorder start ids <$> t)
    ≡ₚ seq start (length (filter (fun p => pb_section p = s) t))
  ∧ length (filter (fun p => pb_section p = s) (reorder start ids <$> t))
    = length (filter (fun p => pb_section p = s) t)
  ∧ ∀ s', s' ≠ s →
      filter (fun p => pb_section p = s') (reorder start ids <$> t)
      = filter (fun p => pb_section p = s') t.
Proof.
  intros Hnd Hids.
  assert (∀ s', filter (fun p => pb_section p = s') (reorder start ids <$> t)
                = reorder start ids <$> filter (fun p => pb_section p = s') t) as Hf.
  { intros s'. apply filter_fmap_keeps. intros x _.
    by destruct (reorder_keeps start ids x) as [_ ->]. }
  assert (NoDup ids) as Hndi.
  { rewrite Hids. by apply NoDup_fmap_filter. }
  split; [|split; [|split]].
  - rewrite <- list_fmap_compose. apply list_fmap_ext. intros i x _. cbn.
    by destruct (reorder_keeps start ids x) as [-> _].
  - rewrite Hf, <- list_fmap_compose.
    pose proof (Permutation_length Hids) as Hlen. rewrite length_fmap in Hlen.
    rewrite <- Hlen, <- (positions_seq start ids Hndi).
    etrans; [|apply (fmap_Permutation _); symmetry; exact Hids].
    rewrite <- list_fmap_compose.
    assert (∀ l : list PageBlock,
               (∀ x, x ∈ l → pb_pk x ∈ ids) →
               (ordinality ∘ reorder start ids) <$> l
               = ((fun id => match position ids id with
                             | Some k => (start + k)%nat
                             | None => 0%nat
                             end) ∘ pb_pk) <$> l) as Hext.
    { intros l Hl. apply list_fmap_ext. intros i x Hx. cbn. unfold reorder.
      destruct (position ids (pb_pk x)) as [k|] eqn:Hk; [done|].
      exfalso. assert (pb_pk x ∈ ids) as Hin
        by (apply Hl; by eapply list_elem_of_lookup_2).
      apply list_elem_of_lookup in Hin as [k Hin].
      by rewrite (position_lookup ids k _ Hndi Hin) in Hk. }
    rewrite Hext; [done|].
    intros x Hx. rewrite Hids. by apply list_elem_of_fmap_2.
  - by rewrite Hf, length_fmap.
  - intros s' Hs'. rewrite Hf.
    rewrite <- (list_fmap_id (filter _ t)) at 2.
    apply list_fmap_ext. intros i x Hx. cbn.
    apply list_elem_of_lookup_2, list_elem_of_filter in Hx as [Hsec Hx].
    unfold reorder. rewrite position_None; [done|].
    rewrite Hids. intros (y & Hpk & Hy)%list_elem_of_fmap.
    apply list_elem_of_filter in Hy as [Hsy Hy].
    assert (x = y) by (by apply (NoDup_fmap_eq pb_pk t)).
    congruence.
Qed.

Lemma set_pageblocks_eq (f g : list PageBlock → list PageBlock) (db : DB) :
  f (pageblocks db) = g (pageblocks db) → set_pageblocks f db = set_pageblocks g db.
Proof. unfold set_pageblocks. by intros ->. Qed.

Lemma set_pageblocks_compose (f g : list PageBlock → list PageBlock) (db : DB) :
  set_pageblocks f (set_pageblocks g db) = set_pageblocks (f ∘ g) db.
Proof. done. Qed.

Lemma PageBlock_save_eq (p : PageBlock) (db : DB) :
  pb_pk p ∈ pb_pk <$> pageblocks db →
  PageBlock_save p db
  = (Ok tt, set_pageblocks
              (fmap (fun x => if bool_decide (pb_pk x = pb_pk p) then p else x)) db).
Proof.
  intros H. unfold PageBlock_save, write, set_pageblocks.
  by rewrite bool_decide_eq_true_2.
Qed.

Lemma reorder_nil (start : nat) (t : list PageBlock) : reorder start [] <$> t = t.
Proof.
  rewrite <- (list_fmap_id t) at 2. by apply list_fmap_ext.
Qed.

(** One pass of either loop: the row with key [id] gets [start], the
    rest of the keys the ordinalities after it. *)
Lemma reorder_step (start : nat) (id : Z) (ids : list Z) (t : list PageBlock)
    (b : PageBlock) :
  NoDup (pb_pk <$> t) → b ∈ t → pb_pk b = id → id ∉ ids →
  reorder (S start) ids
    <$> ((fun x => if bool_decide (pb_pk x = id) then with_ordinality b start else x) <$> t)
  = reorder start (id :: ids) <$> t.
Proof.
  intros Hnd Hb Hid Hnew. rewrite <- list_fmap_compose.
  apply list_fmap_ext. intros i x Hx. cbn.
  apply list_elem_of_lookup_2 in Hx.
  unfold reorder. case_bool_decide as Hpk.
  - assert (x = b) as -> by (apply (NoDup_fmap_eq pb_pk t); congruence).
    change (pb_pk (with_ordinality b start)) with (pb_pk b).
    rewrite Hid, position_None by done.
    rewrite position_cons, decide_True by done.
    by rewrite Nat.add_0_r.
  - rewrite position_cons, decide_False by done.
    destruct (position ids (pb_pk x)) as [k|]; cbn; [|done].
    unfold with_ordinality. f_equal. lia.
Qed.

Lemma step_keeps_keys (id : Z) (b : PageBlock) (t : list PageBlock) :
  pb_pk b = id →
  pb_pk <$> ((fun x => if bool_decide (pb_pk x = id) then b else x) <$> t) = pb_pk <$> t.
Proof.
  intros Hid. rewrite <- list_fmap_compose. apply list_fmap_ext.
  intros i x _. cbn. case_bool_decide; congruence.
Qed.

Lemma renumber_loop_eq (i : nat) (bs : list PageBlock) (db : DB) :
  NoDup (pb_pk <$> pageblocks db) → NoDup (pb_pk <$> bs) →
  (∀ b, b ∈ bs → b ∈ pageblocks db) →
  renumber_loop i bs db
  = (Ok tt, set_pageblocks (fmap (reorder i (pb_pk <$> bs))) db).
Proof.
  revert i db. induction bs as [|b bs IH]; intros i db Hnd Hbs Hin.
  - cbn. unfold ret. f_equal.
    rewrite (set_pageblocks_eq _ id) by apply reorder_nil. by destruct db.
  - cbn [renumber_loop]. unfold_M.
    rewrite fmap_cons in Hbs. apply NoDup_cons in Hbs as [Hb Hbs].
    assert (b ∈ pageblocks db) as Hbt by (apply Hin; left).
    rewrite PageBlock_save_eq
      by (change (pb_pk b ∈ pb_pk <$> pageblocks db); by apply list_elem_of_fmap_2).
    change (pb_pk (with_ordinality b i)) with (pb_pk b).
    replace (i + 1)%nat with (S i) by lia.
    rewrite IH; cbn.
    + f_equal. rewrite set_pageblocks_compose. apply set_pageblocks_eq.
      unfold compose. by apply reorder_step.
    + by rewrite step_keeps_keys.
    + done.
    + intros b' Hb'. apply list_elem_of_fmap. exists b'. split; [|apply Hin; by right].
      rewrite bool_decide_eq_false_2; [done|].
      intros Heq. apply Hb. rewrite <- Heq. by apply list_elem_of_fmap_2.
Qed.

Lemma update_order_loop_eq (i : nat) (ids : list Z) (db : DB) :
  NoDup (pb_pk <$> pageblocks db) → NoDup ids →
  (∀ id, id ∈ ids → id ∈ pb_pk <$> pageblocks db) →
  update_order_loop i ids db
  = (Ok tt, set_pageblocks (fmap (reorder (i + 1) ids)) db).
Proof.
  revert i db. induction ids as [|id ids IH]; intros i db Hnd Hids Hin.
  - cbn. unfold ret. f_equal.
    rewrite (set_pageblocks_eq _ id) by apply reorder_nil. by destruct db.
  - cbn [update_order_loop]. unfold PageBlock_objects_get. unfold_M.
    apply NoDup_cons in Hids as [Hid Hids].
    destruct (filter_by_key pb_pk (fun p => pb_pk p = id) id (pageblocks db))
      as [[_ Hno]|(sc & -> & Hsc & Hpk)]; [done|done| |].
    { exfalso. apply Hno, Hin. left. }
    cbn [objects_get]. unfold ret.
    rewrite PageBlock_save_eq
      by (change (pb_pk sc ∈ pb_pk <$> pageblocks db); by apply list_elem_of_fmap_2).
    change (pb_pk (with_ordinality sc (i + 1))) with (pb_pk sc). rewrite Hpk.
    rewrite IH; cbn.
    + f_equal. rewrite set_pageblocks_compose. apply set_pageblocks_eq.
      unfold compose. by apply reorder_step.
    + by rewrite step_keeps_keys.
    + done.
    + intros id' Hid'. rewrite step_keeps_keys by done. apply Hin. by right.
Qed.

Lemma filter_filter_elem {A : Type} (P Q : A → Prop) `{!∀ x, Decision (P x)}
    `{!∀ x, Decision (Q x)} (l : list A) :
  (∀ x, x ∈ l → P x → Q x) → filter P (filter Q l) = filter P l.
Proof.
  induction l as [|x l IH]; intros Himp; [done|].
  rewrite (filter_cons Q), (filter_cons P).
  assert (filter P (filter Q l) = filter P l) as IH'
    by (apply IH; intros y Hy; apply Himp; by right).
  destruct (decide (Q x)) as [Hq|Hq].
  - by rewrite filter_cons, IH'.
  - rewrite IH'. destruct (decide (P x)) as [Hp|]; [|done].
    exfalso. apply Hq, Himp; [left|done].
Qed.

Lemma filter_other_keys (self : PageBlock) (l : list PageBlock) :
  pb_pk self ∉ pb_pk <$> l → filter (fun p => pb_pk p ≠ pb_pk self) l = l.
Proof.
  induction l as [|x l IH]; [done|]. rewrite fmap_cons.
  intros [Hx Hl]%not_elem_of_cons.
  rewrite filter_cons_True by done. by rewrite IH.
Qed.

Lemma length_filter_deleted (P : PageBlock → Prop) `{!∀ x, Decision (P x)}
    (self : PageBlock) (t : list PageBlock) :
  NoDup (pb_pk <$> t) → self ∈ t → P self →
  (length (filter P (filter (fun p => pb_pk p ≠ pb_pk self) t)) + 1
   = length (filter P t))%nat.
Proof.
  intros Hnd Hin HP. induction t as [|x t IH]; [by apply elem_of_nil in Hin|].
  rewrite fmap_cons in Hnd. apply NoDup_cons in Hnd as [Hx Hnd].
  apply elem_of_cons in Hin as [<-|Hin].
  - rewrite filter_cons_False by (intros Hc; by apply Hc).
    rewrite filter_other_keys by done.
    rewrite (filter_cons_True P) by done. cbn. lia.
  - assert (pb_pk x ≠ pb_pk self) as Hne.
    { intros Heq. apply Hx. rewrite Heq. by apply list_elem_of_fmap_2. }
    rewrite filter_cons_True by done. rewrite !(filter_cons P).
    specialize (IH Hnd Hin). destruct (decide (P x)); cbn; lia.
Qed.

(** A table whose section [s] was reordered by exactly the keys of its
    rows satisfies the invariant, if the other sections did before. *)
Lemma reordered_ok (ids : list Z) (s : Z) (db : DB) :
  NoDup (pb_pk <$> pageblocks db) →
  (∀ s', s' ≠ s → contiguous db s') →
  ids ≡ₚ pb_pk <$> filter (fun p => pb_section p = s) (pageblocks db) →
  ordinalities_ok (set_pageblocks (fmap (reorder 1 ids)) db)
  ∧ length (pageblock_set (set_pageblocks (fmap (reorder 1 ids)) db) s)
    = length (pageblock_set db s)
  ∧ pb_pk <$> pageblocks (set_pageblocks (fmap (reorder 1 ids)) db)
    = pb_pk <$> pageblocks db.
Proof.
  intros Hnd Hothers Hids.
  destruct (reorder_ordinalities 1 ids (pageblocks db) s Hnd Hids)
    as (Hpks & Hs & Hlen & Hrest).
  split; [split|split].
  - cbn. by rewrite Hpks.
  - intros s0. apply contiguous_perm. cbn.
    destruct (decide (s0 = s)) as [->|Hne].
    + by rewrite Hlen.
    + rewrite (Hrest s0 Hne). by apply contiguous_perm, Hothers.
  - rewrite !pageblock_set_length. cbn. by rewrite Hlen.
  - done.
Qed.

Lemma pageblock_set_keys (db : DB) (s : Z) :
  pb_pk <$> pageblock_set db s
  ≡ₚ pb_pk <$> filter (fun p => pb_section p = s) (pageblocks db).
Proof. unfold pageblock_set. by rewrite order_by_ordinality_perm. Qed.

Lemma Section_renumber_pageblocks_ok (self : SectionObj) (db : DB) :
  NoDup (pb_pk <$> pageblocks db) →
  (∀ s', s' ≠ pk self → contiguous db s') →
  fst (Section_renumber_pageblocks self db) = Ok tt
  ∧ ordinalities_ok (snd (Section_renumber_pageblocks self db))
  ∧ length (pageblock_set (snd (Section_renumber_pageblocks self db)) (pk self))
    = length (pageblock_set db (pk self))
  ∧ pb_pk <$> pageblocks (snd (Section_renumber_pageblocks self db))
    = pb_pk <$> pageblocks db.
Proof.
  intros Hnd Hothers.
  unfold Section_renumber_pageblocks, pageblock_set_all. unfold_M.
  rewrite renumber_loop_eq.
  - cbn [fst snd]. split; [done|].
    apply reordered_ok; [done|done|apply pageblock_set_keys].
  - done.
  - rewrite pageblock_set_keys. by apply NoDup_fmap_filter.
  - intros b Hb. unfold pageblock_set in Hb.
    rewrite order_by_ordinality_perm in Hb.
    by apply list_elem_of_filter in Hb as [_ ?].
Qed.

Lemma Section_append_pageblock_ok (self : SectionObj) (l : option string)
    (content_object : Block) (db : DB) :
  ordinalities_ok db →
  ∃ p, Section_append_pageblock self l content_object db
       = (Ok p, set_pageblocks (fun t => t ++ [p]) db)
       ∧ pb_section p = pk self
       ∧ ordinality p = (length (pageblock_set db (pk self)) + 1)%nat
       ∧ ordinalities_ok (set_pageblocks (fun t => t ++ [p]) db).
Proof.
  intros [Hnd Hc].
  unfold Section_append_pageblock, pageblock_set_count, PageBlock_objects_create.
  unfold_M. eexists. split; [reflexivity|]. cbn [pb_section ordinality].
  split; [done|]. split; [by rewrite pageblock_set_length|].
  split.
  - cbn. rewrite fmap_app. apply NoDup_app. split; [done|].
    split; [|apply NoDup_singleton].
    intros x Hx ->%list_elem_of_singleton. by apply fresh_not_elem in Hx.
  - intros s0. apply contiguous_perm. cbn. rewrite filter_app, fmap_app, length_app.
    specialize (Hc s0). apply contiguous_perm in Hc.
    destruct (decide (s0 = pk self)) as [->|Hne].
    + rewrite filter_cons_True by done. rewrite filter_nil. cbn [length fmap list_fmap].
      rewrite Nat.add_1_r, seq_S. cbn [ordinality].
      by apply Permutation_app.
    + rewrite filter_cons_False by (cbn; congruence). rewrite filter_nil.
      cbn [length fmap list_fmap]. by rewrite Nat.add_0_r, app_nil_r.
Qed.

Lemma PageBlock_delete_ok (self : PageBlock) (section : SectionObj) (db : DB) :
  ordinalities_ok db → self ∈ pageblocks db →
  filter (fun s => pk s = pb_section self) (all_sections db) = [section] →
  fst (PageBlock_delete self db) = Ok tt
  ∧ ordinalities_ok (snd (PageBlock_delete self db))
  ∧ (pb_pk self ∉ pb_pk <$> pageblocks (snd (PageBlock_delete self db)))
  ∧ (length (pageblock_set (snd (PageBlock_delete self db)) (pb_section self)) + 1
     = length (pageblock_set db (pb_section self)))%nat.
Proof.
  intros [Hnd Hc] Hself Hsec.
  assert (pk section = pb_section self) as Hpk.
  { assert (section ∈ filter (fun s => pk s = pb_section self) (all_sections db)) as Hin
      by (rewrite Hsec; left).
    by apply list_elem_of_filter in Hin as [? _]. }
  unfold PageBlock_delete. unfold_M. rewrite Hsec. cbn [objects_get]. unfold ret.
  set (db0 := set_pageblocks (filter (fun p => pb_pk p ≠ pb_pk self)) db).
  destruct (Section_renumber_pageblocks_ok section db0) as (Hf & Hok & Hlen & Hpks).
  { cbn. by apply NoDup_fmap_filter. }
  { intros s' Hs'. apply contiguous_perm. cbn.
    rewrite filter_filter_elem; [by apply contiguous_perm, Hc|].
    intros x Hx Hsx Heq. apply Hs'.
    assert (x = self) as -> by (by apply (NoDup_fmap_eq pb_pk (pageblocks db))).
    congruence. }
  destruct (Section_renumber_pageblocks section db0) as [r db1]. cbn [fst snd] in *.
  subst r. split; [done|]. split; [done|]. split.
  - rewrite Hpks. intros (y & Hy & Hin)%list_elem_of_fmap.
    by apply list_elem_of_filter in Hin as [Hne _].
  - rewrite <- Hpk, Hlen, !pageblock_set_length. rewrite Hpk.
    by apply length_filter_deleted.
Qed.

Lemma Section_update_pageblocks_order_ok (self : SectionObj) (pageblock_ids : list Z)
    (db : DB) :
  ordinalities_ok db →
  pageblock_ids ≡ₚ pb_pk <$> pageblock_set db (pk self) →
  fst (Section_update_pageblocks_order self pageblock_ids db) = Ok tt
  ∧ ordinalities_ok (snd (Section_update_pageblocks_order self pageblock_ids db)).
Proof.
  intros [Hnd Hc] Hids. rewrite pageblock_set_keys in Hids.
  unfold Section_update_pageblocks_order.
  rewrite update_order_loop_eq.
  - cbn [fst snd]. split; [done|].
    by destruct (reordered_ok pageblock_ids (pk self) db) as (H1 & _ & _).
  - done.
  - rewrite Hids. by apply NoDup_fmap_filter.
  - intros id Hid. rewrite Hids in Hid.
    apply list_elem_of_fmap in Hid as (y & -> & Hy).
    apply list_elem_of_fmap_2. by apply list_elem_of_filter in Hy as [_ ?].
Qed.

(** C3 (as amended): in a state where pageblock keys are distinct and
    every section's ordinalities are 1..N, [append_pageblock] gives the
    new block the ordinality N + 1 of its section and keeps the invariant;
    [PageBlock.delete] of a stored block removes it, renumbers its section
    to 1..N-1 and keeps the invariant; [update_pageblocks_order] keeps the
    invariant when it is given each key of the section's pageblocks
    exactly once. *)
Theorem ordinalities_stay_contiguous (db : DB) :
  ordinalities_ok db →
  (∀ (self : SectionObj) (l : option string) (content_object : Block),
      ∃ p, Section_append_pageblock self l content_object db
           = (Ok p, set_pageblocks (fun t => t ++ [p]) db)
           ∧ pb_section p = pk self
           ∧ ordinality p = (length (pageblock_set db (pk self)) + 1)%nat
           ∧ ordinalities_ok (set_pageblocks (fun t => t ++ [p]) db))
  ∧ (∀ (self : PageBlock) (section : SectionObj),
      self ∈ pageblocks db →
      filter (fun s => pk s = pb_section self) (all_sections db) = [section] →
      fst (PageBlock_delete self db) = Ok tt
      ∧ ordinalities_ok (snd (PageBlock_delete self db))
      ∧ (pb_pk self ∉ pb_pk <$> pageblocks (snd (PageBlock_delete self db)))
      ∧ (length (pageblock_set (snd (PageBlock_delete self db)) (pb_section self)) + 1
         = length (pageblock_set db (pb_section self)))%nat)
  ∧ (∀ (self : SectionObj) (pageblock_ids : list Z),
      pageblock_ids ≡ₚ pb_pk <$> pageblock_set db (pk self) →
      fst (Section_update_pageblocks_order self pageblock_ids db) = Ok tt
      ∧ ordinalities_ok (snd (Section_update_pageblocks_order self pageblock_ids db))).
Proof.
  intros Hok. split; [|split].
  - intros self l content_object. by apply Section_append_pageblock_ok.
  - intros self section Hin Hsec. by apply (PageBlock_delete_ok self section).
  - intros self ids Hids. by apply Section_update_pageblocks_order_ok.
Qed.

Lemma demo_submit_db_ok : ordinalities_ok demo_submit_db.
Proof.
  split.
  - apply (bool_decide_unpack _). by vm_compute.
  - intros s. unfold contiguous, pageblock_set.
    destruct (decide (s = 2%Z)) as [->|Hne]; [by vm_compute|].
    cbn [pageblocks demo_submit_db set_blocks set_pageblocks].
    rewrite !filter_cons_False by (cbn; congruence). done.
Qed.

Lemma ordinalities_stay_contiguous_witness :
  ordinalities_ok demo_submit_db
  ∧ ordinalities_ok (snd (PageBlock_delete (demo_pageblock 1 1) demo_submit_db))
  ∧ (ordinality <$> pageblock_set
                      (snd (PageBlock_delete (demo_pageblock 1 1) demo_submit_db)) 2)
    = [1%nat].
Proof.
  split; [exact demo_submit_db_ok|].
  destruct (ordinalities_stay_contiguous demo_submit_db demo_submit_db_ok)
    as (_ & Hdel & _).
  destruct (Hdel (demo_pageblock 1 1) demo_intro) as (_ & H & _).
  - left.
  - reflexivity.
  - split; [exact H|]. by vm_compute.
Defined.

(** C3 as stated fails: [update_pageblocks_order] with only the key of
    the second block of the sample page leaves the ordinalities 1, 1. *)
Lemma update_pageblocks_order_breaks_contiguity :
  ordinalities_ok demo_submit_db
  ∧ fst (Section_update_pageblocks_order demo_intro [2%Z] demo_submit_db) = Ok tt
  ∧ ¬ contiguous (snd (Section_update_pageblocks_order demo_intro [2%Z] demo_submit_db))
                 (pk demo_intro).
Proof.
  split; [exact demo_submit_db_ok|]. split; [by vm_compute|].
  unfold contiguous. vm_compute. discriminate.
Qed.

(** *** Export and import of a hierarchy *)

Lemma Node_induction (P : Node → Prop) :
  (∀ i l sl h cs, Forall P cs → P (MkNode i l sl h cs)) → ∀ n, P n.
Proof.
  intros H. fix IH 1. intros [i l sl h cs]. apply H.
  induction cs as [|c cs IHcs]; constructor; [apply IH|exact IHcs].
Qed.

Lemma SectionDict_induction (P : SectionDict → Prop) :
  (∀ l sl pbs cs, Forall P (default [] cs) → P (MkSectionDict l sl pbs cs)) → ∀ d, P d.
Proof.
  intros H. fix IH 1. intros [l sl pbs cs]. apply H.
  destruct cs as [cs|]; [|constructor]. cbn.
  induction cs as [|c cs IHcs]; constructor; [apply IH|exact IHcs].
Qed.

Lemma map_M_spec {A B : Type} (f : A → M B) (Q : A → B → Prop) (l : list A) (db : DB) :
  Forall (fun x => snd (f x db) = db ∧ ∀ y, fst (f x db) = Ok y → Q x y) l →
  snd (map_M f l db) = db ∧ ∀ ys, fst (map_M f l db) = Ok ys → Forall2 Q l ys.
Proof.
  induction 1 as [|x l [Hdb Hx] Hl [IHdb IH]]; cbn.
  - split; [done|]. intros ys [= <-]. constructor.
  - unfold bind. destruct (f x db) as [[y|e] db1]; cbn in *; subst db1; [|done].
    destruct (map_M f l db) as [[ys|e] db1]; cbn in *; subst db1; [|done].
    split; [done|]. intros ? [= <-]. constructor; [by apply Hx|by apply IH].
Qed.

Lemma PageBlock_as_dict_reads (p : PageBlock) (db : DB) :
  snd (PageBlock_as_dict p db) = db.
Proof.
  unfold PageBlock_as_dict, PageBlock_block. unfold_M.
  by destruct (block_of db p).
Qed.

Lemma node_as_dict_unfold (n : Node) (db : DB) :
  node_as_dict n db
  = (bs ← read (fun db => pageblock_set db (node_pk n));
     pbs ← map_M PageBlock_as_dict bs;
     cs ← map_M node_as_dict (node_children n);
     mret (MkSectionDict (Some (node_label n)) (Some (node_slug n)) (Some pbs) (Some cs)))
      db.
Proof.
  destruct n as [i l sl h cs]. cbn [node_as_dict node_children]. unfold_M.
  destruct (map_M PageBlock_as_dict _ db) as [[pbs|e] db1]; [|done].
  assert (∀ db0,
    (fix kids (cs : list Node) : M (list SectionDict) :=
       match cs with
       | [] => λ db : DB, (Ok [], db)
       | c :: cs' =>
           λ db : DB,
             let (r, db') := node_as_dict c db in
             match r with
             | Ok a =>
                 let (r0, db'0) := kids cs' db' in
                 match r0 with
                 | Ok a0 => (Ok (a :: a0), db'0)
                 | Raise e => (Raise e, db'0)
                 end
             | Raise e => (Raise e, db')
             end
       end) cs db0 = map_M node_as_dict cs db0) as ->; [|done].
  induction cs as [|c cs IH]; intros db0; [done|].
  cbn. unfold bind. destruct (node_as_dict c db0) as [[d|e] db2]; [|done].
  by rewrite IH.
Qed.

Lemma node_as_dict_outline (n : Node) (db : DB) :
  snd (node_as_dict n db) = db
  ∧ ∀ d, fst (node_as_dict n db) = Ok d → dict_outline d = node_outline n.
Proof.
  induction n as [i l sl h cs IH] using Node_induction.
  rewrite node_as_dict_unfold. unfold_M. cbn [node_pk node_label node_slug node_children].
  destruct (map_M_spec PageBlock_as_dict (fun _ _ => True)
              (pageblock_set db i) db) as [Hdb _].
  { apply Forall_forall. intros p _. split; [apply PageBlock_as_dict_reads|done]. }
  destruct (map_M PageBlock_as_dict _ db) as [[pbs|e] db1]; cbn in Hdb; subst db1;
    [|done].
  destruct (map_M_spec node_as_dict (fun c d => dict_outline d = node_outline c) cs db)
    as [Hdb Hds]; [done|].
  destruct (map_M node_as_dict cs db) as [[ds|e] db1]; cbn in Hdb; subst db1; [|done].
  split; [done|]. intros d [= <-]. cbn. f_equal.
  specialize (Hds ds eq_refl). clear IH.
  induction Hds as [|c d' cs' ds' Hd _ IH']; [done|].
  cbn. by rewrite Hd, IH'.
Qed.

Lemma node_alter_id (f : Node → Node) (p : list nat) (n : Node) :
  (∀ x, f x = x) → node_alter f p n = n.
Proof.
  intros Hf. revert n. induction p as [|i p IH]; intros n; cbn; [apply Hf|].
  rewrite list_alter_id by done. by destruct n.
Qed.

Lemma forest_alter_id (f : Node → Node) (p : list nat) (t : list Node) :
  (∀ x, f x = x) → forest_alter f p t = t.
Proof.
  intros Hf. destruct p as [|i p]; [done|]. cbn.
  apply list_alter_id. intros n. by apply node_alter_id.
Qed.

Lemma add_kids_nil (n : Node) : add_kids [] n = n.
Proof. unfold add_kids. rewrite app_nil_r. by destruct n. Qed.

Lemma add_kids_add_kid (c : Node) (cs : list Node) (n : Node) :
  add_kids cs (add_kid c n) = add_kids (c :: cs) n.
Proof. unfold add_kids, add_kid. cbn. by rewrite <- app_assoc. Qed.

Lemma node_at_alter (f : Node → Node) (p : list nat) (n m : Node) :
  node_at p n = Some m → node_at p (node_alter f p n) = Some (f m).
Proof.
  revert n. induction p as [|i p IH]; intros n; cbn; [by intros [= ->]|].
  destruct (node_children n !! i) as [c|] eqn:Hc; [|done]. intros Hm.
  rewrite list_lookup_alter_eq, Hc. cbn. by apply IH.
Qed.

Lemma forest_at_alter (f : Node → Node) (p : list nat) (t : list Node) (m : Node) :
  forest_at t p = Some m → forest_at (forest_alter f p t) p = Some (f m).
Proof.
  destruct p as [|i p]; [done|]. cbn.
  destruct (t !! i) as [n|] eqn:Hn; [|done]. intros Hm.
  rewrite list_lookup_alter_eq, Hn. cbn. by apply node_at_alter.
Qed.

Lemma node_alter_compose (f g : Node → Node) (p : list nat) (n : Node) :
  node_alter f p (node_alter g p n) = node_alter (f ∘ g) p n.
Proof.
  revert n. induction p as [|i p IH]; intros n; cbn; [done|].
  rewrite list_alter_alter_eq. f_equal.
  apply list_alter_ext; [|done]. intros x _. apply IH.
Qed.

Lemma forest_alter_compose (f g : Node → Node) (p : list nat) (t : list Node) :
  forest_alter f p (forest_alter g p t) = forest_alter (f ∘ g) p t.
Proof.
  destruct p as [|i p]; [done|]. cbn. rewrite list_alter_alter_eq.
  apply list_alter_ext; [|done]. intros n _. apply node_alter_compose.
Qed.

Lemma node_alter_ext (f g : Node → Node) (p : list nat) (n : Node) :
  (∀ x, f x = g x) → node_alter f p n = node_alter g p n.
Proof.
  intros Hfg. revert n. induction p as [|i p IH]; intros n; cbn; [apply Hfg|].
  f_equal. apply list_alter_ext; [|done]. intros x _. apply IH.
Qed.

Lemma forest_alter_ext (f g : Node → Node) (p : list nat) (t : list Node) :
  (∀ x, f x = g x) → forest_alter f p t = forest_alter g p t.
Proof.
  intros Hfg. destruct p as [|i p]; [done|]. cbn.
  apply list_alter_ext; [|done]. intros n _. by apply node_alter_ext.
Qed.

(** Changing the child that was just appended is appending the changed
    child. *)
Lemma node_alter_snoc (f : Node → Node) (leaf : Node) (p : list nat) (n parent : Node) :
  node_at p n = Some parent →
  node_alter f (p ++ [length (node_children parent)]) (node_alter (add_kid leaf) p n)
  = node_alter (add_kid (f leaf)) p n.
Proof.
  revert n. induction p as [|i p IH]; intros n; cbn.
  - intros [= ->]. unfold add_kid. f_equal.
    rewrite <- (Nat.add_0_r (length (node_children parent))).
    by rewrite alter_app_r.
  - destruct (node_children n !! i) as [c|] eqn:Hc; [|done]. intros Hm.
    f_equal. rewrite list_alter_alter_eq.
    apply list_alter_ext; [|done]. intros x Hx. rewrite Hc in Hx.
    injection Hx as <-. cbn. by apply IH.
Qed.

Lemma forest_alter_snoc (f : Node → Node) (leaf : Node) (p : list nat) (t : list Node)
    (parent : Node) :
  forest_at t p = Some parent →
  forest_alter f (p ++ [length (node_children parent)]) (forest_alter (add_kid leaf) p t)
  = forest_alter (add_kid (f leaf)) p t.
Proof.
  destruct p as [|i p]; [done|]. cbn.
  destruct (t !! i) as [n|] eqn:Hn; [|done]. intros Hm.
  rewrite list_alter_alter_eq.
  apply list_alter_ext; [|done]. intros x Hx. rewrite Hn in Hx.
  injection Hx as <-. cbn. by apply node_alter_snoc.
Qed.

Lemma set_sections_id (db : DB) : set_sections (fun t => t) db = db.
Proof. by destruct db. Qed.

Lemma Section_hierarchy_returns (self : SectionObj) (db : DB) :
  length (filter (fun h => hierarchy_pk h = hierarchy self) (hierarchies db)) = 1%nat →
  ∃ h, Section_hierarchy self db = (Ok h, db).
Proof.
  intros Hlen. unfold Section_hierarchy. unfold_M.
  destruct (filter _ (hierarchies db)) as [|h [|h' rows]]; [done| |done].
  by exists h.
Qed.

(** A pageblock dictionary that is not importable is skipped. *)
Lemma add_pageblock_skipped (settings : option (list BlockClass)) (self : SectionObj)
    (pb : Dict) (db : DB) :
  length (filter (fun h => hierarchy_pk h = hierarchy self) (hierarchies db)) = 1%nat →
  importable settings pb = false →
  Section_add_pageblock_from_dict settings self pb db = (Ok tt, db).
Proof.
  intros Hh Himp.
  unfold Section_add_pageblock_from_dict, Section_available_pageblocks. unfold_M.
  destruct (Section_hierarchy_returns self db Hh) as [h ->].
  unfold importable in Himp.
  induction (Hierarchy_available_pageblocks settings) as [|c cs IH]; [done|].
  cbn [existsb] in Himp. apply orb_false_iff in Himp as [Hc Hcs].
  cbn [for_each]. unfold bind.
  destruct (Value_eqb _ _); cbn [andb] in Hc.
  - destruct (create_from_dict c) as [mk|].
    { exfalso. apply bool_decide_eq_false in Hc. apply Hc. by eexists. }
    unfold ret. by apply IH.
  - unfold ret. by apply IH.
Qed.

Lemma add_pageblocks_skipped (settings : option (list BlockClass)) (self : SectionObj)
    (pbs : list Dict) (db : DB) :
  length (filter (fun h => hierarchy_pk h = hierarchy self) (hierarchies db)) = 1%nat →
  forallb (fun pb => negb (importable settings pb)) pbs = true →
  for_each pbs (Section_add_pageblock_from_dict settings self) db = (Ok tt, db).
Proof.
  intros Hh. induction pbs as [|pb pbs IH]; [done|]. cbn.
  intros [Hpb Hpbs]%andb_true_iff. apply negb_true_iff in Hpb. unfold bind.
  rewrite add_pageblock_skipped by done. by apply IH.
Qed.

Lemma add_child_section_unfold (settings : option (list BlockClass)) (self : SectionObj)
    (l sl : option string) (pbs : option (list Dict)) (cs : option (list SectionDict))
    (db : DB) :
  Section_add_child_section_from_dict settings self (MkSectionDict l sl pbs cs) db
  = (s ← Section_append_child self (default "" l) (default "" sl);
     _ ← for_each (default [] pbs) (Section_add_pageblock_from_dict settings s);
     for_each (default [] cs) (Section_add_child_section_from_dict settings s)) db.
Proof.
  cbn [Section_add_child_section_from_dict]. unfold_M.
  destruct (Section_append_child self _ _ db) as [[s|e] db1]; [|done].
  destruct (for_each _ _ db1) as [[[]|e] db2]; [|done].
  destruct cs as [cs|]; [|done]. cbn [default].
  revert db2. induction cs as [|c cs IH]; intros db2; [done|].
  cbn -[Section_add_child_section_from_dict]. unfold bind.
  destruct (Section_add_child_section_from_dict settings s c db2) as [[[]|e] db3];
    [|done].
  apply IH.
Qed.

Lemma set_sections_eq (f g : list Node → list Node) (db : DB) :
  f (sections db) = g (sections db) → set_sections f db = set_sections g db.
Proof. unfold set_sections. by intros ->. Qed.

Lemma set_sections_compose (f g : list Node → list Node) (db : DB) :
  set_sections f (set_sections g db) = set_sections (f ∘ g) db.
Proof. done. Qed.

Lemma forest_at_new_kid (leaf parent : Node) (p : list nat) (t : list Node) :
  forest_at t p = Some parent →
  forest_at (forest_alter (add_kid leaf) p t) (p ++ [length (node_children parent)])
  = Some leaf.
Proof.
  intros Hp. destruct p as [|i q]; [done|].
  rewrite forest_at_snoc, (forest_at_alter _ _ _ parent Hp).
  cbn [node_children add_kid]. by rewrite list_lookup_middle.
Qed.

Lemma import_children (settings : option (list BlockClass)) (cs : list SectionDict) :
  Forall (fun c => ∀ self db parent,
            forest_at (sections db) (path self) = Some parent →
            length (filter (fun h => hierarchy_pk h = hierarchy self) (hierarchies db))
            = 1%nat →
            no_importable settings c = true → slugs_kept c = true →
            ∃ n, Section_add_child_section_from_dict settings self c db
                 = (Ok tt, set_sections (forest_alter (add_kid n) (path self)) db)
                 ∧ node_outline n = dict_outline c) cs →
  ∀ self db parent,
    forest_at (sections db) (path self) = Some parent →
    length (filter (fun h => hierarchy_pk h = hierarchy self) (hierarchies db)) = 1%nat →
    forallb (no_importable settings) cs = true → forallb slugs_kept cs = true →
    ∃ ns, for_each cs (Section_add_child_section_from_dict settings self) db
          = (Ok tt, set_sections (forest_alter (add_kids ns) (path self)) db)
          ∧ node_outline <$> ns = dict_outline <$> cs.
Proof.
  induction 1 as [|c cs Hc _ IH]; intros self db parent Hparent Hh Himp Hslug.
  - exists []. split; [|done]. cbn. unfold ret. f_equal.
    rewrite (set_sections_eq _ (fun t => t)), set_sections_id; [done|].
    apply forest_alter_id, add_kids_nil.
  - cbn in Himp, Hslug.
    apply andb_true_iff in Himp as [Hi1 Hi2]. apply andb_true_iff in Hslug as [Hs1 Hs2].
    destruct (Hc self db parent Hparent Hh Hi1 Hs1) as (n1 & Heq & Hn1).
    cbn [for_each]. unfold bind. rewrite Heq.
    destruct (IH self (set_sections (forest_alter (add_kid n1) (path self)) db)
                (add_kid n1 parent)) as (ns & Heq' & Hns); [|done..|].
    { cbn. by apply forest_at_alter. }
    rewrite Heq'. exists (n1 :: ns). split.
    + f_equal. rewrite set_sections_compose. apply set_sections_eq.
      unfold compose. rewrite forest_alter_compose.
      apply forest_alter_ext. intros x. apply add_kids_add_kid.
    + cbn. by rewrite Hn1, Hns.
Qed.

(** Importing the dictionary of a section under a stored parent appends
    one child with the outline of the dictionary. *)
Lemma import_child (settings : option (list BlockClass)) (c : SectionDict) :
  ∀ self db parent,
    forest_at (sections db) (path self) = Some parent →
    length (filter (fun h => hierarchy_pk h = hierarchy self) (hierarchies db)) = 1%nat →
    no_importable settings c = true → slugs_kept c = true →
    ∃ n, Section_add_child_section_from_dict settings self c db
         = (Ok tt, set_sections (forest_alter (add_kid n) (path self)) db)
         ∧ node_outline n = dict_outline c.
Proof.
  induction c as [l sl pbs cs IH] using SectionDict_induction.
  intros self db parent Hparent Hh Himp Hslug.
  rewrite add_child_section_unfold. unfold_M.
  unfold Section_append_child, add_child. rewrite Hparent.
  set (sl' := if String.eqb (default "" sl) "" then slugify (default "" l)
              else default "" sl) in *.
  set (leaf := MkNode (fresh (pk <$> all_sections db)) (default "" l) sl'
                      (hierarchy self) []).
  set (s := instance (path self ++ [length (node_children parent)]) leaf).
  set (db1 := set_sections (forest_alter (add_kid leaf) (path self)) db).
  cbn in Himp, Hslug.
  apply andb_true_iff in Himp as [Hi1 Hi2]. apply andb_true_iff in Hslug as [Hs1 Hs2].
  rewrite (add_pageblocks_skipped settings s (default [] pbs) db1) by done.
  destruct (import_children settings (default [] cs) IH s db1 leaf) as (ns & Heq & Hns).
  { by apply forest_at_new_kid. }
  { done. }
  { by destruct cs. }
  { by destruct cs. }
  rewrite Heq. exists (add_kids ns leaf). split.
  - f_equal. unfold db1. rewrite set_sections_compose. apply set_sections_eq.
    unfold compose. cbn [path s instance]. by apply forest_alter_snoc.
  - cbn. rewrite Hns. apply String.eqb_eq in Hs1. fold sl' in Hs1. rewrite Hs1.
    by destruct cs.
Qed.

Lemma Hierarchy_get_root_stored (self : Hierarchy) (s : SectionObj) (db db' : DB) :
  Hierarchy_get_root self db = (Ok s, db') →
  ∃ i r, s = instance [i] r ∧ sections db' !! i = Some r.
Proof.
  unfold Hierarchy_get_root, try_except. unfold_M.
  assert (add_root "Root" "" (hierarchy_pk self) db = (Ok s, db') →
          ∃ i r, s = instance [i] r ∧ sections db' !! i = Some r) as Hadd.
  { unfold add_root. intros [= <- <-]. eexists _, _. split; [done|].
    cbn. by rewrite list_lookup_middle. }
  destruct (filter _ (all_sections db)) as [|s0 [|s1 rows]]; cbn.
  - case_decide; [|done]. exact Hadd.
  - unfold get_root, section_by_path.
    destruct (path s0) as [|i q]; cbn; [case_decide; [|done]; exact Hadd|].
    rewrite take_0.
    destruct (sections db !! i) as [n|] eqn:Hn; [|case_decide; [|done]; exact Hadd].
    intros [= <- <-]. by exists i, n.
  - case_decide; [done|]. intros [=].
Qed.

Lemma dict_outline_eq (d : SectionDict) :
  dict_outline d
  = MkOutline (default "" (sd_label d)) (default "" (sd_slug d))
              (dict_outline <$> default [] (sd_children d)).
Proof. by destruct d as [l sl pbs [cs|]]. Qed.

Lemma Section_as_dict_outline (i : nat) (r : Node) (rd : SectionDict) (db db' : DB) :
  sections db !! i = Some r →
  Section_as_dict (instance [i] r) db = (Ok rd, db') →
  db' = db ∧ dict_outline rd = node_outline r.
Proof.
  intros Hr. unfold Section_as_dict, pageblock_set_all. unfold_M.
  cbn [pk path label slug instance].
  destruct (map_M_spec PageBlock_as_dict (fun _ _ => True)
              (pageblock_set db (node_pk r)) db) as [Hdb _].
  { apply Forall_forall. intros p _. split; [apply PageBlock_as_dict_reads|done]. }
  destruct (map_M PageBlock_as_dict _ db) as [[pbs|e] db1]; cbn in Hdb; subst db1;
    [|done].
  cbn [forest_at node_at]. rewrite Hr.
  destruct (map_M_spec node_as_dict (fun c d => dict_outline d = node_outline c)
              (node_children r) db) as [Hdb Hds].
  { apply Forall_forall. intros c _. apply node_as_dict_outline. }
  destruct (map_M node_as_dict _ db) as [[ds|e] db1]; cbn in Hdb; subst db1; [|done].
  intros [= <- <-]. split; [done|]. destruct r as [k l sl h cs]. cbn. f_equal.
  specialize (Hds ds eq_refl). cbn in Hds. clear Hr.
  induction Hds as [|c d' cs' ds' Hd _ IH']; [done|].
  cbn. by rewrite Hd, IH'.
Qed.

Lemma filter_fresh_hierarchy (t : list Hierarchy) :
  filter (fun h => hierarchy_pk h = fresh (hierarchy_pk <$> t)) t = [].
Proof.
  pose proof (fresh_not_elem (hierarchy_pk <$> t)) as Hf.
  revert Hf. generalize (fresh (hierarchy_pk <$> t)). intros z.
  induction t as [|h t IH]; [done|]. rewrite fmap_cons.
  intros [Hh Ht]%not_elem_of_cons.
  rewrite filter_cons_False by done. by apply IH.
Qed.

Lemma add_section_from_dict_ok (settings : option (list BlockClass)) (h : Hierarchy)
    (rd : SectionDict) (db : DB) :
  length (filter (fun x => hierarchy_pk x = hierarchy_pk h) (hierarchies db)) = 1%nat →
  forallb (fun pb => negb (importable settings pb)) (default [] (sd_pageblocks rd)) = true →
  forallb (no_importable settings) (default [] (sd_children rd)) = true →
  forallb slugs_kept (default [] (sd_children rd)) = true →
  ∃ s r', Hierarchy_add_section_from_dict settings h rd db
          = (Ok s, set_sections (fun t => t ++ [r']) db)
          ∧ node_hierarchy r' = hierarchy_pk h
          ∧ node_outline r'
            = MkOutline "Root" "" (dict_outline <$> default [] (sd_children rd)).
Proof.
  intros Hh Hpbs Hcs Hslug.
  unfold Hierarchy_add_section_from_dict. unfold_M. unfold add_root.
  set (leaf := MkNode (fresh (pk <$> all_sections db)) "Root" "" (hierarchy_pk h) []).
  set (s := instance [length (sections db)] leaf).
  set (db3 := set_sections (fun t => t ++ [leaf]) db).
  rewrite (add_pageblocks_skipped settings s (default [] (sd_pageblocks rd)) db3)
    by done.
  destruct (import_children settings (default [] (sd_children rd))) with
    (self := s) (db := db3) (parent := leaf) as (ns & Heq & Hns).
  { apply Forall_forall. intros c _. apply import_child. }
  { cbn. by rewrite list_lookup_middle. }
  { done. }
  { done. }
  { done. }
  rewrite Heq. exists s, (add_kids ns leaf). split; [|split].
  - f_equal. unfold db3. rewrite set_sections_compose. apply set_sections_eq.
    unfold compose. cbn [path s instance forest_alter node_alter].
    rewrite <- (Nat.add_0_r (length (sections db))). by rewrite alter_app_r.
  - done.
  - cbn. by rewrite Hns.
Qed.

(** X27: where stored roots are labelled "Root" with an empty slug,
    exporting a hierarchy and importing the dictionary again, when below
    the root every slug is one the import keeps and no pageblock is
    importable, returns a new hierarchy with the same name and base_url
    whose tree, added to the forest as a new root, has the same labels,
    slugs and children order as the tree of the exported hierarchy. *)
Theorem from_dict_of_as_dict (settings : option (list BlockClass)) (self : Hierarchy)
    (db db1 : DB) (d : HierarchyDict) :
  roots_ok db →
  Hierarchy_as_dict self db = (Ok d, db1) →
  exported_no_importable settings d = true →
  exported_slugs_kept d = true →
  ∃ (i : nat) (r : Node) (h' : Hierarchy) (r' : Node),
    Hierarchy_get_root self db = (Ok (instance [i] r), db1)
    ∧ sections db1 !! i = Some r
    ∧ Hierarchy_from_dict settings d db1
      = (Ok h', set_sections (fun t => t ++ [r'])
                  (set_hierarchies (fun t => t ++ [h']) db1))
    ∧ name h' = name self ∧ base_url h' = base_url self
    ∧ node_hierarchy r' = hierarchy_pk h'
    ∧ node_outline r' = node_outline r.
Proof.
  intros Hroots Hexport Himp Hslug.
  unfold Hierarchy_as_dict in Hexport. unfold_M.
  destruct (Hierarchy_get_root self db) as [[root|e] db0] eqn:Hroot; [|done].
  destruct (Hierarchy_get_root_stored _ _ _ _ Hroot) as (i & r & -> & Hr).
  destruct (Hierarchy_get_root_label _ _ _ _ Hroots Hroot) as (Hlabel & Hsl & _ & _).
  cbn in Hlabel, Hsl.
  destruct (Section_as_dict (instance [i] r) db0) as [[rd|e] db0'] eqn:Hrd; [|done].
  destruct (Section_as_dict_outline _ _ _ _ _ Hr Hrd) as [-> Hout].
  injection Hexport as <- <-.
  unfold exported_no_importable in Himp. unfold exported_slugs_kept in Hslug.
  cbn in Himp, Hslug. rewrite andb_true_r in Himp, Hslug.
  assert (forallb (fun pb => negb (importable settings pb)) (default [] (sd_pageblocks rd))
          = true
          ∧ forallb (no_importable settings) (default [] (sd_children rd)) = true)
    as [Hpbs Hcs].
  { destruct rd as [l sl pbs [cs|]]; cbn in Himp |- *;
      apply andb_true_iff in Himp as [??]; done. }
  set (h' := {| hierarchy_pk := fresh (hierarchy_pk <$> hierarchies db0);
                name := name self; base_url := base_url self |}).
  destruct (add_section_from_dict_ok settings h' rd
              (set_hierarchies (fun t => t ++ [h']) db0))
    as (s & r' & Heq & Hhier & Hkids); [|done..|].
  { cbn. rewrite filter_app, filter_fresh_hierarchy.
    by rewrite filter_cons_True, filter_nil by done. }
  exists i, r, h', r'.
  split; [done|]. split; [done|]. split.
  - unfold Hierarchy_from_dict, Hierarchy_objects_create. unfold_M.
    cbn [hd_name hd_base_url hd_sections from_option id for_each].
    fold h'. unfold bind. by rewrite Heq.
  - split; [done|]. split; [done|]. split; [done|].
    rewrite dict_outline_eq in Hout. destruct r as [k l sl h cs].
    cbn in Hout, Hlabel, Hsl |- *. injection Hout as _ _ Hout.
    by rewrite Hkids, Hout, Hlabel, Hsl.
Qed.

Lemma from_dict_of_as_dict_witness :
  ∃ (d : HierarchyDict) (h' : Hierarchy) (r' : Node),
    Hierarchy_as_dict demo_hierarchy demo_db = (Ok d, demo_db)
    ∧ exported_no_importable demo_settings d = true
    ∧ exported_slugs_kept d = true
    ∧ Hierarchy_from_dict demo_settings d demo_db
      = (Ok h', set_sections (fun t => t ++ [r'])
                  (set_hierarchies (fun t => t ++ [h']) demo_db))
    ∧ node_outline r' = node_outline demo_tree.
Proof.
  eexists.
  destruct (from_dict_of_as_dict demo_settings demo_hierarchy demo_db demo_db _
              demo_db_roots_ok eq_refl eq_refl eq_refl)
    as (i & r & h' & r' & Hroot & Hr & Hfrom & _ & _ & _ & Hout).
  exists h', r'. split; [reflexivity|]. split; [reflexivity|]. split; [reflexivity|].
  split; [exact Hfrom|].
  assert (r = demo_tree) as <-; [|exact Hout].
  assert (i = 0) as -> by (vm_compute in Hroot; congruence).
  vm_compute in Hr. injection Hr as <-. reflexivity.
Defined.

(** A slug that is stored empty is not kept: the section "Intro" of this
    hierarchy has an empty slug; after export and import it has the slug
    "intro", made from its label. *)
Lemma from_dict_generates_slug :
  ∃ (d : HierarchyDict) (h' : Hierarchy) (db' : DB),
    Hierarchy_as_dict demo_hierarchy demo_unslugged_db = (Ok d, demo_unslugged_db)
    ∧ Hierarchy_from_dict None d demo_unslugged_db = (Ok h', db')
    ∧ node_outline <$> sections db'
      = [ MkOutline "Root" "" [MkOutline "Intro" "" []];
          MkOutline "Root" "" [MkOutline "Intro" "intro" []] ].
Proof.
  eexists _, _, _. split; [by vm_compute|]. split; [by vm_compute|]. by vm_compute.
Qed.

(** [add_pageblock_from_dict] on a section whose hierarchy is found: a
    dictionary that is not importable is skipped; for one that is, the
    content object is created and the call of [append_pageblock] that
    follows raises TypeError, since it passes [css_extra], which
    [append_pageblock] does not take. *)
Lemma add_pageblock_from_dict_cases (settings : option (list BlockClass))
    (self : SectionObj) (d : Dict) (db : DB) :
  length (filter (fun h => hierarchy_pk h = hierarchy self) (hierarchies db)) = 1%nat →
  if importable settings d
  then ∃ c create,
         c ∈ Hierarchy_available_pageblocks settings
         ∧ create_from_dict c = Some create
         ∧ Section_add_pageblock_from_dict settings self d db
           = (Raise TypeError,
              set_blocks (fun t => t ++ [create d (fresh (block_pk <$> blocks db))]) db)
  else Section_add_pageblock_from_dict settings self d db = (Ok tt, db).
Proof.
  intros Hh. destruct (importable settings d) eqn:Himp;
    [|by apply add_pageblock_skipped].
  unfold Section_add_pageblock_from_dict, Section_available_pageblocks. unfold_M.
  destruct (Section_hierarchy_returns self db Hh) as [h ->].
  unfold importable in Himp.
  induction (Hierarchy_available_pageblocks settings) as [|c cs IH]; [done|].
  cbn [existsb] in Himp. cbn [for_each]. unfold bind.
  destruct (Value_eqb (VStr (cls_display_name c)) _) eqn:Hc; cbn [andb] in Himp.
  - destruct (create_from_dict c) as [create|] eqn:Hcreate.
    + exists c, create. split; [left|]. split; [done|]. reflexivity.
    + cbn in Himp. unfold ret.
      destruct (IH Himp) as (c' & create & Hin & Hcreate' & Hrun).
      exists c', create. split; [by right|]. by split.
  - unfold ret. cbn in Himp.
    destruct (IH Himp) as (c' & create & Hin & Hcreate' & Hrun).
    exists c', create. split; [by right|]. by split.
Qed.

(** C2 fails on the code: the export of the sample hierarchy holds the
    pageblocks of "Intro", whose type is available and has
    [create_from_dict]; the import of the export raises TypeError at the
    first of them.  No pageblock is re-created, and what was written
    before stays: the new hierarchy, its root and "Intro" without "Part
    One" and "About", and the content object made for the pageblock. *)
Theorem from_dict_importable_block_raises :
  ∃ (d : HierarchyDict) (db' : DB),
    Hierarchy_as_dict demo_hierarchy demo_submit_db = (Ok d, demo_submit_db)
    ∧ exported_no_importable demo_settings d = false
    ∧ Hierarchy_from_dict demo_settings d demo_submit_db = (Raise TypeError, db')
    ∧ pageblocks db' = pageblocks demo_submit_db
    ∧ name <$> hierarchies db' = ["main"; "main"]
    ∧ node_outline <$> sections db'
      = [ node_outline demo_tree; MkOutline "Root" "" [MkOutline "Intro" "intro" []] ]
    ∧ length (blocks db') = S (length (blocks demo_submit_db)).
Proof.
  eexists _, _. split; [by vm_compute|]. split; [by vm_compute|].
  split; [by vm_compute|]. by vm_compute.
Qed.

(** X28: [add_pageblock_from_dict] on a section whose hierarchy is found
    never adds a pageblock.  A dictionary whose block type no available
    class with [create_from_dict] has is skipped and nothing is written;
    for any other the content object is created and stays, and the call
    raises TypeError. *)
Theorem add_pageblock_from_dict_adds_no_pageblock (settings : option (list BlockClass))
    (self : SectionObj) (d : Dict) (db : DB) :
  length (filter (fun h => hierarchy_pk h = hierarchy self) (hierarchies db)) = 1%nat →
  pageblocks (snd (Section_add_pageblock_from_dict settings self d db)) = pageblocks db
  ∧ if importable settings d
    then ∃ c create,
           c ∈ Hierarchy_available_pageblocks settings
           ∧ create_from_dict c = Some create
           ∧ Section_add_pageblock_from_dict settings self d db
             = (Raise TypeError,
                set_blocks (fun t => t ++ [create d (fresh (block_pk <$> blocks db))]) db)
    else Section_add_pageblock_from_dict settings self d db = (Ok tt, db).
Proof.
  intros Hh. pose proof (add_pageblock_from_dict_cases settings self d db Hh) as Hcases.
  split; [|exact Hcases].
  destruct (importable settings d).
  - destruct Hcases as (c & create & _ & _ & ->). reflexivity.
  - by rewrite Hcases.
Qed.

Lemma add_pageblock_from_dict_adds_no_pageblock_witness :
  fst (Section_add_pageblock_from_dict demo_settings demo_intro
         [("block_type", VStr "Quiz"); ("label", VStr "Quiz")] demo_submit_db)
  = Raise TypeError
  ∧ pageblocks (snd (Section_add_pageblock_from_dict demo_settings demo_intro
                       [("block_type", VStr "Quiz"); ("label", VStr "Quiz")]
                       demo_submit_db))
    = pageblocks demo_submit_db.
Proof.
  split; [reflexivity|].
  apply (add_pageblock_from_dict_adds_no_pageblock demo_settings demo_intro
           [("block_type", VStr "Quiz"); ("label", VStr "Quiz")] demo_submit_db).
  reflexivity.
Defined.

(** ** Further properties of the models *)

(** *** The sample data *)

Lemma demo_db_keys : NoDup (pk <$> all_sections demo_db).
Proof. apply (bool_decide_unpack _). by vm_compute. Qed.

Lemma demo_tree_resolves : resolves [0; 0]%nat demo_tree.
Proof. cbn. repeat split; try done. repeat constructor. done. Qed.

(** *** Exported pageblock dictionaries *)

Lemma dict_get_set (d : Dict) (k : string) (v : Value) :
  dict_get (dict_set d k v) k = Some v.
Proof.
  induction d as [|[k' v'] d IH]; cbn.
  - by rewrite String.eqb_refl.
  - destruct (String.eqb k' k) eqn:Hk; cbn; rewrite Hk; [done|exact IH].
Qed.

Lemma dict_get_set_ne (d : Dict) (k k' : string) (v : Value) :
  k ≠ k' → dict_get (dict_set d k v) k' = dict_get d k'.
Proof.
  intros Hne. induction d as [|[k0 v0] d IH]; cbn.
  - destruct (String.eqb k k') eqn:Hk; [|done]. by apply String.eqb_eq in Hk.
  - destruct (String.eqb k0 k) eqn:Hk; cbn.
    + apply String.eqb_eq in Hk. subst k0.
      destruct (String.eqb k k') eqn:Hk'; [|done]. by apply String.eqb_eq in Hk'.
    + destruct (String.eqb k0 k'); [done|exact IH].
Qed.

(** X1: [PageBlock.as_dict]: the keys label, css_extra and block_type hold the
    label and the extra classes of the pageblock and the display name of
    its content object; every other key is the one of the content object's
    own dictionary (none if it has no [as_dict]).  Without a content
    object the export raises AttributeError. *)
Theorem PageBlock_as_dict_lookup (self : PageBlock) (db : DB) :
  match block_of db self with
  | Some b =>
      ∃ d, PageBlock_as_dict self db = (Ok d, db)
           ∧ dict_get d "label" = Some (of_option (pb_label self))
           ∧ dict_get d "css_extra" = Some (of_option (css_extra self))
           ∧ dict_get d "block_type" = Some (VStr (display_name b))
           ∧ ∀ k, k ≠ "label" → k ≠ "css_extra" → k ≠ "block_type" →
                  dict_get d k = dict_get (default [] (block_as_dict b)) k
  | None => PageBlock_as_dict self db = (Raise AttributeError, db)
  end.
Proof.
  unfold PageBlock_as_dict, PageBlock_block. unfold_M.
  destruct (block_of db self) as [b|]; [|done].
  eexists. split; [done|].
  repeat split.
  - rewrite dict_get_set_ne by done. rewrite dict_get_set_ne by done.
    apply dict_get_set.
  - rewrite dict_get_set_ne by done. apply dict_get_set.
  - apply dict_get_set.
  - intros k H1 H2 H3. rewrite !dict_get_set_ne by done.
    by destruct (block_as_dict b).
Qed.

(** *** get_hierarchy *)

(** X2: [Hierarchy.get_hierarchy(name)] returns a stored hierarchy of that
    name: the only one there is, or a new one with [base_url] "/" and a
    key of its own, added at the end of the table; asking again returns the
    same hierarchy and changes nothing.  It raises only
    MultipleObjectsReturned, when the name is taken more than once. *)
Theorem get_hierarchy_get_or_create (n : string) (db : DB) :
  match filter (fun h => name h = n) (hierarchies db) with
  | [] =>
      ∃ h, Hierarchy_get_hierarchy n db = (Ok h, set_hierarchies (fun t => t ++ [h]) db)
           ∧ name h = n ∧ base_url h = "/"
           ∧ (hierarchy_pk h ∉ hierarchy_pk <$> hierarchies db)
           ∧ Hierarchy_get_hierarchy n (set_hierarchies (fun t => t ++ [h]) db)
             = (Ok h, set_hierarchies (fun t => t ++ [h]) db)
  | [h] => Hierarchy_get_hierarchy n db = (Ok h, db) ∧ name h = n ∧ h ∈ hierarchies db
  | _ :: _ :: _ => Hierarchy_get_hierarchy n db = (Raise MultipleObjectsReturned, db)
  end.
Proof.
  unfold Hierarchy_get_hierarchy. unfold_M.
  destruct (filter _ (hierarchies db)) as [|h [|h' rows]] eqn:Hf.
  - unfold Hierarchy_objects_create.
    eexists. split; [done|]. split; [done|]. split; [done|].
    split; [apply fresh_not_elem|].
    cbn [hierarchies set_hierarchies]. rewrite filter_app, Hf.
    rewrite filter_cons_True by done. by rewrite filter_nil.
  - split; [done|].
    assert (h ∈ filter (fun h => name h = n) (hierarchies db)) as Hin
      by (rewrite Hf; apply list_elem_of_here).
    apply list_elem_of_filter in Hin. by destruct Hin.
  - done.
Qed.

(** *** The stored forest and its listing *)

Lemma tree_list_unfold (p : list nat) (n : Node) :
  tree_list p n = instance p n :: kids_list p 0 (node_children n).
Proof.
  destruct n as [k l sl h cs]. cbn. f_equal.
  generalize 0%nat. induction cs as [|c cs IH]; intros i; cbn; [done|].
  by rewrite IH.
Qed.

Lemma kids_list_app (p : list nat) (i : nat) (cs cs' : list Node) :
  kids_list p i (cs ++ cs') = kids_list p i cs ++ kids_list p (i + length cs) cs'.
Proof.
  revert i. induction cs as [|c cs IH]; intros i; cbn.
  - by rewrite Nat.add_0_r.
  - rewrite IH, <- app_assoc. do 3 f_equal. lia.
Qed.

Lemma kids_list_elem (p : list nat) (i : nat) (cs : list Node) (x : SectionObj) :
  x ∈ kids_list p i cs ↔ ∃ j c, cs !! j = Some c ∧ x ∈ tree_list (p ++ [i + j]) c.
Proof.
  revert i. induction cs as [|c cs IH]; intros i; cbn.
  - split; [by intros ?%elem_of_nil|]. by intros (j & c & ? & _).
  - rewrite elem_of_app, IH. split.
    + intros [Hx|(j & c' & Hj & Hx)].
      * exists 0%nat, c. by rewrite Nat.add_0_r.
      * exists (S j), c'. split; [done|]. by replace (i + S j)%nat with (S i + j)%nat by lia.
    + intros ([|j] & c' & Hj & Hx).
      * left. cbn in Hj. injection Hj as <-. by rewrite Nat.add_0_r in Hx.
      * right. exists j, c'. split; [done|].
        by replace (S i + j)%nat with (i + S j)%nat by lia.
Qed.

(** The listing of a tree holds exactly the instances of its nodes. *)
Lemma tree_list_elem (n : Node) :
  ∀ (p : list nat) (x : SectionObj),
    x ∈ tree_list p n ↔ ∃ q m, node_at q n = Some m ∧ x = instance (p ++ q) m.
Proof.
  induction n as [k l sl h cs IH] using Node_induction. intros p x.
  rewrite tree_list_unfold, elem_of_cons, kids_list_elem. cbn [node_children]. split.
  - intros [->|(j & c & Hj & Hx)].
    + exists [], (MkNode k l sl h cs). by rewrite app_nil_r.
    + rewrite Forall_forall in IH.
      apply IH in Hx; [|by eapply list_elem_of_lookup_2].
      destruct Hx as (q & m & Hm & ->).
      exists (j :: q), m. cbn. rewrite Hj. split; [done|].
      by rewrite <- app_assoc.
  - intros ([|j q] & m & Hm & ->).
    + left. cbn in Hm. injection Hm as <-. by rewrite app_nil_r.
    + right. cbn in Hm. destruct (cs !! j) as [c|] eqn:Hj; [|done].
      exists j, c. split; [done|].
      rewrite Forall_forall in IH. apply IH; [by eapply list_elem_of_lookup_2|].
      exists q, m. split; [done|]. by rewrite <- app_assoc.
Qed.

(** [Section.objects.all()] holds exactly the instances of the stored
    sections. *)
Lemma all_sections_elem (db : DB) (x : SectionObj) :
  x ∈ all_sections db
  ↔ ∃ n, forest_at (sections db) (path x) = Some n ∧ x = instance (path x) n.
Proof.
  unfold all_sections. rewrite kids_list_elem. split.
  - intros (j & c & Hj & Hx). apply tree_list_elem in Hx.
    destruct Hx as (q & m & Hm & ->). exists m. cbn. by rewrite Hj.
  - intros (n & Hn & Hx). destruct (path x) as [|i q] eqn:Hp; [done|].
    cbn in Hn. destruct (sections db !! i) as [r|] eqn:Hi; [|done].
    exists i, r. split; [done|]. apply tree_list_elem. exists q, n.
    split; [done|]. by rewrite Hx.
Qed.

Lemma all_sections_stored (db : DB) (p : list nat) (n : Node) :
  forest_at (sections db) p = Some n → instance p n ∈ all_sections db.
Proof. intros Hn. apply all_sections_elem. by exists n. Qed.

Lemma forest_at_root (t : list Node) (i : nat) : forest_at t [i] = t !! i.
Proof. cbn. by destruct (t !! i). Qed.

Lemma all_sections_new_root (db : DB) (n : Node) :
  node_children n = [] →
  all_sections (set_sections (fun t => t ++ [n]) db)
  = all_sections db ++ [instance [length (sections db)] n].
Proof.
  intros Hn. unfold all_sections. cbn [sections set_sections].
  rewrite kids_list_app. cbn. by rewrite tree_list_unfold, Hn.
Qed.

(** *** get_root creates the root once *)

(** X3: [Hierarchy.get_root]: when it returns, a second call returns the same
    section and changes nothing.  Either nothing was written, or no
    section of the hierarchy was labelled "Root" and one root, labelled
    "Root" with an empty slug and no child, was added after the stored
    roots. *)
Theorem get_root_creates_once (self : Hierarchy) (db db' : DB) (r : SectionObj) :
  Hierarchy_get_root self db = (Ok r, db') →
  Hierarchy_get_root self db' = (Ok r, db')
  ∧ (db' = db
     ∨ (filter (fun s => hierarchy s = hierarchy_pk self ∧ label s = "Root")
               (all_sections db) = []
        ∧ ∃ k, db' = set_sections
                        (fun t => t ++ [MkNode k "Root" "" (hierarchy_pk self) []]) db
               ∧ r = instance [length (sections db)]
                              (MkNode k "Root" "" (hierarchy_pk self) [])
               ∧ (k ∉ pk <$> all_sections db))).
Proof.
  intros Hget. pose proof Hget as Hget0. revert Hget.
  unfold Hierarchy_get_root, try_except. unfold_M.
  destruct (filter _ (all_sections db)) as [|s0 [|s1 rows]] eqn:Hf; cbn.
  - case_decide; [|done]. unfold add_root. intros [= <- <-].
    split; [|right; split; [done|]; eexists; split; [done|];
             split; [done|apply fresh_not_elem]].
    rewrite all_sections_new_root by done.
    rewrite filter_app, Hf. rewrite filter_cons_True by done. rewrite filter_nil.
    cbn. unfold get_root, section_by_path. cbn [path instance take].
    rewrite forest_at_root. cbn [sections set_sections].
    by rewrite list_lookup_middle.
  - assert (s0 ∈ all_sections db) as Hs0.
    { eapply (list_elem_of_filter (fun s => hierarchy s = hierarchy_pk self ∧ label s = "Root")).
      rewrite Hf. apply list_elem_of_here. }
    apply all_sections_elem in Hs0. destruct Hs0 as (n & Hn & Hs0).
    unfold get_root, section_by_path.
    destruct (path s0) as [|i q] eqn:Hp; [done|].
    cbn [take]. rewrite take_0, forest_at_root.
    cbn in Hn. destruct (sections db !! i) as [root|] eqn:Hi; [|done].
    intros [= <- <-]. split; [exact Hget0|by left].
  - case_decide; [done|]. intros [=].
Qed.

Lemma get_root_creates_once_witness :
  ∃ r db', Hierarchy_get_root demo_hierarchy demo_new_db = (Ok r, db')
           ∧ Hierarchy_get_root demo_hierarchy db' = (Ok r, db')
           ∧ sections db' = [MkNode 1 "Root" "" 1 []].
Proof.
  eexists _, _. split; [reflexivity|]. split; [|reflexivity].
  apply (get_root_creates_once demo_hierarchy demo_new_db). reflexivity.
Defined.

(** *** append_child *)

Lemma get_children_stored (db : DB) (p : list nat) (n : Node) :
  forest_at (sections db) p = Some n →
  get_children (instance p n) db
  = (Ok (imap (fun i c => instance (p ++ [i]) c) (node_children n)), db).
Proof. intros Hn. unfold get_children. unfold_M. cbn [path instance]. by rewrite Hn. Qed.

(** X4: [append_child] on a stored section returns a new section with a key
    no section had, the given label, the hierarchy of its parent and no
    child; its slug is the given one, or [slugify(label)] when that is
    empty.  Afterwards the children of the parent are the ones it had,
    in their order, followed by the new section. *)
Theorem append_child_is_last_child (db : DB) (p : list nat) (parent : Node)
    (l sl : string) :
  forest_at (sections db) p = Some parent →
  ∃ (c : SectionObj) (db' : DB) (cs : list SectionObj),
    Section_append_child (instance p parent) l sl db = (Ok c, db')
    ∧ get_children (instance p parent) db = (Ok cs, db)
    ∧ get_children (instance p parent) db' = (Ok (cs ++ [c]), db')
    ∧ label c = l
    ∧ slug c = (if String.eqb sl "" then slugify l else sl)
    ∧ hierarchy c = node_hierarchy parent
    ∧ is_leaf c = true
    ∧ path c = p ++ [length cs]
    ∧ (pk c ∉ pk <$> all_sections db).
Proof.
  intros Hp. unfold Section_append_child, add_child.
  cbn [path instance hierarchy]. rewrite Hp.
  eexists _, _, _. split; [done|].
  split; [by apply get_children_stored|].
  split.
  - unfold get_children. unfold_M. cbn [path instance sections set_sections].
    rewrite (forest_at_alter _ _ _ _ Hp). cbn [add_kid node_children].
    rewrite imap_app. cbn. by rewrite Nat.add_0_r.
  - repeat split; cbn.
    + by rewrite length_imap.
    + apply fresh_not_elem.
Qed.

Lemma append_child_is_last_child_witness :
  ∃ c db', Section_append_child demo_intro "New Page" "" demo_db = (Ok c, db')
           ∧ slug c = "new-page"
           ∧ get_children demo_intro db' = (Ok [demo_part_one; c], db').
Proof.
  destruct (append_child_is_last_child demo_db [0; 0]%nat
              (MkNode 2 "Intro" "intro" 1 [MkNode 3 "Part One" "part-one" 1 []])
              "New Page" "" eq_refl)
    as (c & db' & cs & Happ & Hcs & Hcs' & _ & Hslug & _).
  exists c, db'. split; [exact Happ|]. split; [rewrite Hslug; by vm_compute|].
  injection Hcs as <-. exact Hcs'.
Defined.

(** *** get_first_leaf *)

Lemma height_children (n c : Node) (j : nat) :
  node_children n !! j = Some c → (height c < height n)%nat.
Proof.
  destruct n as [k l sl h cs]. cbn. revert j.
  induction cs as [|c0 cs IH]; intros j Hj; [done|].
  destruct j as [|j]; cbn in *.
  - injection Hj as ->. lia.
  - specialize (IH j Hj). lia.
Qed.

Lemma first_leaf_of_kids (p : list nat) (c : Node) (cs : list Node) (x : SectionObj) :
  head (filter (fun s => is_leaf s = true) (tree_list (p ++ [0%nat]) c)) = Some x →
  head (filter (fun s => is_leaf s = true) (kids_list p 0 (c :: cs))) = Some x.
Proof.
  cbn. rewrite filter_app.
  destruct (filter _ (tree_list (p ++ [0%nat]) c)) as [|y ys]; [done|]. done.
Qed.

Lemma Section_get_first_leaf_stored (db : DB) (fuel : nat) :
  ∀ (p : list nat) (n : Node),
    forest_at (sections db) p = Some n → (height n ≤ fuel)%nat →
    ∃ x, Section_get_first_leaf fuel (instance p n) db = (Ok x, db)
         ∧ head (filter (fun s => is_leaf s = true) (tree_list p n)) = Some x.
Proof.
  induction fuel as [|fuel IH]; intros p n Hn Hfuel.
  - destruct n as [k l sl h [|c cs]]; [|cbn in Hfuel; lia].
    exists (instance p (MkNode k l sl h [])). by cbn.
  - destruct (node_children n) as [|c cs] eqn:Hcs.
    + assert (is_leaf (instance p n) = true) as Hleaf.
      { unfold is_leaf. cbn. by rewrite Hcs. }
      exists (instance p n). split.
      * cbn [Section_get_first_leaf]. by rewrite Hleaf.
      * rewrite tree_list_unfold, Hcs. cbn [kids_list].
        by rewrite filter_cons_True.
    + assert (forest_at (sections db) (p ++ [0%nat]) = Some c) as Hc.
      { destruct p as [|i q]; [done|]. rewrite forest_at_snoc, Hn, Hcs. done. }
      destruct (IH (p ++ [0%nat]) c Hc) as (x & Hx & Hhead).
      { assert (height c < height n)%nat; [|lia].
        apply (height_children n c 0). by rewrite Hcs. }
      exists x. split.
      * cbn [Section_get_first_leaf]. unfold is_leaf at 1. cbn [numchild instance].
        rewrite Hcs. cbn [length Nat.eqb].
        unfold_M. rewrite (get_children_stored _ _ _ Hn), Hcs. cbn. exact Hx.
      * rewrite tree_list_unfold, Hcs.
        rewrite filter_cons_False.
        2:{ unfold is_leaf. cbn. rewrite Hcs. done. }
        by apply first_leaf_of_kids.
Qed.

Lemma Hierarchy_get_first_leaf_eq (fuel : nat) (self : Hierarchy) :
  ∀ section db,
    Hierarchy_get_first_leaf fuel self section db = Section_get_first_leaf fuel section db.
Proof.
  induction fuel as [|fuel IH]; intros section db; cbn; [done|].
  destruct (is_leaf section); [done|].
  unfold_M.
  destruct (get_children section db) as [[cs|e] db']; [|done].
  destruct (cs !! 0%nat); [|done]. by rewrite IH.
Qed.

(** X5: [Section.get_first_leaf] and [Hierarchy.get_first_leaf] on a stored
    section, with room for the nesting of its tree, return the same
    section and write nothing: the first leaf of the depth-first listing
    of the tree of the section. *)
Theorem get_first_leaf_is_first_leaf (db : DB) (fuel : nat) (self : Hierarchy)
    (p : list nat) (n : Node) :
  forest_at (sections db) p = Some n → (height n ≤ fuel)%nat →
  ∃ x, Section_get_first_leaf fuel (instance p n) db = (Ok x, db)
       ∧ Hierarchy_get_first_leaf fuel self (instance p n) db = (Ok x, db)
       ∧ is_leaf x = true
       ∧ head (filter (fun s => is_leaf s = true) (tree_list p n)) = Some x.
Proof.
  intros Hn Hfuel.
  destruct (Section_get_first_leaf_stored db fuel p n Hn Hfuel) as (x & Hx & Hhead).
  exists x. split; [done|]. split; [by rewrite Hierarchy_get_first_leaf_eq|].
  split; [|done].
  apply head_Some_elem_of in Hhead.
  by apply list_elem_of_filter in Hhead as [? _].
Qed.

Lemma get_first_leaf_is_first_leaf_witness :
  Section_get_first_leaf 2 demo_root demo_db = (Ok demo_part_one, demo_db)
  ∧ Hierarchy_get_first_leaf 2 demo_hierarchy demo_root demo_db
    = (Ok demo_part_one, demo_db).
Proof.
  destruct (get_first_leaf_is_first_leaf demo_db 2 demo_hierarchy [0%nat] demo_tree eq_refl)
    as (x & Hx & Hy & _ & Hhead); [cbn; lia|].
  vm_compute in Hhead. injection Hhead as <-. exact (conj Hx Hy).
Defined.

(** *** get_module *)

Lemma forest_at_take (t : list Node) (p : list nat) (n : Node) (k : nat) :
  forest_at t p = Some n → (1 ≤ k)%nat → is_Some (forest_at t (take k p)).
Proof.
  intros Hn Hk. destruct p as [|i q]; [done|].
  destruct k as [|k]; [lia|]. cbn in *.
  destruct (t !! i) as [r|]; [|done].
  clear Hk. revert r k Hn. induction q as [|j q IH]; intros r k Hn.
  - by destruct k.
  - destruct k as [|k]; [done|]. cbn in *.
    destruct (node_children r !! j) as [c|]; [|done]. by apply IH.
Qed.

Lemma omap_total {A B : Type} (f : A → option B) (g : A → B) (l : list A) :
  (∀ x, x ∈ l → f x = Some (g x)) → omap f l = g <$> l.
Proof.
  induction l as [|a l IH]; intros Hf; [done|].
  cbn. rewrite (Hf a) by apply list_elem_of_here. cbn. f_equal.
  apply IH. intros x Hx. apply Hf. by apply list_elem_of_further.
Qed.

Lemma ancestors_lookup (t : list Node) (p : list nat) (n : Node) (j : nat) :
  forest_at t p = Some n → (j < length p - 1)%nat →
  ∃ m, forest_at t (take (S j) p) = Some m
       ∧ omap (fun k => instance (take k p) <$> forest_at t (take k p))
              (seq 1 (length p - 1)) !! j
         = Some (instance (take (S j) p) m).
Proof.
  intros Hn Hj.
  destruct (forest_at_take t p n (S j) Hn) as [m Hm]; [lia|].
  exists m. split; [done|].
  assert (omap (fun k => instance (take k p) <$> forest_at t (take k p))
               (seq 1 (length p - 1))
          = (fun k => match forest_at t (take k p) with
                      | Some a => instance (take k p) a
                      | None => instance p n
                      end) <$> seq 1 (length p - 1)) as ->.
  { apply omap_total. intros k Hk. apply elem_of_seq in Hk.
    destruct (forest_at_take t p n k Hn) as [x Hx]; [lia|]. by rewrite Hx. }
  rewrite list_lookup_fmap, lookup_seq_lt by done. cbn. by rewrite Hm.
Qed.

(** X6: [get_module] on a stored section: [None] for a root; otherwise the
    stored section whose path is the first two steps of the path of the
    section, that is the section itself or its ancestor directly below
    the root. *)
Theorem get_module_is_top_level (db : DB) (p : list nat) (n : Node) :
  forest_at (sections db) p = Some n →
  if (length p =? 1)%nat
  then Section_get_module (instance p n) db = (Ok None, db)
  else ∃ m, forest_at (sections db) (take 2 p) = Some m
            ∧ Section_get_module (instance p n) db
              = (Ok (Some (instance (take 2 p) m)), db).
Proof.
  intros Hn. unfold Section_get_module, is_root, depth. cbn [path instance].
  destruct (length p =? 1)%nat eqn:H1; [done|].
  apply Nat.eqb_neq in H1.
  assert (2 ≤ length p)%nat as Hlen.
  { destruct p as [|i [|j q]]; cbn in *; [done|lia|lia]. }
  destruct (length p =? 2)%nat eqn:H2.
  - apply Nat.eqb_eq in H2. exists n. rewrite take_ge by lia. done.
  - apply Nat.eqb_neq in H2.
    destruct (ancestors_lookup (sections db) p n 1 Hn) as (m & Hm & Hlook); [lia|].
    exists m. split; [done|].
    unfold get_ancestors, depth. unfold_M. cbn [path instance].
    by rewrite Hlook.
Qed.

Lemma get_module_is_top_level_witness :
  Section_get_module demo_part_one demo_db = (Ok (Some demo_intro), demo_db).
Proof.
  pose proof (get_module_is_top_level demo_db [0; 0; 0]%nat
                (MkNode 3 "Part One" "part-one" 1 []) eq_refl) as H.
  cbn [length Nat.eqb] in H. destruct H as (m & Hm & Hget).
  vm_compute in Hm. injection Hm as <-. exact Hget.
Defined.

(** *** What a visit leaves behind *)

Lemma get_user_location_stored (self : Hierarchy) (u : Z) (r : UserLocation) (db : DB) :
  user_state_ok db → r ∈ userlocations db → ul_key r = (u, hierarchy_pk self) →
  Hierarchy_get_user_location self (AuthUser u) db = (Ok (ul_path r), db).
Proof.
  intros (_ & Hkeys & _) Hr Hkey.
  unfold Hierarchy_get_user_location. cbn [is_anonymous]. unfold_M.
  destruct (UserLocation_get_or_create_cases u self db Hkeys)
    as [(r0 & -> & Hr0 & Hk0)|(r0 & _ & _ & _ & _ & Hnew)].
  - by rewrite (NoDup_fmap_eq ul_key _ r0 r Hkeys Hr0 Hr) by congruence.
  - exfalso. apply Hnew. rewrite <- Hkey. by apply list_elem_of_fmap_2.
Qed.

(** X7: After [Hierarchy.user_visit(user, section)] for an authenticated
    user, where keys are unique and each (user, hierarchy) has at most
    one location, [get_user_location(user)] returns the URL of the section
    and writes nothing more. *)
Theorem user_visit_then_get_user_location (self : Hierarchy) (u : Z)
    (section : SectionObj) (url : string) (db : DB) :
  user_state_ok db →
  Section_get_absolute_url section db = (Ok url, db) →
  ∃ db', Hierarchy_user_visit self (AuthUser u) section db = (Ok tt, db')
         ∧ Hierarchy_get_user_location self (AuthUser u) db' = (Ok url, db').
Proof.
  intros Hok Hurl.
  destruct (Hierarchy_user_visit_upsert self (AuthUser u) section db Hok)
    as (Hok' & _ & Hrow).
  destruct (Hrow u url eq_refl Hurl) as (Hfst & r & Hr & Hkey & Hpath).
  destruct (Hierarchy_user_visit self (AuthUser u) section db) as [res db'] eqn:Hvisit.
  cbn in *. subst res. exists db'. split; [done|].
  rewrite <- Hpath. by apply get_user_location_stored.
Qed.

Lemma user_visit_then_get_user_location_witness :
  ∃ db', Hierarchy_user_visit demo_hierarchy (AuthUser 7) demo_part_one demo_visited_db
         = (Ok tt, db')
         ∧ Hierarchy_get_user_location demo_hierarchy (AuthUser 7) db'
           = (Ok "/intro/part-one/", db').
Proof.
  apply (user_visit_then_get_user_location demo_hierarchy 7 demo_part_one
           "/intro/part-one/" demo_visited_db demo_visited_db_ok).
  reflexivity.
Defined.

Lemma get_uservisit_stored (self : SectionObj) (u : Z) (r : UserPageVisit) (db : DB) :
  user_state_ok db → r ∈ userpagevisits db → upv_key r = (u, pk self) →
  Section_get_uservisit self (AuthUser u) db = (Ok (Some r), db).
Proof.
  intros (_ & _ & _ & Hkeys) Hr Hkey.
  unfold Section_get_uservisit. unfold_M.
  destruct (filter_by_key upv_key
              (fun r => upv_section r = pk self ∧ upv_user r = u)
              (u, pk self) (userpagevisits db)) as [[_ Hno]|(r0 & -> & Hr0 & Hk0)].
  - intros x. unfold upv_key. split; [by intros [-> ->]|by intros [= -> ->]].
  - done.
  - exfalso. apply Hno. rewrite <- Hkey. by apply list_elem_of_fmap_2.
  - cbn. by rewrite (NoDup_fmap_eq upv_key _ r0 r Hkeys Hr0 Hr) by congruence.
Qed.

Lemma UserPageVisit_save_row (r r' : UserPageVisit) (db : DB) :
  r ∈ userpagevisits db → upv_pk r' = upv_pk r →
  {| upv_pk := upv_pk r'; upv_user := upv_user r'; upv_section := upv_section r';
     status := status r'; first_visit := first_visit r'; last_visit := now db |}
  ∈ userpagevisits (snd (UserPageVisit_save r' db)).
Proof.
  intros Hr Hpk.
  rewrite UserPageVisit_save_eq by (rewrite Hpk; by apply list_elem_of_fmap_2).
  cbn. apply list_elem_of_fmap. exists r. split; [|done].
  by rewrite bool_decide_eq_true_2.
Qed.

(** The row that [user_pagevisit] leaves: the visit there was, with the
    new status and time of last visit, or a new one. *)
Lemma Section_user_pagevisit_row (self : SectionObj) (u : Z) (st : string) (db : DB) :
  user_state_ok db →
  ∃ r0, {| upv_pk := upv_pk r0; upv_user := u; upv_section := pk self; status := st;
           first_visit := first_visit r0; last_visit := now db |}
        ∈ userpagevisits (snd (Section_user_pagevisit self (AuthUser u) st db))
        ∧ ((r0 ∈ userpagevisits db ∧ upv_key r0 = (u, pk self))
           ∨ (((u, pk self) ∉ upv_key <$> userpagevisits db)
              ∧ first_visit r0 = now db
              ∧ (upv_pk r0 ∉ upv_pk <$> userpagevisits db))).
Proof.
  intros Hok. unfold Section_user_pagevisit. unfold_M.
  destruct (UserPageVisit_get_or_create_cases u self db) as
    [(r & -> & Hr & Hk)|(r & Hcreate & Hpk & Hk & Hnew)]; [apply Hok|..].
  - exists r. split; [|by left].
    unfold upv_key in Hk. injection Hk as Hu Hs. rewrite <- Hu, <- Hs.
    exact (UserPageVisit_save_row r (with_status r st) db Hr eq_refl).
  - rewrite Hcreate.
    assert (first_visit r = now db) as Hfirst.
    { revert Hcreate. unfold UserPageVisit_get_or_create.
      destruct (filter _ (userpagevisits db)) as [|x [|y rows]]; [|done..].
      by intros [= <-]. }
    exists r. split.
    + unfold upv_key in Hk. injection Hk as Hu Hs. rewrite <- Hu, <- Hs.
      apply (UserPageVisit_save_row r (with_status r st)
               (set_userpagevisits (fun t => t ++ [r]) db)); [|done].
      apply elem_of_app. right. apply list_elem_of_here.
    + right. split; [done|]. split; [done|]. rewrite Hpk. apply fresh_not_elem.
Qed.

(** X8: [get_uservisit] returns [None] for a user without a visit of the
    section.  After [user_pagevisit(user, status)], where keys are unique
    and each (user, section) has at most one visit, it returns the visit
    of that user and section, with that status and the present time as
    time of the last visit; the key and the time of the first visit are
    those of the visit there was, and without one the first visit is the
    present time. *)
Theorem user_pagevisit_then_get_uservisit (self : SectionObj) (u : Z) (st : string)
    (db : DB) :
  user_state_ok db →
  ((u, pk self) ∉ upv_key <$> userpagevisits db →
   Section_get_uservisit self (AuthUser u) db = (Ok None, db))
  ∧ ∃ db' r, Section_user_pagevisit self (AuthUser u) st db = (Ok tt, db')
             ∧ Section_get_uservisit self (AuthUser u) db' = (Ok (Some r), db')
             ∧ upv_user r = u ∧ upv_section r = pk self ∧ status r = st
             ∧ last_visit r = now db
             ∧ ((∃ r0, r0 ∈ userpagevisits db ∧ upv_key r0 = (u, pk self)
                       ∧ upv_pk r = upv_pk r0 ∧ first_visit r = first_visit r0)
                ∨ (((u, pk self) ∉ upv_key <$> userpagevisits db)
                   ∧ first_visit r = now db)).
Proof.
  intros Hok. split.
  - intros Hno. unfold Section_get_uservisit. unfold_M.
    destruct (filter _ (userpagevisits db)) as [|r rows] eqn:Hf; [done|].
    exfalso. apply Hno.
    assert (r ∈ filter (fun r => upv_section r = pk self ∧ upv_user r = u)
                       (userpagevisits db)) as Hr by (rewrite Hf; apply list_elem_of_here).
    apply list_elem_of_filter in Hr as [[Hs Hu] Hr].
    apply list_elem_of_fmap. exists r. split; [|done]. unfold upv_key. by rewrite Hs, Hu.
  - destruct (Section_user_pagevisit_upsert self (AuthUser u) st db Hok)
      as (Hok' & _ & Hrow).
    destruct (Hrow u eq_refl) as (Hfst & _).
    destruct (Section_user_pagevisit_row self u st db Hok) as (r0 & Hr & Hcases).
    destruct (Section_user_pagevisit self (AuthUser u) st db) as [res db'] eqn:Hvisit.
    cbn [fst snd] in Hok', Hfst, Hr. subst res. eexists db', _. split; [done|].
    split; [by apply (get_uservisit_stored self u _ db' Hok' Hr)|].
    cbn. repeat (split; [done|]).
    destruct Hcases as [[H1 H2]|(H1 & H2 & _)]; [left; by exists r0|by right].
Qed.

Lemma user_pagevisit_then_get_uservisit_witness :
  ∃ db' r, Section_user_pagevisit demo_intro (AuthUser 7) "incomplete" demo_visited_db
           = (Ok tt, db')
           ∧ Section_get_uservisit demo_intro (AuthUser 7) db' = (Ok (Some r), db')
           ∧ status r = "incomplete" ∧ first_visit r = 0%nat.
Proof.
  destruct (user_pagevisit_then_get_uservisit demo_intro 7 "incomplete" demo_visited_db
              demo_visited_db_ok)
    as (_ & db' & r & H1 & H2 & _ & _ & H3 & _ & Hfirst).
  exists db', r. split; [exact H1|]. split; [exact H2|]. split; [exact H3|].
  destruct Hfirst as [(r0 & Hr0 & _ & _ & ->)|[Hno _]].
  - apply list_elem_of_singleton in Hr0 as ->. reflexivity.
  - exfalso. apply Hno. left.
Defined.

(** *** Paths resolve to the section they were made from *)

Lemma split_no_slash (s : string) : no_slash s = true → split "/" s = [s].
Proof.
  induction s as [|c s IH]; [done|].
  cbn [no_slash split]. intros [Hc Hs]%andb_prop.
  apply negb_true_iff in Hc. rewrite Hc, (IH Hs). done.
Qed.

Lemma split_app_slash (s t : string) :
  no_slash s = true → split "/" (s +:+ "/" +:+ t) = s :: split "/" t.
Proof.
  induction s as [|c s IH]; [done|].
  cbn [no_slash]. intros [Hc Hs]%andb_prop. apply negb_true_iff in Hc.
  change (String c s +:+ "/" +:+ t) with (String c (s +:+ "/" +:+ t)).
  cbn [split]. rewrite Hc, (IH Hs). done.
Qed.

Lemma split_join_slash (ss : list string) :
  ss ≠ [] → Forall (fun s => no_slash s = true) ss → split "/" (join_slash ss) = ss.
Proof.
  induction ss as [|s ss IH]; [done|]. intros _ Hall.
  apply Forall_cons in Hall as [Hs Hall].
  destruct ss as [|s' ss].
  - by apply split_no_slash.
  - cbn [join_slash]. rewrite split_app_slash by done. f_equal. by apply IH.
Qed.

Lemma slash_each_join (ss : list string) :
  ss ≠ [] → slash_each ss = join_slash ss +:+ "/".
Proof.
  induction ss as [|s ss IH]; [done|]. intros _.
  destruct ss as [|s' ss].
  - cbn. done.
  - change (slash_each (s :: s' :: ss)) with (s +:+ "/" +:+ slash_each (s' :: ss)).
    rewrite IH by done. cbn [join_slash]. by rewrite !append_assoc.
Qed.

Lemma append_empty (a b : string) : a +:+ b = "" → a = "".
Proof. by destruct a. Qed.

Lemma join_slash_empty (ss : list string) : join_slash ss = "" → ss = [] ∨ ss = [""].
Proof.
  destruct ss as [|s [|s' ss]]; [by left| |].
  - cbn. intros ->. by right.
  - cbn [join_slash]. by destruct s.
Qed.

Lemma slash_each_snoc (ss : list string) (s : string) :
  slash_each (ss ++ [s]) = slash_each ss +:+ s +:+ "/".
Proof.
  induction ss as [|a ss IH]; [done|].
  change (slash_each ((a :: ss) ++ [s])) with (a +:+ "/" +:+ slash_each (ss ++ [s])).
  rewrite IH. change (slash_each (a :: ss)) with (a +:+ "/" +:+ slash_each ss).
  by rewrite !append_assoc.
Qed.

Lemma path_slugs_snoc (q : list nat) (j : nat) :
  ∀ (r m c : Node),
    node_at q r = Some m → node_children m !! j = Some c →
    path_slugs (q ++ [j]) r = path_slugs q r ++ [node_slug c].
Proof.
  induction q as [|k q IH]; intros r m c Hm Hc; cbn in *.
  - injection Hm as ->. by rewrite Hc.
  - destruct (node_children r !! k) as [x|]; [|done]. cbn. f_equal. by eapply IH.
Qed.

Lemma path_slugs_length (q : list nat) :
  ∀ (r m : Node), node_at q r = Some m → length (path_slugs q r) = length q.
Proof.
  induction q as [|k q IH]; intros r m Hm; cbn in *; [done|].
  destruct (node_children r !! k) as [x|]; [|done]. cbn. f_equal. by eapply IH.
Qed.

(** The URL of a stored section, slug by slug. *)
Lemma get_absolute_url_slugs (db : DB) (i : nat) (root : Node) (h : Hierarchy)
    (q : list nat) (n : Node) :
  sections db !! i = Some root →
  filter (fun x => hierarchy_pk x = node_hierarchy root) (hierarchies db) = [h] →
  node_at q root = Some n →
  Section_get_absolute_url (instance (i :: q) n) db
  = (Ok (base_url h +:+ slash_each (path_slugs q root)), db).
Proof.
  intros Hroot Hh. unfold Section_get_absolute_url, depth. cbn [path instance].
  revert n. induction q as [|j q IH] using rev_ind; intros n Hn.
  - cbn in Hn. injection Hn as <-.
    cbn. unfold Section_hierarchy. unfold_M. cbn. rewrite Hh. cbn.
    by rewrite append_empty_r.
  - rewrite node_at_snoc in Hn.
    destruct (node_at q root) as [m|] eqn:Hm; [|done].
    rewrite (path_slugs_snoc q j root m n Hm Hn), slash_each_snoc, <- append_assoc.
    specialize (IH m eq_refl).
    change (i :: q ++ [j]) with ((i :: q) ++ [j]).
    assert (is_root (instance ((i :: q) ++ [j]) n) = false) as Hnr.
    { unfold is_root, depth. cbn. rewrite length_app. cbn.
      apply Nat.eqb_neq. lia. }
    replace (length ((i :: q) ++ [j])) with (S (length (i :: q)))
      by (rewrite length_app; cbn; lia).
    set (fuel := length (i :: q)) in *.
    cbn [get_absolute_url_rec]. rewrite Hnr.
    unfold get_parent, depth. cbn [path instance].
    replace (length ((i :: q) ++ [j]) <=? 1)%nat with false
      by (symmetry; apply Nat.leb_gt; rewrite length_app; cbn; lia).
    rewrite removelast_last. unfold section_by_path. unfold_M.
    cbn [forest_at]. rewrite Hroot, Hm, IH. reflexivity.
Qed.

(** The dictionary of slugs that [find_section_from_path] builds holds,
    under a slug, the last child with that slug. *)
Lemma slugs_dict_lookup (cs : list SectionObj) (j : nat) (c : SectionObj)
    (m0 : gmap string SectionObj) :
  cs !! j = Some c →
  (∀ j' c', (j < j')%nat → cs !! j' = Some c' → slug c' ≠ slug c) →
  foldl (fun m x => <[slug x := x]> m) m0 cs !! slug c = Some c.
Proof.
  induction cs as [|x cs IH] using rev_ind; intros Hj Hlater; [done|].
  rewrite foldl_app. cbn [foldl].
  destruct (decide (j = length cs)) as [->|Hne].
  - rewrite list_lookup_middle in Hj by done. injection Hj as ->.
    apply lookup_insert_eq.
  - assert (j < length cs)%nat as Hlt.
    { apply lookup_lt_Some in Hj. rewrite length_app in Hj. cbn in Hj. lia. }
    rewrite lookup_app_l in Hj by done.
    rewrite lookup_insert_ne.
    + apply IH; [done|]. intros j' c' Hj' Hc'. apply (Hlater j' c' Hj').
      rewrite lookup_app_l; [done|]. by apply lookup_lt_Some in Hc'.
    + apply (Hlater (length cs) x Hlt). by rewrite list_lookup_middle.
Qed.

Lemma find_section_loop_path (db : DB) (q : list nat) :
  ∀ (p : list nat) (m n : Node),
    forest_at (sections db) p = Some m → node_at q m = Some n → resolves q m →
    find_section_loop (path_slugs q m) (instance p m) db
    = (Ok (Some (instance (p ++ q) n)), db).
Proof.
  induction q as [|j q IH]; intros p m n Hm Hn Hres.
  - cbn in Hn. injection Hn as ->. cbn. by rewrite app_nil_r.
  - cbn in Hn, Hres |- *.
    destruct (node_children m !! j) as [c|] eqn:Hc; [|done].
    destruct Hres as (_ & Hlater & Hres).
    cbn [find_section_loop]. unfold_M. rewrite (get_children_stored _ _ _ Hm).
    change (node_slug c) with (slug (instance (p ++ [j]) c)).
    rewrite (slugs_dict_lookup _ j).
    + replace (p ++ j :: q) with ((p ++ [j]) ++ q) by by rewrite <- app_assoc.
      apply IH; [|done|done].
      destruct p as [|i p']; [done|]. by rewrite forest_at_snoc, Hm.
    + by rewrite list_lookup_imap, Hc.
    + intros j' c' Hj'. rewrite list_lookup_imap.
      destruct (node_children m !! j') as [x|] eqn:Hx; [|done].
      cbn. intros [= <-]. cbn.
      rewrite Forall_lookup in Hlater. apply (Hlater (j' - S j)%nat x).
      rewrite lookup_drop. by replace (S j + (j' - S j))%nat with j' by lia.
Qed.

Lemma Hierarchy_get_root_found (self : Hierarchy) (db : DB) (i : nat) (root : Node) :
  sections db !! i = Some root →
  filter (fun s => hierarchy s = hierarchy_pk self ∧ label s = "Root") (all_sections db)
  = [instance [i] root] →
  Hierarchy_get_root self db = (Ok (instance [i] root), db).
Proof.
  intros Hroot Hf. unfold Hierarchy_get_root, try_except. unfold_M.
  rewrite Hf. cbn. unfold get_root, section_by_path. cbn [path instance take].
  by rewrite forest_at_root, Hroot.
Qed.

Lemma find_section_from_path_slugs (self : Hierarchy) (db : DB) (i : nat) (root : Node)
    (q : list nat) (n : Node) :
  sections db !! i = Some root →
  filter (fun s => hierarchy s = hierarchy_pk self ∧ label s = "Root") (all_sections db)
  = [instance [i] root] →
  node_at q root = Some n → resolves q root → path_slugs q root ≠ [""] →
  Hierarchy_find_section_from_path self (slash_each (path_slugs q root)) db
  = (Ok (Some (instance (i :: q) n)), db).
Proof.
  intros Hroot Hf Hn Hres Hne.
  unfold Hierarchy_find_section_from_path. unfold_M.
  rewrite (Hierarchy_get_root_found self db i root Hroot Hf).
  destruct (path_slugs q root) as [|s ss] eqn:Hss.
  - assert (q = []) as ->.
    { apply (path_slugs_length q root n) in Hn. rewrite Hss in Hn.
      by destruct q. }
    cbn in Hn. injection Hn as ->. done.
  - rewrite slash_each_join by done.
    rewrite endswith_append_slash, drop_last_append_slash.
    destruct (String.eqb (join_slash (s :: ss)) "") eqn:Hempty.
    + apply String.eqb_eq in Hempty. by apply join_slash_empty in Hempty as [?|?].
    + rewrite split_join_slash; [|done|].
      * rewrite <- Hss.
        by apply (find_section_loop_path db q [i] root n); [rewrite forest_at_root|..].
      * rewrite <- Hss. clear Hss Hne Hempty Hn Hroot Hf. revert root Hres.
        induction q as [|j q IH]; intros r Hres; cbn in *; [done|].
        destruct (node_children r !! j) as [c|]; [|done].
        destruct Hres as (Hc & _ & Hres). apply Forall_cons. split; [done|]. by apply IH.
Qed.

(** X9: [find_section_from_path(section.get_path())] returns the section:
    for a stored section of a hierarchy whose [base_url] is one character
    long (as "/" is) and whose only section labelled "Root" is the root of
    the tree of the section, when on the way from the root every slug is
    without a slash and not the slug of a later sibling, and the section is
    not a child of the root with an empty slug. *)
Theorem get_path_resolves (self : Hierarchy) (db : DB) (i : nat) (root : Node)
    (q : list nat) (n : Node) :
  filter (fun x => hierarchy_pk x = hierarchy_pk self) (hierarchies db) = [self] →
  String.length (base_url self) = 1%nat →
  sections db !! i = Some root →
  filter (fun s => hierarchy s = hierarchy_pk self ∧ label s = "Root") (all_sections db)
  = [instance [i] root] →
  node_at q root = Some n → resolves q root → path_slugs q root ≠ [""] →
  ∃ u, Section_get_path (instance (i :: q) n) db = (Ok u, db)
       ∧ Hierarchy_find_section_from_path self u db
         = (Ok (Some (instance (i :: q) n)), db).
Proof.
  intros Hself Hbase Hroot Hf Hn Hres Hne.
  assert (node_hierarchy root = hierarchy_pk self) as Hh.
  { assert (instance [i] root
            ∈ filter (fun s => hierarchy s = hierarchy_pk self ∧ label s = "Root")
                     (all_sections db)) as Hin by (rewrite Hf; apply list_elem_of_here).
    by apply list_elem_of_filter in Hin as [[? _] _]. }
  exists (slash_each (path_slugs q root)). split.
  - unfold Section_get_path. unfold_M.
    rewrite (get_absolute_url_slugs db i root self q n Hroot); [|by rewrite Hh|done].
    do 2 f_equal. rewrite <- Hbase. apply slice_from_append.
  - by apply find_section_from_path_slugs.
Qed.

Lemma get_path_resolves_witness :
  ∃ u, Section_get_path demo_part_one demo_db = (Ok u, demo_db)
       ∧ Hierarchy_find_section_from_path demo_hierarchy u demo_db
         = (Ok (Some demo_part_one), demo_db).
Proof.
  apply (get_path_resolves demo_hierarchy demo_db 0 demo_tree [0; 0]%nat
           (MkNode 3 "Part One" "part-one" 1 [])).
  - reflexivity.
  - reflexivity.
  - reflexivity.
  - reflexivity.
  - reflexivity.
  - exact demo_tree_resolves.
  - discriminate.
Defined.

Lemma Hierarchy_user_visit_frame (self : Hierarchy) (user : User) (section : SectionObj)
    (db : DB) :
  sections (snd (Hierarchy_user_visit self user section db)) = sections db
  ∧ hierarchies (snd (Hierarchy_user_visit self user section db)) = hierarchies db.
Proof.
  unfold Hierarchy_user_visit. unfold_M.
  pose proof (Section_get_absolute_url_reads section db) as Hreads.
  destruct (Section_get_absolute_url section db) as [[url|e] db1]; cbn in Hreads;
    subst db1; [|done].
  unfold UserLocation_get_or_create.
  destruct user as [|u]; [done|].
  destruct (filter _ (userlocations db)) as [|r [|r' rows]]; cbn; done.
Qed.

(** X10: After [Hierarchy.user_visit(user, section)] for an authenticated
    user, [get_user_section(user)] returns the section, under the
    conditions of the round trip between [get_path] and
    [find_section_from_path] and where keys are unique with at most one
    location for each (user, hierarchy). *)
Theorem user_visit_then_get_user_section (self : Hierarchy) (u : Z) (db : DB) (i : nat)
    (root : Node) (q : list nat) (n : Node) :
  user_state_ok db →
  filter (fun x => hierarchy_pk x = hierarchy_pk self) (hierarchies db) = [self] →
  String.length (base_url self) = 1%nat →
  sections db !! i = Some root →
  filter (fun s => hierarchy s = hierarchy_pk self ∧ label s = "Root") (all_sections db)
  = [instance [i] root] →
  node_at q root = Some n → resolves q root → path_slugs q root ≠ [""] →
  ∃ db', Hierarchy_user_visit self (AuthUser u) (instance (i :: q) n) db = (Ok tt, db')
         ∧ Hierarchy_get_user_section self (AuthUser u) db'
           = (Ok (Some (instance (i :: q) n)), db').
Proof.
  intros Hok Hself Hbase Hroot Hf Hn Hres Hne.
  assert (node_hierarchy root = hierarchy_pk self) as Hh.
  { assert (instance [i] root
            ∈ filter (fun s => hierarchy s = hierarchy_pk self ∧ label s = "Root")
                     (all_sections db)) as Hin by (rewrite Hf; apply list_elem_of_here).
    by apply list_elem_of_filter in Hin as [[? _] _]. }
  pose proof (get_absolute_url_slugs db i root self q n Hroot) as Hurl.
  rewrite Hh in Hurl. specialize (Hurl Hself Hn).
  destruct (Hierarchy_user_visit_upsert self (AuthUser u) (instance (i :: q) n) db Hok)
    as (Hok' & _ & Hrow).
  destruct (Hrow u _ eq_refl Hurl) as (Hfst & r & Hr & Hkey & Hpath).
  destruct (Hierarchy_user_visit_frame self (AuthUser u) (instance (i :: q) n) db)
    as [Hsec Hhier].
  destruct (Hierarchy_user_visit self (AuthUser u) (instance (i :: q) n) db)
    as [res db'] eqn:Hvisit.
  cbn [fst snd] in Hok', Hfst, Hr, Hsec, Hhier. subst res. exists db'. split; [done|].
  unfold Hierarchy_get_user_section, mbind, M_bind, bind.
  rewrite (get_user_location_stored self u r db' Hok' Hr Hkey), Hpath.
  replace (slice_from 1 (base_url self +:+ slash_each (path_slugs q root)))
    with (slash_each (path_slugs q root))
    by (rewrite <- Hbase; symmetry; apply slice_from_append).
  apply find_section_from_path_slugs; try done.
  - by rewrite Hsec.
  - unfold all_sections. rewrite Hsec. exact Hf.
Qed.

Lemma user_visit_then_get_user_section_witness :
  ∃ db', Hierarchy_user_visit demo_hierarchy (AuthUser 7) demo_part_one demo_visited_db
         = (Ok tt, db')
         ∧ Hierarchy_get_user_section demo_hierarchy (AuthUser 7) db'
           = (Ok (Some demo_part_one), db').
Proof.
  apply (user_visit_then_get_user_section demo_hierarchy 7 demo_visited_db 0 demo_tree
           [0; 0]%nat (MkNode 3 "Part One" "part-one" 1 [])).
  - exact demo_visited_db_ok.
  - reflexivity.
  - reflexivity.
  - reflexivity.
  - reflexivity.
  - reflexivity.
  - exact demo_tree_resolves.
  - discriminate.
Defined.

(** *** The order of the pageblocks of a section *)

Lemma position_Some (ids : list Z) (id : Z) (k : nat) :
  position ids id = Some k → ids !! k = Some id.
Proof.
  unfold position. destruct (list_find _ ids) as [[k' x]|] eqn:Hfind; [|done].
  cbn. intros [= <-]. apply list_find_Some in Hfind as (Hk & -> & _). done.
Qed.

Lemma set_pageblocks_id (db : DB) (f : list PageBlock → list PageBlock) :
  f (pageblocks db) = pageblocks db → set_pageblocks f db = db.
Proof. intros Hf. unfold set_pageblocks. rewrite Hf. by destruct db. Qed.

Lemma filter_section_reorder (start : nat) (ids : list Z) (t : list PageBlock) (s : Z) :
  filter (fun p => pb_section p = s) (reorder start ids <$> t)
  = reorder start ids <$> filter (fun p => pb_section p = s) t.
Proof.
  apply filter_fmap_keeps. intros x _.
  by destruct (reorder_keeps start ids x) as [_ ->].
Qed.

(** After the rows named by [ids], the keys of the pageblocks of a
    section, were given the ordinalities 1, 2, ... in that order, the
    pageblocks of the section come in the order of [ids]. *)
Lemma reorder_sets_order (ids : list Z) (s : Z) (db : DB) :
  NoDup (pb_pk <$> pageblocks db) →
  ids ≡ₚ pb_pk <$> filter (fun p => pb_section p = s) (pageblocks db) →
  pb_pk <$> pageblock_set (set_pageblocks (fmap (reorder 1 ids)) db) s = ids
  ∧ ordinality <$> pageblock_set (set_pageblocks (fmap (reorder 1 ids)) db) s
    = seq 1 (length ids).
Proof.
  intros Hnd Hids.
  assert (NoDup ids) as Hndi by (rewrite Hids; by apply NoDup_fmap_filter).
  destruct (reorder_ordinalities 1 ids (pageblocks db) s Hnd Hids)
    as (_ & Hord & Hlen & _).
  set (db' := set_pageblocks (fmap (reorder 1 ids)) db).
  assert (ordinality <$> pageblock_set db' s = seq 1 (length ids)) as Hseq.
  { apply (Sorted_unique le).
    - apply order_by_ordinality_sorted.
    - apply seq_sorted.
    - unfold pageblock_set. rewrite order_by_ordinality_perm. cbn.
      rewrite Hord. pose proof (Permutation_length Hids) as Hl.
      rewrite length_fmap in Hl. by rewrite Hl. }
  split; [|done].
  assert (∀ x, x ∈ pageblock_set db' s →
               ∃ k, ids !! k = Some (pb_pk x) ∧ ordinality x = (1 + k)%nat) as Hrow.
  { intros x Hx. unfold pageblock_set in Hx. rewrite order_by_ordinality_perm in Hx.
    cbn in Hx. rewrite filter_section_reorder in Hx.
    apply list_elem_of_fmap in Hx as (y & -> & Hy).
    assert (pb_pk y ∈ ids) as Hin by (rewrite Hids; by apply list_elem_of_fmap_2).
    apply list_elem_of_lookup in Hin as [k Hk].
    exists k. unfold reorder. rewrite (position_lookup _ k _ Hndi Hk). by cbn. }
  apply list_eq. intros k.
  rewrite list_lookup_fmap.
  destruct (pageblock_set db' s !! k) as [x|] eqn:Hx; cbn.
  - destruct (Hrow x) as (k' & Hk' & Ho); [by eapply list_elem_of_lookup_2|].
    assert ((ordinality <$> pageblock_set db' s) !! k = Some (ordinality x)) as Hok
      by (by rewrite list_lookup_fmap, Hx).
    rewrite Hseq in Hok. apply lookup_seq in Hok as [Hok _].
    assert (k' = k) as -> by lia. done.
  - symmetry. apply lookup_ge_None. apply lookup_ge_None in Hx.
    rewrite <- (length_seq (length ids) 1), <- Hseq, length_fmap. done.
Qed.

(** X11: [update_pageblocks_order] with the keys of the pageblocks of the
    section, each once: afterwards the pageblocks of the section come in
    the order of [pageblock_ids], with the ordinalities 1..N. *)
Theorem update_pageblocks_order_sets_order (self : SectionObj) (pageblock_ids : list Z)
    (db : DB) :
  NoDup (pb_pk <$> pageblocks db) →
  pageblock_ids ≡ₚ pb_pk <$> pageblock_set db (pk self) →
  ∃ db', Section_update_pageblocks_order self pageblock_ids db = (Ok tt, db')
         ∧ pb_pk <$> pageblock_set db' (pk self) = pageblock_ids
         ∧ ordinality <$> pageblock_set db' (pk self) = seq 1 (length pageblock_ids).
Proof.
  intros Hnd Hids. rewrite pageblock_set_keys in Hids.
  assert (NoDup pageblock_ids) as Hndi by (rewrite Hids; by apply NoDup_fmap_filter).
  unfold Section_update_pageblocks_order.
  rewrite update_order_loop_eq; [|done|done|].
  2:{ intros id Hid. rewrite Hids in Hid.
      apply list_elem_of_fmap in Hid as (y & -> & Hy).
      apply list_elem_of_fmap_2. by apply list_elem_of_filter in Hy as [_ ?]. }
  eexists. split; [done|]. by apply reorder_sets_order.
Qed.

Lemma update_pageblocks_order_sets_order_witness :
  ∃ db', Section_update_pageblocks_order demo_intro [2%Z; 1%Z] demo_submit_db = (Ok tt, db')
         ∧ pb_pk <$> pageblock_set db' (pk demo_intro) = [2%Z; 1%Z]
         ∧ ordinality <$> pageblock_set db' (pk demo_intro) = seq 1 (length [2%Z; 1%Z]).
Proof.
  apply (update_pageblocks_order_sets_order demo_intro [2%Z; 1%Z] demo_submit_db).
  - exact (proj1 demo_submit_db_ok).
  - vm_compute. apply perm_swap.
Defined.




Lemma renumber_pageblocks_noop (self : SectionObj) (db : DB) :
  NoDup (pb_pk <$> pageblocks db) → contiguous db (pk self) →
  set_pageblocks (fmap (reorder 1 (pb_pk <$> pageblock_set db (pk self)))) db = db.
Proof.
  intros Hnd Hc.
  assert (∀ b, b ∈ pageblock_set db (pk self) → b ∈ pageblocks db) as Hsub.
  { intros b Hb. unfold pageblock_set in Hb. rewrite order_by_ordinality_perm in Hb.
    by apply list_elem_of_filter in Hb as [_ ?]. }
  apply set_pageblocks_id.
  rewrite <- (list_fmap_id (pageblocks db)) at 2.
  apply list_fmap_ext. intros j x Hx. cbn.
  apply list_elem_of_lookup_2 in Hx.
  unfold reorder.
  destruct (position (pb_pk <$> pageblock_set db (pk self)) (pb_pk x)) as [k|] eqn:Hk;
    [|done].
  apply position_Some in Hk. rewrite list_lookup_fmap in Hk.
  destruct (pageblock_set db (pk self) !! k) as [y|] eqn:Hy; [|done].
  cbn in Hk. injection Hk as Hk.
  assert (y = x) as ->.
  { apply (NoDup_fmap_eq pb_pk (pageblocks db)); [done| |done|done].
    apply Hsub. by eapply list_elem_of_lookup_2. }
  assert ((ordinality <$> pageblock_set db (pk self)) !! k = Some (ordinality x)) as Ho
    by (by rewrite list_lookup_fmap, Hy).
  rewrite Hc in Ho. apply lookup_seq in Ho as [Ho _].
  destruct x. cbn in *. unfold with_ordinality. cbn. by rewrite Ho.
Qed.

Lemma Section_renumber_pageblocks_eq (self : SectionObj) (db : DB) :
  NoDup (pb_pk <$> pageblocks db) →
  Section_renumber_pageblocks self db
  = (Ok tt, set_pageblocks (fmap (reorder 1 (pb_pk <$> pageblock_set db (pk self)))) db).
Proof.
  intros Hnd. unfold Section_renumber_pageblocks, pageblock_set_all. unfold_M.
  apply renumber_loop_eq; [done| |].
  - rewrite pageblock_set_keys. by apply NoDup_fmap_filter.
  - intros b Hb. unfold pageblock_set in Hb. rewrite order_by_ordinality_perm in Hb.
    by apply list_elem_of_filter in Hb as [_ ?].
Qed.

(** X13: [renumber_pageblocks], where the keys of the pageblocks are distinct:
    the pageblocks of the section keep their order and carry the
    ordinalities 1..N afterwards; a section whose pageblocks carried them
    already is not changed at all. *)
Theorem renumber_pageblocks_keeps_order (self : SectionObj) (db : DB) :
  NoDup (pb_pk <$> pageblocks db) →
  ∃ db', Section_renumber_pageblocks self db = (Ok tt, db')
         ∧ pb_pk <$> pageblock_set db' (pk self) = pb_pk <$> pageblock_set db (pk self)
         ∧ ordinality <$> pageblock_set db' (pk self)
           = seq 1 (length (pageblock_set db (pk self)))
         ∧ (contiguous db (pk self) → db' = db).
Proof.
  intros Hnd. rewrite Section_renumber_pageblocks_eq by done.
  eexists. split; [done|].
  destruct (reorder_sets_order (pb_pk <$> pageblock_set db (pk self)) (pk self) db Hnd)
    as [Hkeys Hord]; [apply pageblock_set_keys|].
  split; [done|]. split; [by rewrite Hord, length_fmap|].
  intros Hc. by apply renumber_pageblocks_noop.
Qed.

Lemma renumber_pageblocks_keeps_order_witness :
  Section_renumber_pageblocks demo_intro demo_submit_db = (Ok tt, demo_submit_db).
Proof.
  destruct (renumber_pageblocks_keeps_order demo_intro demo_submit_db
              (proj1 demo_submit_db_ok)) as (db' & Hrun & _ & _ & Hsame).
  rewrite Hrun. f_equal. apply Hsame. exact (proj2 demo_submit_db_ok (pk demo_intro)).
Defined.

(** *** Siblings *)

Lemma kids_at_lookup (t : list Node) (p0 : list nat) (j : nat) :
  forest_at t (p0 ++ [j]) = kids_at t p0 !! j.
Proof.
  destruct p0 as [|i q]; [apply forest_at_root|].
  rewrite forest_at_snoc. unfold kids_at.
  by destruct (forest_at t (i :: q)).
Qed.

Lemma get_siblings_stored (db : DB) (p0 : list nat) (j : nat) (n : Node) :
  forest_at (sections db) (p0 ++ [j]) = Some n →
  get_siblings (instance (p0 ++ [j]) n) db
  = (Ok (imap (fun i c => instance (p0 ++ [i]) c) (kids_at (sections db) p0)), db).
Proof.
  intros Hn. unfold get_siblings, depth. unfold_M. cbn [path instance].
  rewrite removelast_last, length_app. cbn [length].
  destruct p0 as [|i q]; [done|].
  replace (1 <? length (i :: q) + 1)%nat with true
    by (symmetry; apply Nat.ltb_lt; cbn; lia).
  rewrite forest_at_snoc in Hn. unfold kids_at.
  by destruct (forest_at (sections db) (i :: q)).
Qed.

(** With distinct keys, two stored siblings have the same key only when
    they are at the same position. *)
Lemma sibling_keys (db : DB) (p0 : list nat) (i j : nat) (c n : Node) :
  NoDup (pk <$> all_sections db) →
  kids_at (sections db) p0 !! i = Some c → kids_at (sections db) p0 !! j = Some n →
  node_pk c = node_pk n → i = j.
Proof.
  intros Hnd Hc Hn Hpk. rewrite <- kids_at_lookup in Hc, Hn.
  apply all_sections_stored in Hc, Hn.
  assert (instance (p0 ++ [i]) c = instance (p0 ++ [j]) n) as Heq
    by (by apply (NoDup_fmap_eq pk (all_sections db))).
  apply (f_equal path) in Heq. cbn in Heq. by apply app_inv_head in Heq as [= ->].
Qed.

Lemma is_first_last_child_stored (db : DB) (p0 : list nat) (j : nat) (n : Node) :
  NoDup (pk <$> all_sections db) →
  forest_at (sections db) (p0 ++ [j]) = Some n →
  Section_is_first_child (instance (p0 ++ [j]) n) db = (Ok (bool_decide (j = 0%nat)), db)
  ∧ Section_is_last_child (instance (p0 ++ [j]) n) db
    = (Ok (bool_decide (j = length (kids_at (sections db) p0) - 1)%nat), db).
Proof.
  intros Hnd Hn. pose proof Hn as Hj. rewrite kids_at_lookup in Hj.
  unfold Section_is_first_child, Section_is_last_child,
    get_first_sibling, get_last_sibling.
  unfold_M. rewrite (get_siblings_stored db p0 j n Hn).
  remember (kids_at (sections db) p0) as ks eqn:Hks. split.
  - destruct ks as [|k0 ks']; [done|]. cbn [imap head].
    cbn [pk instance]. do 2 f_equal. apply bool_decide_ext. split.
    + intros Hpk. symmetry. apply (sibling_keys db p0 0 j k0 n Hnd); [|by rewrite <- Hks|done].
      by rewrite <- Hks.
    + intros ->. cbn in Hj. by injection Hj as ->.
  - rewrite head_reverse, last_lookup, length_imap, list_lookup_imap.
    assert (length ks ≠ 0)%nat as Hlen by (by destruct ks).
    destruct (ks !! pred (length ks)) as [c|] eqn:Hc.
    2:{ apply lookup_ge_None in Hc. lia. }
    cbn. do 2 f_equal. apply bool_decide_ext. split.
    + intros Hpk. symmetry.
      replace (length ks - 1)%nat with (pred (length ks)) by lia.
      apply (sibling_keys db p0 (pred (length ks)) j c n Hnd); [|by rewrite <- Hks|done].
      by rewrite <- Hks.
    + intros ->. replace (length ks - 1)%nat with (pred (length ks)) in Hj by lia.
      congruence.
Qed.

(** X14: [is_first_child] and [is_last_child] on a stored section, where the
    keys of the sections are distinct: whether the last step of its path
    is the first, or the last, position among the nodes stored below its
    parent.  For a root these are all the roots of the table. *)
Theorem child_position (db : DB) (p : list nat) (n : Node) :
  NoDup (pk <$> all_sections db) →
  forest_at (sections db) p = Some n →
  Section_is_first_child (instance p n) db = (Ok (bool_decide (last p = Some 0%nat)), db)
  ∧ Section_is_last_child (instance p n) db = (Ok (is_last_path (sections db) p), db).
Proof.
  intros Hnd Hn. destruct p as [|j p0 _] using rev_ind; [done|].
  destruct (is_first_last_child_stored db p0 j n Hnd Hn) as [-> ->].
  unfold is_last_path. rewrite removelast_last, last_snoc.
  split; do 2 f_equal; apply bool_decide_ext; split; congruence.
Qed.

Lemma child_position_witness :
  Section_is_first_child demo_about demo_db = (Ok false, demo_db)
  ∧ Section_is_last_child demo_about demo_db = (Ok true, demo_db).
Proof.
  exact (child_position demo_db [0; 1]%nat (MkNode 4 "About" "about" 1 [])
           demo_db_keys eq_refl).
Defined.

(** *** closing_children *)

Lemma closing_children_loop_stored (db : DB) (fuel : nat) :
  NoDup (pk <$> all_sections db) →
  ∀ (p : list nat) (n : Node),
    forest_at (sections db) p = Some n → (length p ≤ fuel)%nat →
    ∃ l, closing_children_loop fuel (instance p n) db = (Ok l, db)
         ∧ (length l < length p)%nat
         ∧ (∀ k x, l !! k = Some x →
              x ∈ all_sections db ∧ path x = take (length p - k) p
              ∧ is_last_path (sections db) (path x) = true)
         ∧ (length (take (length p - length l) p) = 1%nat
            ∨ is_last_path (sections db) (take (length p - length l) p) = false).
Proof.
  intros Hnd. induction fuel as [|fuel IH]; intros p n Hn Hfuel.
  { destruct p; [done|cbn in Hfuel; lia]. }
  destruct p as [|j p0 _] using rev_ind; [done|].
  destruct (is_first_last_child_stored db p0 j n Hnd Hn) as [_ Hlast].
  assert (is_last_path (sections db) (p0 ++ [j])
          = bool_decide (j = length (kids_at (sections db) p0) - 1)%nat) as Hpath.
  { unfold is_last_path. rewrite removelast_last, last_snoc.
    apply bool_decide_ext. split; congruence. }
  rewrite length_app in *. cbn [length] in *.
  cbn [closing_children_loop]. unfold is_root, depth. cbn [path instance].
  rewrite length_app. cbn [length].
  destruct p0 as [|i q].
  { exists []. cbn. split; [done|]. split; [lia|]. split; [done|]. by left. }
  cbn [length] in *.
  assert ((S (length q) + 1 =? 1)%nat = false) as -> by (apply Nat.eqb_neq; lia).
  unfold_M. rewrite Hlast.
  destruct (bool_decide (j = length (kids_at (sections db) (i :: q)) - 1)%nat) eqn:Hb.
  2:{ exists []. split; [done|]. split; [cbn; lia|]. split; [done|]. right.
      cbn [length]. rewrite Nat.sub_0_r, take_ge by (rewrite length_app; cbn; lia).
      by rewrite Hpath. }
  unfold get_parent, depth. cbn [path instance]. rewrite length_app. cbn [length].
  assert ((S (length q) + 1 <=? 1)%nat = false) as -> by (apply Nat.leb_gt; lia).
  rewrite removelast_last. unfold section_by_path. unfold_M.
  rewrite forest_at_snoc in Hn.
  destruct (forest_at (sections db) (i :: q)) as [m|] eqn:Hm; [|done].
  destruct (IH (i :: q) m Hm) as (l & -> & Hlen & Hall & Hstop); [cbn [length]; lia|].
  exists (instance ((i :: q) ++ [j]) n :: l). split; [done|].
  split; [cbn [length] in *; lia|]. split.
  - intros [|k] x Hx; cbn in Hx.
    + injection Hx as <-.
      change (i :: q ++ [j]) with ((i :: q) ++ [j]). split.
      * apply all_sections_stored. by rewrite forest_at_snoc, Hm.
      * cbn [path instance]. rewrite Nat.sub_0_r, take_ge by (rewrite length_app; cbn; lia).
        split; [done|]. by rewrite Hpath.
    + destruct (Hall k x Hx) as (Hin & Hp & Hl). split; [done|]. split; [|done].
      rewrite Hp, take_app_le by (cbn [length]; lia). f_equal. cbn [length]. lia.
  - cbn [length].
    replace (S (length q) + 1 - S (length l))%nat with (length (i :: q) - length l)%nat
      by (cbn [length]; lia).
    by rewrite take_app_le by (cbn [length]; lia).
Qed.

(** X15: [closing_children] on a stored section, where the keys of the
    sections are distinct, writes nothing and yields the section, its
    parent, the parent of that and so on, as long as the section reached
    is not a root and is the last child of its parent: every section it
    yields is a last child, and the next one up is a root or not a last
    child. *)
Theorem closing_children_chain (db : DB) (p : list nat) (n : Node) :
  NoDup (pk <$> all_sections db) →
  forest_at (sections db) p = Some n →
  ∃ l, Section_closing_children (instance p n) db = (Ok l, db)
       ∧ (length l < length p)%nat
       ∧ (∀ k x, l !! k = Some x →
            x ∈ all_sections db ∧ path x = take (length p - k) p
            ∧ is_last_path (sections db) (path x) = true)
       ∧ (length (take (length p - length l) p) = 1%nat
          ∨ is_last_path (sections db) (take (length p - length l) p) = false).
Proof.
  intros Hnd Hn. unfold Section_closing_children, depth. cbn [path instance].
  by apply closing_children_loop_stored.
Qed.

Lemma closing_children_chain_witness :
  ∃ l, Section_closing_children demo_part_one demo_db = (Ok l, demo_db)
       ∧ l = [demo_part_one].
Proof.
  destruct (closing_children_chain demo_db [0; 0; 0]%nat
              (MkNode 3 "Part One" "part-one" 1 []) demo_db_keys eq_refl)
    as (l & Hrun & _).
  exists l. split; [exact Hrun|].
  vm_compute in Hrun. by injection Hrun as <-.
Defined.

(** *** Generated slugs *)

Ltac each_ascii c :=
  destruct c as [[] [] [] [] [] [] [] []]; vm_compute; try done; auto.

Lemma lower_kept (c : ascii) :
  is_word c || is_blank c || is_hyphen c = true →
  is_slug_char (lower c) || is_blank (lower c) = true.
Proof. each_ascii c. Qed.

Lemma slug_char_not_blank (c : ascii) :
  is_slug_char c || is_blank c = true → is_blank c || is_hyphen c = false →
  is_slug_char c = true.
Proof. each_ascii c. Qed.

Lemma slug_char_no_slash (c : ascii) :
  is_slug_char c = true → Ascii.eqb c "/"%char = false.
Proof. each_ascii c. Qed.

Lemma Forall_lstrip (P : ascii → Prop) (l : list ascii) :
  Forall P l → Forall P (lstrip l).
Proof.
  induction 1 as [|c l Hc Hl IH]; cbn; [done|].
  destruct (is_blank c); [done|]. by constructor.
Qed.

Lemma Forall_strip (P : ascii → Prop) (l : list ascii) :
  Forall P l → Forall P (strip l).
Proof.
  intros Hl. unfold strip.
  apply Forall_rev, Forall_lstrip, Forall_rev, Forall_lstrip, Hl.
Qed.

Lemma Forall_hyphenate (pending : bool) (l : list ascii) :
  Forall (fun c => is_slug_char c || is_blank c = true) l →
  Forall (fun c => is_slug_char c = true) (hyphenate pending l).
Proof.
  intros Hl. revert pending. induction Hl as [|c l Hc Hl IH]; intros pending; cbn.
  - destruct pending; by repeat constructor.
  - destruct (is_blank c || is_hyphen c) eqn:Hb; [apply IH|].
    apply Forall_app. split; [destruct pending; by repeat constructor|].
    constructor; [by apply slug_char_not_blank|apply IH].
Qed.

Lemma slugify_alphabet (s : string) :
  Forall (fun c => is_slug_char c = true) (list_ascii_of_string (slugify s)).
Proof.
  unfold slugify. rewrite list_ascii_of_string_of_list_ascii.
  apply Forall_hyphenate, Forall_fmap.
  apply Forall_strip. apply Forall_forall. intros c Hc.
  apply list_elem_of_filter in Hc as [Hc _]. cbn. apply lower_kept.
  by apply Is_true_true_1.
Qed.

Lemma no_slash_chars (s : string) :
  Forall (fun c => is_slug_char c = true) (list_ascii_of_string s) → no_slash s = true.
Proof.
  induction s as [|c s IH]; [done|]. cbn. intros [Hc Hs]%Forall_cons.
  by rewrite (slug_char_no_slash c Hc), (IH Hs).
Qed.

(** X16: The slug that [append_child] makes from the label, when it is given
    none, holds only lower-case letters, digits, underscores and hyphens;
    it holds no slash. *)
Theorem append_child_default_slug (db : DB) (p : list nat) (parent : Node) (l : string) :
  forest_at (sections db) p = Some parent →
  ∃ (c : SectionObj) (db' : DB),
    Section_append_child (instance p parent) l "" db = (Ok c, db')
    ∧ slug c = slugify l
    ∧ Forall (fun a => is_slug_char a = true) (list_ascii_of_string (slug c))
    ∧ no_slash (slug c) = true.
Proof.
  intros Hp. unfold Section_append_child, add_child.
  cbn [path instance hierarchy String.eqb]. rewrite Hp.
  eexists _, _. split; [done|]. cbn [slug instance node_slug].
  split; [done|]. split; [apply slugify_alphabet|].
  apply no_slash_chars, slugify_alphabet.
Qed.

Lemma append_child_default_slug_witness :
  ∃ c db', Section_append_child demo_root "What's New?" "" demo_db = (Ok c, db')
           ∧ slug c = "whats-new" ∧ no_slash (slug c) = true.
Proof.
  destruct (append_child_default_slug demo_db [0%nat] demo_tree "What's New?" eq_refl)
    as (c & db' & Hrun & Hslug & _ & Hno).
  exists c, db'. split; [exact Hrun|]. split; [rewrite Hslug; by vm_compute|exact Hno].
Defined.

(** *** Sections that share a slug *)

Lemma slugs_dict_last (sl : string) (cs : list SectionObj) (m0 : gmap string SectionObj) :
  foldl (fun m x => <[slug x := x]> m) m0 cs !! sl
  = match last (filter (fun c => slug c = sl) cs) with
    | Some c => Some c
    | None => m0 !! sl
    end.
Proof.
  induction cs as [|x cs IH] using rev_ind; [done|].
  rewrite foldl_app, filter_app. cbn [foldl].
  destruct (decide (slug x = sl)) as [<-|Hne].
  - rewrite lookup_insert_eq, filter_cons_True by done. by rewrite filter_nil, last_snoc.
  - rewrite lookup_insert_ne, filter_cons_False by done.
    by rewrite filter_nil, app_nil_r.
Qed.

Lemma endswith_no_slash (s : string) : no_slash s = true → endswith s "/" = false.
Proof.
  induction s as [|c s IH]; [done|].
  cbn [no_slash]. intros [Hc Hs]%andb_prop. apply negb_true_iff in Hc.
  cbn [endswith String.eqb]. rewrite Hc. by apply IH.
Qed.

(** X17: [find_section_from_path] with one slug, not empty and without a
    slash: among the children of the root, the last one with that slug is
    returned, [None] when there is none. *)
Theorem find_section_from_path_last_wins (self : Hierarchy) (sl : string)
    (root : SectionObj) (cs : list SectionObj) (db : DB) :
  Hierarchy_get_root self db = (Ok root, db) →
  get_children root db = (Ok cs, db) →
  sl ≠ "" → no_slash sl = true →
  Hierarchy_find_section_from_path self sl db
  = (Ok (last (filter (fun c => slug c = sl) cs)), db).
Proof.
  intros Hroot Hcs Hne Hns.
  unfold Hierarchy_find_section_from_path. unfold_M.
  rewrite (endswith_no_slash sl Hns), Hroot.
  destruct (String.eqb sl "") eqn:He; [by apply String.eqb_eq in He|].
  rewrite (split_no_slash sl Hns). cbn [find_section_loop]. unfold_M.
  rewrite Hcs, slugs_dict_last.
  by destruct (last (filter _ cs)).
Qed.

Lemma find_section_from_path_last_wins_witness :
  Hierarchy_find_section_from_path demo_hierarchy "page" demo_twins_db
  = (Ok (Some (instance [0; 1]%nat (MkNode 3 "Second" "page" 1 []))), demo_twins_db).
Proof.
  exact (find_section_from_path_last_wins demo_hierarchy "page"
           (instance [0%nat] demo_twins_tree)
           [instance [0; 0]%nat (MkNode 2 "First" "page" 1 []);
            instance [0; 1]%nat (MkNode 3 "Second" "page" 1 [])]
           demo_twins_db eq_refl eq_refl ltac:(discriminate) eq_refl).
Defined.

(** *** Pages without a form *)

(** X18: [Section.submit] on a page none of whose blocks answers true to
    [needs_submit()], as with [BasePageBlock.needs_submit], which returns
    False: no block is submitted, nothing is written and the result is
    True. *)
Theorem submit_without_form (self : SectionObj) (request_data : gmap string (list string))
    (user : User) (db : DB) :
  (∀ p b, p ∈ pageblock_set db (pk self) → block_of db p = Some b →
          needs_submit b = Some BasePageBlock_needs_submit ∨ needs_submit b = None) →
  Section_submit self request_data user db = (Ok true, db).
Proof.
  intros Hno. unfold Section_submit, pageblock_set_all. unfold_M.
  rewrite submit_loop_effect.
  assert (∀ ps, (∀ p, p ∈ ps → p ∈ pageblock_set db (pk self)) →
                omap (submission_of db request_data user) ps = []
                ∧ foldl (fun acc p => match redirect_of db p with
                                      | Some r => negb r
                                      | None => acc
                                      end) true ps = true) as Hps.
  { induction ps as [|p ps IH] using rev_ind; intros Hsub; [done|].
    destruct IH as [IH1 IH2].
    { intros x Hx. apply Hsub. apply elem_of_app. by left. }
    assert (p ∈ pageblock_set db (pk self)) as Hp
      by (apply Hsub; apply elem_of_app; right; apply list_elem_of_here).
    rewrite omap_app, foldl_app, IH1, IH2. cbn.
    unfold submission_of, redirect_of.
    destruct (block_of db p) as [b|] eqn:Hb; [|done].
    by destruct (Hno p b Hp Hb) as [->| ->]. }
  destruct (Hps (pageblock_set db (pk self))) as [-> ->]; [done|].
  f_equal. unfold set_submitted. destruct db. cbn. by rewrite app_nil_r.
Qed.

Lemma submit_without_form_witness :
  Section_submit demo_intro demo_request (AuthUser 7) demo_text_db = (Ok true, demo_text_db).
Proof.
  apply (submit_without_form demo_intro demo_request (AuthUser 7) demo_text_db).
  intros p b Hp Hb. left.
  change (pageblock_set demo_text_db (pk demo_intro)) with [demo_text_pageblock] in Hp.
  apply list_elem_of_singleton in Hp as ->.
  vm_compute in Hb. by injection Hb as <-.
Defined.

(** *** The order of the children of a section *)

(** The keys of a tree do not depend on where it is stored. *)
Lemma pk_kids_list (cs : list Node) :
  Forall (fun c => ∀ p p', pk <$> tree_list p c = pk <$> tree_list p' c) cs →
  ∀ p i p' i', pk <$> kids_list p i cs = pk <$> kids_list p' i' cs.
Proof.
  induction 1 as [|c cs Hc Hcs IH]; intros p i p' i'; [done|].
  cbn. rewrite !fmap_app. f_equal; [apply Hc|apply IH].
Qed.

Lemma pk_tree_list (n : Node) :
  ∀ p p', pk <$> tree_list p n = pk <$> tree_list p' n.
Proof.
  induction n as [k l sl h cs IH] using Node_induction. intros p p'.
  rewrite !tree_list_unfold. cbn. f_equal. by apply pk_kids_list.
Qed.

Lemma pk_kids_list_any (cs : list Node) (p p' : list nat) (i i' : nat) :
  pk <$> kids_list p i cs = pk <$> kids_list p' i' cs.
Proof. apply pk_kids_list, Forall_forall. intros c _. apply pk_tree_list. Qed.

Lemma pk_kids_list_cons (c : Node) (cs : list Node) (p : list nat) (i : nat) :
  pk <$> kids_list p i (c :: cs)
  = (pk <$> tree_list p c) ++ (pk <$> kids_list p i cs).
Proof.
  cbn. rewrite fmap_app. f_equal; [apply pk_tree_list|apply pk_kids_list_any].
Qed.

Lemma pk_kids_list_perm (cs cs' : list Node) (p : list nat) (i : nat) :
  cs ≡ₚ cs' → pk <$> kids_list p i cs ≡ₚ pk <$> kids_list p i cs'.
Proof.
  induction 1 as [|c cs cs' _ IH|c c' cs|cs1 cs2 cs3 _ IH1 _ IH2].
  - done.
  - rewrite !pk_kids_list_cons. by rewrite IH.
  - rewrite !pk_kids_list_cons. rewrite !app_assoc.
    f_equiv. apply Permutation_app_comm.
  - by etrans.
Qed.

Lemma pk_tree_list_children (n : Node) (cs : list Node) (p : list nat) :
  node_children n ≡ₚ cs →
  pk <$> tree_list p (with_children cs n) ≡ₚ pk <$> tree_list p n.
Proof.
  intros Hcs. rewrite !tree_list_unfold. cbn. f_equiv. symmetry.
  by apply pk_kids_list_perm.
Qed.

Lemma pk_kids_list_alter (g : Node → Node) (i : nat) (cs : list Node) (p : list nat)
    (k : nat) :
  (∀ m q, pk <$> tree_list q (g m) ≡ₚ pk <$> tree_list q m) →
  pk <$> kids_list p k (alter g i cs) ≡ₚ pk <$> kids_list p k cs.
Proof.
  intros Hg. revert i k. induction cs as [|c cs IH]; intros i k; [done|].
  destruct i as [|i]; cbn; rewrite !fmap_app.
  - by rewrite Hg.
  - f_equiv. apply IH.
Qed.

Lemma pk_node_alter (f : Node → Node) (q : list nat) :
  (∀ m p, pk <$> tree_list p (f m) ≡ₚ pk <$> tree_list p m) →
  ∀ n p, pk <$> tree_list p (node_alter f q n) ≡ₚ pk <$> tree_list p n.
Proof.
  intros Hf. induction q as [|i q IH]; intros n p; [apply Hf|].
  cbn [node_alter]. rewrite !tree_list_unfold. cbn. f_equiv.
  by apply pk_kids_list_alter.
Qed.

Lemma pk_forest_alter (f : Node → Node) (p : list nat) (db : DB) :
  (∀ m q, pk <$> tree_list q (f m) ≡ₚ pk <$> tree_list q m) →
  pk <$> all_sections (set_sections (forest_alter f p) db) ≡ₚ pk <$> all_sections db.
Proof.
  intros Hf. unfold all_sections. cbn [sections set_sections].
  destruct p as [|i q]; [done|]. cbn [forest_alter].
  apply pk_kids_list_alter. intros m p. by apply pk_node_alter.
Qed.

Lemma move_to_end_children (j : nat) (n c : Node) :
  node_children n !! j = Some c →
  move_to_end j n = with_children (delete j (node_children n) ++ [c]) n.
Proof. intros Hc. unfold move_to_end. by rewrite Hc. Qed.

Lemma delete_snoc_perm {A : Type} (l : list A) (j : nat) (x : A) :
  l !! j = Some x → l ≡ₚ delete j l ++ [x].
Proof.
  intros Hj. rewrite (delete_Permutation l j x Hj) at 1.
  by rewrite Permutation_app_comm.
Qed.

Lemma pk_move_to_end (j : nat) (m : Node) (q : list nat) :
  pk <$> tree_list q (move_to_end j m) ≡ₚ pk <$> tree_list q m.
Proof.
  unfold move_to_end. destruct (node_children m !! j) as [c|] eqn:Hc; [|done].
  apply (pk_tree_list_children m). by apply delete_snoc_perm.
Qed.

(** With distinct keys, moving the child at position [j] to the end is
    moving the child with its key to the end. *)
Lemma delete_moved_to_end (cs : list Node) (j : nat) (c : Node) :
  NoDup (node_pk <$> cs) → cs !! j = Some c →
  delete j cs ++ [c] = moved_to_end cs (node_pk c).
Proof.
  intros Hnd Hj. unfold moved_to_end.
  rewrite <- (take_drop_middle cs j c Hj) at 2 3.
  rewrite <- (take_drop_middle cs j c Hj) in Hnd.
  rewrite fmap_app, fmap_cons in Hnd.
  apply NoDup_app in Hnd as (_ & Hdisj & Hnd).
  apply NoDup_cons in Hnd as [Hnot _].
  assert (∀ x, x ∈ take j cs → node_pk x ≠ node_pk c) as Hl.
  { intros x Hx Heq. apply (Hdisj (node_pk x)); [by apply list_elem_of_fmap_2|].
    rewrite Heq. left. }
  assert (∀ x, x ∈ drop (S j) cs → node_pk x ≠ node_pk c) as Hr.
  { intros x Hx Heq. apply Hnot. rewrite <- Heq. by apply list_elem_of_fmap_2. }
  rewrite !filter_app.
  rewrite (filter_cons_False (fun x => node_pk x ≠ node_pk c) c) by (intros H; by apply H).
  rewrite (filter_cons_True (fun x => node_pk x = node_pk c) c) by done.
  assert (∀ l : list Node, (∀ x, x ∈ l → node_pk x ≠ node_pk c) →
            filter (fun x => node_pk x ≠ node_pk c) l = l
            ∧ filter (fun x => node_pk x = node_pk c) l = []) as Hfilter.
  { induction l as [|x l IH]; intros Hall; [done|].
    destruct IH as [IH1 IH2]; [intros y Hy; apply Hall; by right|].
    assert (node_pk x ≠ node_pk c) by (apply Hall; left).
    by rewrite filter_cons_True, filter_cons_False, IH1, IH2. }
  destruct (Hfilter _ Hl) as [-> ->]. destruct (Hfilter _ Hr) as [-> ->].
  cbn. rewrite delete_take_drop. by rewrite <- app_assoc.
Qed.

Lemma moved_to_end_perm (cs : list Node) (id : Z) : moved_to_end cs id ≡ₚ cs.
Proof.
  unfold moved_to_end. induction cs as [|c cs IH]; [done|].
  destruct (decide (node_pk c = id)) as [Heq|Hne].
  - rewrite (filter_cons_False (fun x => node_pk x ≠ id) c) by (intros H; by apply H).
    rewrite (filter_cons_True (fun x => node_pk x = id) c) by done.
    rewrite <- Permutation_middle. by f_equiv.
  - rewrite filter_cons_True, filter_cons_False by done. cbn. by f_equiv.
Qed.

Lemma with_children_move (cs : list Node) (j : nat) (n : Node) :
  with_children cs (move_to_end j n) = with_children cs n.
Proof. unfold move_to_end. by destruct (node_children n !! j). Qed.

Lemma node_alter_same (f : Node → Node) (q : list nat) :
  ∀ (r m : Node), node_at q r = Some m → f m = m → node_alter f q r = r.
Proof.
  induction q as [|j q IH]; intros r m Hm Hf; cbn in *.
  - by injection Hm as ->.
  - destruct (node_children r !! j) as [c|] eqn:Hc; [|done].
    destruct r as [k l sl h cs]. cbn in *. f_equal.
    rewrite <- (list_alter_id id cs j) at 2 by done.
    apply list_alter_ext; [|done]. intros x Hx. rewrite Hc in Hx. injection Hx as <-.
    by apply (IH c m).
Qed.

Lemma forest_alter_same (f : Node → Node) (p : list nat) (t : list Node) (m : Node) :
  forest_at t p = Some m → f m = m → forest_alter f p t = t.
Proof.
  intros Hm Hf. destruct p as [|i q]; [done|]. cbn in *.
  destruct (t !! i) as [r|] eqn:Hr; [|done].
  rewrite <- (list_alter_id id t i) at 2 by done.
  apply list_alter_ext; [|done]. intros x Hx. rewrite Hr in Hx. injection Hx as <-.
  by apply (node_alter_same f q r m).
Qed.

Lemma children_keys_NoDup (db : DB) (p0 : list nat) (parent : Node) :
  NoDup (pk <$> all_sections db) → forest_at (sections db) p0 = Some parent →
  NoDup (node_pk <$> node_children parent).
Proof.
  intros Hnd Hparent.
  assert (∀ a b ca cb, node_children parent !! a = Some ca →
            node_children parent !! b = Some cb → node_pk ca = node_pk cb → a = b) as Hinj.
  { intros a b ca cb Ha Hb Hpk. destruct p0 as [|i q]; [done|].
    apply (sibling_keys db (i :: q) a b ca cb Hnd); [| |done];
      unfold kids_at; by rewrite Hparent. }
  apply NoDup_alt. intros a b k Ha Hb. rewrite list_lookup_fmap in Ha, Hb.
  destruct (node_children parent !! a) as [ca|] eqn:Hca; [|done].
  destruct (node_children parent !! b) as [cb|] eqn:Hcb; [|done].
  cbn in Ha, Hb. apply (Hinj a b ca cb Hca Hcb). congruence.
Qed.

Lemma update_children_order_cons (self : SectionObj) (id : Z) (ids : list Z) (db : DB) :
  Section_update_children_order self (id :: ids) db
  = match Section_update_children_order self [id] db with
    | (Ok _, db') => Section_update_children_order self ids db'
    | (Raise e, db') => (Raise e, db')
    end.
Proof.
  unfold Section_update_children_order. cbn [for_each].
  set (body := fun section_id : Z => _). unfold bind, ret.
  match goal with
  | |- (let (_, _) := ?x in _) = _ => by destruct x as [[[]|e] db']
  end.
Qed.

Lemma update_children_order_one (self : SectionObj) (db : DB) (p0 : list nat)
    (parent c : Node) (j : nat) :
  NoDup (pk <$> all_sections db) →
  forest_at (sections db) p0 = Some parent →
  node_children parent !! j = Some c →
  Section_update_children_order self [node_pk c] db
  = (Ok tt, set_sections (forest_alter (move_to_end j) p0) db).
Proof.
  intros Hnd Hparent Hj.
  assert (forest_at (sections db) (p0 ++ [j]) = Some c) as Hstored.
  { destruct p0 as [|i q]; [done|]. by rewrite forest_at_snoc, Hparent. }
  assert (filter (fun s => pk s = node_pk c) (all_sections db) = [instance (p0 ++ [j]) c])
    as Hrows.
  { destruct (filter_by_key pk (fun s => pk s = node_pk c) (node_pk c) (all_sections db))
      as [[_ Hno]|(r & -> & Hr & Hpk)]; [done|done| |].
    - exfalso. apply Hno.
      apply (list_elem_of_fmap_2 pk _ (instance (p0 ++ [j]) c)).
      by apply all_sections_stored.
    - f_equal. apply (NoDup_fmap_eq pk (all_sections db)); [done|done| |done].
      by apply all_sections_stored. }
  unfold Section_update_children_order. cbn [for_each]. unfold_M.
  rewrite Hrows. cbn [objects_get]. unfold ret.
  unfold get_parent, depth. cbn [path instance]. rewrite length_app. cbn [length].
  destruct p0 as [|i q]; [done|]. cbn [length].
  assert ((S (length q) + 1 <=? 1)%nat = false) as -> by (apply Nat.leb_gt; lia).
  rewrite removelast_last. unfold section_by_path. unfold_M. rewrite Hparent.
  unfold move_last_child, write. cbn [path instance]. by rewrite last_snoc.
Qed.

Lemma update_children_order_loop (self : SectionObj) (p0 : list nat) (ids : list Z) :
  ∀ (db : DB) (parent : Node),
    NoDup (pk <$> all_sections db) →
    forest_at (sections db) p0 = Some parent →
    (∀ id, id ∈ ids → id ∈ node_pk <$> node_children parent) →
    Section_update_children_order self ids db
    = (Ok tt, set_sections
                (forest_alter (with_children (foldl moved_to_end (node_children parent) ids))
                              p0) db).
Proof.
  induction ids as [|id ids IH]; intros db parent Hnd Hparent Hin.
  - cbn. unfold ret. f_equal. rewrite <- (set_sections_id db) at 1.
    apply set_sections_eq. symmetry.
    apply (forest_alter_same _ _ _ parent Hparent). by destruct parent.
  - assert (id ∈ node_pk <$> node_children parent) as Hid by (apply Hin; left).
    apply list_elem_of_fmap in Hid as (c & -> & Hc).
    apply list_elem_of_lookup in Hc as [j Hj].
    pose proof (children_keys_NoDup db p0 parent Hnd Hparent) as Hkids.
    rewrite update_children_order_cons.
    rewrite (update_children_order_one self db p0 parent c j Hnd Hparent Hj).
    set (db1 := set_sections (forest_alter (move_to_end j) p0) db).
    assert (forest_at (sections db1) p0 = Some (move_to_end j parent)) as Hparent1
      by (by apply forest_at_alter).
    rewrite (IH db1 (move_to_end j parent)).
    + f_equal. unfold db1. rewrite set_sections_compose. apply set_sections_eq.
      unfold compose. rewrite forest_alter_compose.
      apply forest_alter_ext. intros x. unfold compose.
      rewrite with_children_move. f_equal.
      rewrite (move_to_end_children j parent c Hj). cbn [node_children with_children foldl].
      by rewrite (delete_moved_to_end _ j c Hkids Hj).
    + unfold db1. rewrite pk_forest_alter; [done|]. intros m p. apply pk_move_to_end.
    + done.
    + intros id' Hid'. rewrite (move_to_end_children j parent c Hj).
      cbn [node_children with_children].
      rewrite <- (delete_snoc_perm _ j c Hj). apply Hin. by right.
Qed.

Lemma filter_fmap_key {A K : Type} (key : A → K) (P : K → Prop)
    `{!∀ k, Decision (P k)} (l : list A) :
  key <$> filter (fun x => P (key x)) l = filter P (key <$> l).
Proof.
  induction l as [|x l IH]; [done|].
  destruct (decide (P (key x))).
  - rewrite filter_cons_True, !fmap_cons, filter_cons_True by done. by rewrite IH.
  - rewrite filter_cons_False, fmap_cons, filter_cons_False by done. done.
Qed.

Lemma filter_all {A : Type} (P : A → Prop) `{!∀ x, Decision (P x)} (l : list A) :
  (∀ x, x ∈ l → P x) → filter P l = l.
Proof.
  induction l as [|x l IH]; intros Hall; [done|].
  rewrite filter_cons_True by (apply Hall; left). f_equal.
  apply IH. intros y Hy. apply Hall. by right.
Qed.

Lemma filter_none {A : Type} (P : A → Prop) `{!∀ x, Decision (P x)} (l : list A) :
  (∀ x, x ∈ l → ¬ P x) → filter P l = [].
Proof.
  induction l as [|x l IH]; intros Hall; [done|].
  rewrite filter_cons_False by (apply Hall; left).
  apply IH. intros y Hy. apply Hall. by right.
Qed.

Lemma filter_the_key (ks : list Z) (id : Z) :
  NoDup ks → id ∈ ks → filter (fun k => k = id) ks = [id].
Proof.
  intros Hnd Hid.
  destruct (filter_by_key (fun k : Z => k) (fun k => k = id) id ks)
    as [[_ Hno]|(r & -> & _ & ->)]; [done|by rewrite list_fmap_id| |done].
  exfalso. apply Hno. by rewrite list_fmap_id.
Qed.

Lemma foldl_moved_to_end (cs : list Node) (ids : list Z) :
  NoDup (node_pk <$> cs) → NoDup ids → (∀ id, id ∈ ids → id ∈ node_pk <$> cs) →
  foldl moved_to_end cs ids ≡ₚ cs
  ∧ node_pk <$> foldl moved_to_end cs ids
    = filter (fun k => k ∉ ids) (node_pk <$> cs) ++ ids.
Proof.
  intros Hcs. induction ids as [|id ids IH] using rev_ind; intros Hids Hin.
  - cbn. split; [done|]. rewrite app_nil_r. symmetry.
    apply filter_all. intros x _. apply not_elem_of_nil.
  - apply NoDup_app in Hids as (Hids & Hnew & _).
    destruct IH as [IHp IHk]; [done|intros x Hx; apply Hin, elem_of_app; by left|].
    rewrite foldl_app. cbn [foldl]. split; [by rewrite moved_to_end_perm|].
    assert (id ∉ ids) as Hid.
    { intros Hid. apply (Hnew id Hid). left. }
    assert (id ∈ node_pk <$> cs) as Hidcs
      by (apply Hin, elem_of_app; right; apply list_elem_of_here).
    assert (∀ X, node_pk <$> moved_to_end X id
                 = filter (fun k => k ≠ id) (node_pk <$> X)
                   ++ filter (fun k => k = id) (node_pk <$> X)) as ->.
    { intros X. unfold moved_to_end. rewrite fmap_app. f_equal.
      - exact (filter_fmap_key node_pk (fun k => k ≠ id) X).
      - exact (filter_fmap_key node_pk (fun k => k = id) X). }
    rewrite IHk, !filter_app, !list_filter_filter.
    rewrite (filter_all (fun k => k ≠ id) ids) by (intros x Hx ->; done).
    rewrite (filter_none (fun k => k = id) ids) by (intros x Hx ->; done).
    rewrite app_nil_r, <- !app_assoc. f_equal; [|f_equal].
    + apply list_filter_iff. intros k. rewrite elem_of_app, list_elem_of_singleton.
      split; [intros [? ?] [?|?]; done|]. intros Hk.
      split; [intros ->; apply Hk; by right|intros ?; apply Hk; by left].
    + rewrite (list_filter_iff _ (fun k => k = id)).
      * by apply filter_the_key.
      * intros k. split; [by intros [? _]|]. by intros ->.
Qed.

(** X19: [update_children_order] with the keys of the children of one stored
    section, each once, where the keys of the sections are distinct:
    afterwards that section has the same children, with their subtrees, in
    the order of [children_ids]; no other section is changed. *)
Theorem update_children_order_sets_order (self : SectionObj) (children_ids : list Z)
    (db : DB) (p0 : list nat) (parent : Node) :
  NoDup (pk <$> all_sections db) →
  forest_at (sections db) p0 = Some parent →
  children_ids ≡ₚ node_pk <$> node_children parent →
  ∃ cs, Section_update_children_order self children_ids db
        = (Ok tt, set_sections (forest_alter (with_children cs) p0) db)
        ∧ cs ≡ₚ node_children parent
        ∧ node_pk <$> cs = children_ids
        ∧ forest_at (sections (set_sections (forest_alter (with_children cs) p0) db)) p0
          = Some (with_children cs parent).
Proof.
  intros Hnd Hparent Hids.
  pose proof (children_keys_NoDup db p0 parent Hnd Hparent) as Hkids.
  assert (NoDup children_ids) as Hndi by (by rewrite Hids).
  assert (∀ id, id ∈ children_ids → id ∈ node_pk <$> node_children parent) as Hin
    by (intros id Hid; by rewrite <- Hids).
  destruct (foldl_moved_to_end (node_children parent) children_ids Hkids Hndi Hin)
    as [Hperm Hkeys].
  exists (foldl moved_to_end (node_children parent) children_ids).
  split; [by apply update_children_order_loop|]. split; [done|]. split.
  - rewrite Hkeys, filter_none; [done|].
    intros x Hx Hnot. apply Hnot. by rewrite Hids.
  - cbn [sections set_sections]. by apply forest_at_alter.
Qed.

Lemma update_children_order_sets_order_witness :
  ∃ cs, Section_update_children_order demo_root [4%Z; 2%Z] demo_db
        = (Ok tt, set_sections (forest_alter (with_children cs) [0%nat]) demo_db)
        ∧ node_pk <$> cs = [4%Z; 2%Z].
Proof.
  destruct (update_children_order_sets_order demo_root [4%Z; 2%Z] demo_db [0%nat] demo_tree
              demo_db_keys eq_refl)
    as (cs & Hrun & _ & Hkeys & _).
  - vm_compute. apply perm_swap.
  - by exists cs.
Defined.

(** *** What an import does to the table of hierarchies *)

Lemma keeps_bind {A B : Type} (c : M A) (k : A → M B) :
  keeps_hierarchies c → (∀ a, keeps_hierarchies (k a)) → keeps_hierarchies (bind c k).
Proof.
  intros Hc Hk db. unfold bind. specialize (Hc db).
  destruct (c db) as [[a|e] db1]; cbn in *; [|done].
  by rewrite Hk.
Qed.

Lemma keeps_ret {A : Type} (a : A) : keeps_hierarchies (ret a).
Proof. done. Qed.

Lemma keeps_raise {A : Type} (e : Exception) : keeps_hierarchies (@raise A e).
Proof. done. Qed.

Lemma keeps_read {A : Type} (f : DB → A) : keeps_hierarchies (read f).
Proof. done. Qed.

Lemma keeps_for_each {A : Type} (l : list A) (body : A → M unit) :
  (∀ x, x ∈ l → keeps_hierarchies (body x)) → keeps_hierarchies (for_each l body).
Proof.
  induction l as [|x l IH]; intros Hbody; [apply keeps_ret|].
  cbn [for_each]. apply keeps_bind; [apply Hbody; left|].
  intros _. apply IH. intros y Hy. apply Hbody. by right.
Qed.

Lemma keeps_objects_get {A : Type} (rows : list A) : keeps_hierarchies (objects_get rows).
Proof. by destruct rows as [|r [|r' rows]]. Qed.

Lemma keeps_Section_append_child (self : SectionObj) (l sl : string) :
  keeps_hierarchies (Section_append_child self l sl).
Proof.
  intros db. unfold Section_append_child, add_child.
  by destruct (forest_at (sections db) (path self)).
Qed.

Lemma keeps_add_pageblock_from_dict (settings : option (list BlockClass))
    (self : SectionObj) (d : Dict) :
  keeps_hierarchies (Section_add_pageblock_from_dict settings self d).
Proof.
  unfold Section_add_pageblock_from_dict, Section_available_pageblocks, Section_hierarchy.
  unfold mbind, M_bind, mret, M_ret.
  apply keeps_bind.
  { apply keeps_bind; [|intros _; apply keeps_ret].
    apply keeps_bind; [apply keeps_read|intros rows; apply keeps_objects_get]. }
  intros classes. apply keeps_for_each. intros c _.
  destruct (Value_eqb _ _); [|apply keeps_ret].
  destruct (create_from_dict c) as [create|]; [|apply keeps_ret].
  apply keeps_bind; [done|]. intros block.
  destruct (accepts _ _); [|apply keeps_raise].
  apply keeps_bind; [|intros _; apply keeps_ret].
  unfold Section_append_pageblock, pageblock_set_count.
  apply keeps_bind; [apply keeps_read|]. intros n. done.
Qed.

Lemma keeps_add_child_section_from_dict (settings : option (list BlockClass))
    (d : SectionDict) :
  ∀ self, keeps_hierarchies (Section_add_child_section_from_dict settings self d).
Proof.
  induction d as [l sl pbs cs IH] using SectionDict_induction. intros self db.
  rewrite add_child_section_unfold. revert db.
  unfold mbind, M_bind.
  apply keeps_bind; [apply keeps_Section_append_child|]. intros s.
  apply keeps_bind.
  { apply keeps_for_each. intros pb _. apply keeps_add_pageblock_from_dict. }
  intros _. apply keeps_for_each. intros c Hc.
  rewrite Forall_forall in IH. by apply IH.
Qed.

Lemma keeps_add_section_from_dict (settings : option (list BlockClass))
    (h : Hierarchy) (d : SectionDict) :
  keeps_hierarchies (Hierarchy_add_section_from_dict settings h d).
Proof.
  unfold Hierarchy_add_section_from_dict. unfold mbind, M_bind, mret, M_ret.
  apply keeps_bind; [done|]. intros s.
  apply keeps_bind.
  { apply keeps_for_each. intros pb _. apply keeps_add_pageblock_from_dict. }
  intros _. apply keeps_bind; [|intros _; apply keeps_ret].
  apply keeps_for_each. intros c _. apply keeps_add_child_section_from_dict.
Qed.

(** X20: [Hierarchy.from_dict] always adds one hierarchy, with a key of its
    own, the name of the dictionary (the empty name without one) and its
    [base_url] ("/" without one); this row stays when the import of the
    sections raises.  It never looks for a hierarchy of that name: if there
    was one, [get_hierarchy] with the name raises MultipleObjectsReturned
    afterwards. *)
Theorem from_dict_adds_a_hierarchy (settings : option (list BlockClass))
    (d : HierarchyDict) (db : DB) :
  ∃ h', hierarchies (snd (Hierarchy_from_dict settings d db)) = hierarchies db ++ [h']
        ∧ name h' = default "" (hd_name d)
        ∧ base_url h' = default "/" (hd_base_url d)
        ∧ (hierarchy_pk h' ∉ hierarchy_pk <$> hierarchies db)
        ∧ (∀ r, fst (Hierarchy_from_dict settings d db) = Ok r → r = h')
        ∧ (∀ h0, h0 ∈ hierarchies db → name h0 = name h' →
             Hierarchy_get_hierarchy (name h') (snd (Hierarchy_from_dict settings d db))
             = (Raise MultipleObjectsReturned, snd (Hierarchy_from_dict settings d db))).
Proof.
  set (h' := {| hierarchy_pk := fresh (hierarchy_pk <$> hierarchies db);
                name := default "" (hd_name d);
                base_url := default "/" (hd_base_url d) |}).
  set (db1 := set_hierarchies (fun t => t ++ [h']) db).
  set (rest := for_each (default [] (hd_sections d))
                 (fun s => bind (Hierarchy_add_section_from_dict settings h' s)
                                (fun _ => ret tt))).
  assert (Hierarchy_from_dict settings d db
          = match rest db1 with
            | (Ok _, db2) => (Ok h', db2)
            | (Raise e, db2) => (Raise e, db2)
            end) as Hrun.
  { unfold Hierarchy_from_dict, Hierarchy_objects_create, rest. unfold_M.
    reflexivity. }
  assert (hierarchies (snd (Hierarchy_from_dict settings d db)) = hierarchies db ++ [h'])
    as Hrows.
  { rewrite Hrun.
    assert (keeps_hierarchies rest) as Hkeeps.
    { apply keeps_for_each. intros s _.
      apply keeps_bind; [apply keeps_add_section_from_dict|intros _; apply keeps_ret]. }
    specialize (Hkeeps db1). by destruct (rest db1) as [[[]|e] db2]. }
  exists h'. split; [done|]. split; [done|]. split; [done|].
  split; [apply fresh_not_elem|]. split.
  - intros r. rewrite Hrun. destruct (rest db1) as [[[]|e] db2]; cbn; congruence.
  - intros h0 Hh0 Hname. unfold Hierarchy_get_hierarchy. unfold_M.
    rewrite Hrows, filter_app, (filter_cons_True _ h') by done.
    apply list_elem_of_split in Hh0 as (l1 & l2 & ->).
    rewrite filter_app, (filter_cons_True _ h0) by done.
    by destruct (filter (fun h => name h = name h') l1) as [|x [|y l]];
      destruct (filter (fun h => name h = name h') l2) as [|x' [|y' l']].
Qed.

(** *** The page order when a pageblock is added or deleted *)

Lemma insert_by_ordinality_front (b : PageBlock) (l : list PageBlock) :
  Forall (fun x => ordinality b ≤ ordinality x)%nat l → insert_by_ordinality b l = b :: l.
Proof.
  destruct l as [|c l]; [done|]. intros [Hc _]%Forall_cons. cbn.
  by apply Nat.leb_le in Hc as ->.
Qed.

Lemma sorted_ordinalities_head (c : PageBlock) (l : list PageBlock) :
  Sorted le (ordinality <$> (c :: l)) →
  Forall (fun x => ordinality c ≤ ordinality x)%nat l
  ∧ Sorted le (ordinality <$> l).
Proof.
  intros Hs. rewrite fmap_cons in Hs.
  apply (Sorted_StronglySorted _) in Hs. apply StronglySorted_inv in Hs as [Hs Hall].
  split; [|by apply StronglySorted_Sorted].
  by rewrite Forall_fmap in Hall.
Qed.

(** Sorting by ordinality and leaving rows out can be done in either
    order. *)
Lemma insert_by_ordinality_filter (P : PageBlock → Prop) `{!∀ x, Decision (P x)}
    (b : PageBlock) (l : list PageBlock) :
  Sorted le (ordinality <$> l) →
  filter P (insert_by_ordinality b l)
  = if decide (P b) then insert_by_ordinality b (filter P l) else filter P l.
Proof.
  induction l as [|c l IH]; intros Hs.
  - cbn [insert_by_ordinality]. rewrite filter_nil.
    destruct (decide (P b)); [by rewrite filter_cons_True|by rewrite filter_cons_False].
  - destruct (sorted_ordinalities_head c l Hs) as [Hall Hs'].
    cbn [insert_by_ordinality].
    destruct (ordinality b <=? ordinality c)%nat eqn:Hle.
    + apply Nat.leb_le in Hle.
      destruct (decide (P b)) as [Hb|Hb];
        [rewrite filter_cons_True by done|by rewrite filter_cons_False].
      symmetry. apply insert_by_ordinality_front.
      apply Forall_forall. intros x Hx. apply list_elem_of_filter in Hx as [_ Hx].
      apply elem_of_cons in Hx as [->|Hx]; [done|].
      rewrite Forall_forall in Hall. specialize (Hall x Hx). lia.
    + destruct (decide (P c)) as [Hc|Hc].
      * rewrite !(filter_cons_True _ c) by done. rewrite (IH Hs').
        destruct (decide (P b)); [|done]. cbn [insert_by_ordinality]. by rewrite Hle.
      * rewrite !(filter_cons_False _ c) by done. by apply IH.
Qed.

Lemma order_by_ordinality_filter (P : PageBlock → Prop) `{!∀ x, Decision (P x)}
    (l : list PageBlock) :
  filter P (order_by_ordinality l) = order_by_ordinality (filter P l).
Proof.
  induction l as [|a l IH]; [done|].
  change (order_by_ordinality (a :: l))
    with (insert_by_ordinality a (order_by_ordinality l)).
  rewrite insert_by_ordinality_filter by apply order_by_ordinality_sorted.
  destruct (decide (P a)).
  - rewrite filter_cons_True by done. by rewrite IH.
  - rewrite filter_cons_False by done. exact IH.
Qed.

Lemma pageblock_set_filter (P : PageBlock → Prop) `{!∀ x, Decision (P x)}
    (db : DB) (s : Z) :
  pageblock_set (set_pageblocks (filter P) db) s = filter P (pageblock_set db s).
Proof.
  unfold pageblock_set. cbn [pageblocks set_pageblocks].
  rewrite order_by_ordinality_filter. f_equal.
  rewrite !list_filter_filter. apply list_filter_iff. intros x. tauto.
Qed.

Lemma filter_keys {A K : Type} (key : A → K) (P : K → Prop) (Q : A → Prop)
    `{!∀ k, Decision (P k)} `{!∀ x, Decision (Q x)} (l : list A) :
  (∀ x, Q x ↔ P (key x)) → key <$> filter Q l = filter P (key <$> l).
Proof.
  intros HQ. induction l as [|x l IH]; [done|].
  destruct (decide (Q x)) as [Hx|Hx].
  - rewrite filter_cons_True, !fmap_cons, filter_cons_True by (done || by apply HQ).
    by rewrite IH.
  - rewrite filter_cons_False, fmap_cons, filter_cons_False by (done || by rewrite <- HQ).
    done.
Qed.

(** X21: [PageBlock.delete] of a stored pageblock, where the keys of the
    pageblocks are distinct and its section is found: the pageblocks that
    are left on the page keep their order, and carry the ordinalities
    1..N-1. *)
Theorem delete_keeps_order (self : PageBlock) (section : SectionObj) (db : DB) :
  NoDup (pb_pk <$> pageblocks db) →
  filter (fun s => pk s = pb_section self) (all_sections db) = [section] →
  ∃ db', PageBlock_delete self db = (Ok tt, db')
         ∧ pb_pk <$> pageblock_set db' (pb_section self)
           = filter (fun k => k ≠ pb_pk self) (pb_pk <$> pageblock_set db (pb_section self))
         ∧ ordinality <$> pageblock_set db' (pb_section self)
           = seq 1 (length (pageblock_set db' (pb_section self)))
         ∧ (pb_pk self ∉ pb_pk <$> pageblocks db').
Proof.
  intros Hnd Hsec.
  assert (pk section = pb_section self) as Hpk.
  { assert (section ∈ filter (fun s => pk s = pb_section self) (all_sections db)) as Hin
      by (rewrite Hsec; apply list_elem_of_here).
    by apply list_elem_of_filter in Hin as [? _]. }
  unfold PageBlock_delete. unfold_M. rewrite Hsec. cbn [objects_get]. unfold ret.
  set (db1 := set_pageblocks (filter (fun p => pb_pk p ≠ pb_pk self)) db).
  assert (NoDup (pb_pk <$> pageblocks db1)) as Hnd1 by (by apply NoDup_fmap_filter).
  rewrite (Section_renumber_pageblocks_eq section db1 Hnd1). rewrite Hpk.
  eexists. split; [done|].
  destruct (reorder_sets_order (pb_pk <$> pageblock_set db1 (pb_section self))
              (pb_section self) db1 Hnd1) as [Hkeys Hord]; [apply pageblock_set_keys|].
  split; [|split].
  - rewrite Hkeys. unfold db1. rewrite pageblock_set_filter.
    by apply (filter_keys pb_pk (fun k => k ≠ pb_pk self)).
  - rewrite Hord. f_equal. rewrite <- Hkeys at 1. by rewrite !length_fmap.
  - cbn [pageblocks set_pageblocks]. intros Hin.
    apply list_elem_of_fmap in Hin as (x & Hx & Hin).
    apply list_elem_of_fmap in Hin as (y & -> & Hin).
    apply list_elem_of_filter in Hin as [Hne _]. apply Hne.
    destruct (reorder_keeps 1 (pb_pk <$> pageblock_set db1 (pb_section self)) y) as [Hk _].
    congruence.
Qed.

Lemma delete_keeps_order_witness :
  ∃ db', PageBlock_delete (demo_pageblock 1 1) demo_submit_db = (Ok tt, db')
         ∧ pb_pk <$> pageblock_set db' 2 = [2%Z]
         ∧ ordinality <$> pageblock_set db' 2 = [1%nat].
Proof.
  destruct (delete_keeps_order (demo_pageblock 1 1) demo_intro demo_submit_db
              (proj1 demo_submit_db_ok) eq_refl) as (db' & Hrun & Hkeys & Hord & _).
  exists db'. split; [exact Hrun|].
  cbn [pb_section demo_pageblock] in Hkeys, Hord. split.
  - rewrite Hkeys. by vm_compute.
  - rewrite Hord. apply (f_equal length) in Hkeys. rewrite length_fmap in Hkeys.
    rewrite Hkeys. by vm_compute.
Defined.

Lemma insert_by_ordinality_snoc (b p : PageBlock) (l : list PageBlock) :
  (ordinality b ≤ ordinality p)%nat →
  insert_by_ordinality b (l ++ [p]) = insert_by_ordinality b l ++ [p].
Proof.
  intros Hle. induction l as [|c l IH]; cbn.
  - by apply Nat.leb_le in Hle as ->.
  - destruct (ordinality b <=? ordinality c)%nat; [done|]. by rewrite IH.
Qed.

Lemma order_by_ordinality_snoc (p : PageBlock) (l : list PageBlock) :
  Forall (fun x => ordinality x ≤ ordinality p)%nat l →
  order_by_ordinality (l ++ [p]) = order_by_ordinality l ++ [p].
Proof.
  induction 1 as [|a l Ha Hl IH]; [done|].
  change (order_by_ordinality ((a :: l) ++ [p]))
    with (insert_by_ordinality a (order_by_ordinality (l ++ [p]))).
  rewrite IH. by apply insert_by_ordinality_snoc.
Qed.

(** X22: [append_pageblock] on a section whose pageblocks carry the
    ordinalities 1..N: the new pageblock comes last on the page, after the
    pageblocks there were, in their order. *)
Theorem append_pageblock_comes_last (self : SectionObj) (l : option string)
    (content_object : Block) (db : DB) :
  contiguous db (pk self) →
  ∃ p db', Section_append_pageblock self l content_object db = (Ok p, db')
           ∧ pageblock_set db' (pk self) = pageblock_set db (pk self) ++ [p]
           ∧ pb_label p = l
           ∧ content_type p = block_model content_object
           ∧ object_id p = block_pk content_object
           ∧ css_extra p = None.
Proof.
  intros Hc. unfold Section_append_pageblock, pageblock_set_count, PageBlock_objects_create.
  unfold_M. eexists _, _. split; [done|]. split; [|done].
  unfold pageblock_set. cbn [pageblocks set_pageblocks].
  rewrite filter_app, filter_cons_True by done. rewrite filter_nil.
  apply order_by_ordinality_snoc. cbn [ordinality].
  apply Forall_forall. intros x Hx.
  assert (ordinality x ∈ ordinality <$> pageblock_set db (pk self)) as Ho.
  { apply list_elem_of_fmap_2. unfold pageblock_set. by rewrite order_by_ordinality_perm. }
  rewrite Hc in Ho. apply elem_of_seq in Ho.
  rewrite pageblock_set_length in Ho. lia.
Qed.

Lemma append_pageblock_comes_last_witness :
  ∃ p db', Section_append_pageblock demo_intro (Some "More") (demo_quiz 3 false)
             demo_submit_db = (Ok p, db')
           ∧ pageblock_set db' (pk demo_intro)
             = [demo_pageblock 1 1; demo_pageblock 2 2; p].
Proof.
  destruct (append_pageblock_comes_last demo_intro (Some "More") (demo_quiz 3 false)
              demo_submit_db (proj2 demo_submit_db_ok (pk demo_intro)))
    as (p & db' & Hrun & Hset & _).
  exists p, db'. split; [exact Hrun|]. rewrite Hset. reflexivity.
Defined.

(** *** Lookups that write *)

Lemma split_cons (sep : ascii) (s : string) : ∃ w ws, split sep s = w :: ws.
Proof.
  induction s as [|c s (w & ws & IH)]; cbn; [by eexists _, _|].
  destruct (Ascii.eqb c sep); [by eexists _, _|]. rewrite IH. by eexists _, _.
Qed.

(** X23: [get_section_from_path] on a hierarchy none of whose sections is
    labelled "Root", with a path that is not empty and does not end with a
    slash: it raises Http404, and the root that [get_root] made on the way
    stays. *)
Theorem get_section_from_path_creates_root (self : Hierarchy) (p : string) (db : DB) :
  filter (fun s => hierarchy s = hierarchy_pk self ∧ label s = "Root") (all_sections db)
  = [] →
  p ≠ "" → endswith p "/" = false →
  Hierarchy_get_section_from_path self p db
  = (Raise Http404,
     set_sections (fun t => t ++ [MkNode (fresh (pk <$> all_sections db)) "Root" ""
                                         (hierarchy_pk self) []]) db).
Proof.
  intros Hf Hp Hslash.
  unfold Hierarchy_get_section_from_path, Hierarchy_find_section_from_path,
    Hierarchy_get_root, try_except.
  unfold_M. rewrite Hslash, Hf. cbn [objects_get]. unfold raise.
  rewrite decide_True by done. unfold add_root.
  destruct (String.eqb p "") eqn:He; [by apply String.eqb_eq in He|].
  destruct (split_cons "/" p) as (w & ws & ->).
  cbn [find_section_loop]. unfold_M. unfold get_children. unfold_M.
  cbn [path instance sections set_sections].
  rewrite forest_at_root, list_lookup_middle by done. cbn. done.
Qed.

Lemma get_section_from_path_creates_root_witness :
  ∃ db', Hierarchy_get_section_from_path demo_hierarchy "intro" demo_new_db
         = (Raise Http404, db')
         ∧ sections db' = [MkNode 1 "Root" "" 1 []].
Proof.
  eexists. split.
  - apply (get_section_from_path_creates_root demo_hierarchy "intro" demo_new_db).
    + reflexivity.
    + discriminate.
    + reflexivity.
  - reflexivity.
Defined.

Lemma Hierarchy_get_root_frame (self : Hierarchy) (r : SectionObj) (db db1 : DB) :
  sections db1 = sections db →
  Hierarchy_get_root self db = (Ok r, db) →
  Hierarchy_get_root self db1 = (Ok r, db1).
Proof.
  intros Hsec. unfold Hierarchy_get_root, try_except. unfold_M.
  unfold all_sections. rewrite Hsec.
  assert (∀ x, add_root "Root" "" (hierarchy_pk self) db = (Ok x, db) → False) as Hadd.
  { unfold add_root. intros x [= _ Hdb]. apply (f_equal sections) in Hdb.
    cbn in Hdb. apply (f_equal length) in Hdb. rewrite length_app in Hdb. cbn in Hdb. lia. }
  destruct (filter _ (kids_list [] 0 (sections db))) as [|s0 [|s1 rows]]; cbn.
  - rewrite decide_True by done. intros H. by apply Hadd in H.
  - unfold get_root, section_by_path. rewrite Hsec.
    destruct (forest_at (sections db) (take 1 (path s0))) as [n|].
    + by intros [= <-].
    + rewrite !decide_True by done. intros H. by apply Hadd in H.
  - rewrite decide_False by done. intros [=].
Qed.

(** X24: [get_user_section] where the hierarchy has its root: for an anonymous
    user it returns the root and writes nothing; for a user who has no
    location in the hierarchy it returns the root as well, and the location
    "/" that [get_user_location] made for the user stays. *)
Theorem get_user_section_starts_at_root (self : Hierarchy) (root : SectionObj) (db : DB) :
  Hierarchy_get_root self db = (Ok root, db) →
  Hierarchy_get_user_section self AnonymousUser db = (Ok (Some root), db)
  ∧ ∀ u : Z,
      filter (fun r => ul_user r = u ∧ ul_hierarchy r = hierarchy_pk self)
             (userlocations db) = [] →
      ∃ r, Hierarchy_get_user_section self (AuthUser u) db
           = (Ok (Some root), set_userlocations (fun t => t ++ [r]) db)
           ∧ ul_user r = u ∧ ul_hierarchy r = hierarchy_pk self ∧ ul_path r = "/".
Proof.
  intros Hroot. split.
  - unfold Hierarchy_get_user_section, Hierarchy_get_user_location,
      Hierarchy_find_section_from_path.
    cbn [is_anonymous]. unfold_M. cbn. by rewrite Hroot.
  - intros u Hnone.
    unfold Hierarchy_get_user_section, Hierarchy_get_user_location,
      Hierarchy_find_section_from_path, UserLocation_get_or_create.
    cbn [is_anonymous]. unfold_M. rewrite Hnone. cbn.
    eexists.
    match goal with
    | |- context [Hierarchy_get_root self ?d] =>
        rewrite (Hierarchy_get_root_frame self root db d eq_refl Hroot)
    end.
    done.
Qed.

Lemma get_user_section_starts_at_root_witness :
  Hierarchy_get_user_section demo_hierarchy AnonymousUser demo_db
  = (Ok (Some demo_root), demo_db)
  ∧ ∃ r, Hierarchy_get_user_section demo_hierarchy (AuthUser 7) demo_db
         = (Ok (Some demo_root), set_userlocations (fun t => t ++ [r]) demo_db)
         ∧ ul_path r = "/".
Proof.
  destruct (get_user_section_starts_at_root demo_hierarchy demo_root demo_db eq_refl)
    as [Hanon Hnew].
  split; [exact Hanon|].
  destruct (Hnew 7%Z eq_refl) as (r & Hrun & _ & _ & Hpath).
  by exists r.
Defined.

(** *** Previous and next section *)

(** The first row of the table is a root. *)
Lemma all_sections_head (db : DB) (r : SectionObj) (rest : list SectionObj) :
  all_sections db = r :: rest → is_root r = true.
Proof.
  unfold all_sections. destruct (sections db) as [|c cs]; [done|].
  cbn [kids_list]. rewrite tree_list_unfold. by intros [= <- _].
Qed.

(** What [get_next] and [get_previous] read: the root of the section,
    the listing of the whole table, and the place of the section in it. *)
Lemma table_traversal (db : DB) (s : SectionObj) (l1 l2 : list SectionObj) :
  all_sections db = l1 ++ s :: l2 →
  NoDup (pk <$> all_sections db) →
  ∃ (root : SectionObj) (d : nat),
    get_root s db = (Ok root, db)
    ∧ get_annotated_list root None db
      = (Ok ((fun x => (x, (depth x - d)%nat)) <$> (l1 ++ s :: l2)), db)
    ∧ list_find (fun e : SectionObj * nat => pk (fst e) = pk s)
                ((fun x => (x, (depth x - d)%nat)) <$> (l1 ++ s :: l2))
      = Some (length l1, (s, (depth s - d)%nat)).
Proof.
  intros Hlist Hnd.
  assert (s ∈ all_sections db) as Hs.
  { rewrite Hlist. apply elem_of_app. right. left. }
  apply all_sections_elem in Hs as (n & Hn & _).
  destruct (path s) as [|i q] eqn:Hp; [done|].
  cbn in Hn. destruct (sections db !! i) as [r|] eqn:Hi; [|done].
  exists (instance [i] r),
    (match all_sections db with x :: _ => depth x | [] => 0%nat end).
  split; [|split].
  - unfold get_root, section_by_path. rewrite Hp. cbn [take]. rewrite take_0.
    by rewrite forest_at_root, Hi.
  - unfold get_annotated_list, get_tree. unfold_M. by rewrite Hlist.
  - rewrite Hlist in Hnd. by apply traversal_find.
Qed.

(** The neighbours of a section in the listing of the table. *)
Lemma table_neighbours (db : DB) (s : SectionObj) (l1 l2 : list SectionObj) :
  all_sections db = l1 ++ s :: l2 →
  NoDup (pk <$> all_sections db) →
  Section_get_next s db = (Ok (head l2), db)
  ∧ Section_get_previous s db
    = (Ok (match last l1 with
           | Some p => if is_root p then None else Some p
           | None => None
           end), db).
Proof.
  intros Hlist Hnd.
  destruct (table_traversal db s l1 l2 Hlist Hnd) as (root & d & H1 & H2 & H3).
  unfold Section_get_next, Section_get_previous. unfold_M. rewrite H1, H2, H3.
  rewrite length_fmap, length_app. cbn [length]. split.
  - destruct l2 as [|x l2]; cbn [head length].
    + replace (length l1 <? length l1 + 1 - 1)%nat with false
        by (symmetry; apply Nat.ltb_ge; lia). done.
    + replace (length l1 <? length l1 + S (S (length l2)) - 1)%nat with true
        by (symmetry; apply Nat.ltb_lt; lia).
      rewrite list_lookup_fmap.
      replace (l1 ++ s :: x :: l2) with ((l1 ++ [s]) ++ x :: l2)
        by (by rewrite <- app_assoc).
      replace (length l1 + 1)%nat with (length (l1 ++ [s]))
        by (rewrite length_app; cbn; lia).
      by rewrite list_lookup_middle.
  - destruct l1 as [|r l1] using rev_ind; [done|].
    rewrite last_snoc, length_app. cbn [length].
    destruct l1 as [|r0 l1].
    + cbn. cbn in Hlist. by rewrite (all_sections_head db r _ Hlist).
    + cbn [length].
      replace (1 <? S (length l1) + 1)%nat with true
        by (symmetry; apply Nat.ltb_lt; lia).
      rewrite list_lookup_fmap.
      replace (S (length l1) + 1 - 1)%nat with (length (r0 :: l1)) by (cbn; lia).
      rewrite <- app_assoc. change ([r] ++ s :: l2) with (r :: s :: l2).
      rewrite list_lookup_middle by done. cbn.
      by destruct (is_root r).
Qed.

(** The listing of the table around two trees stored one after the
    other. *)
Lemma all_sections_two_trees (db : DB) (i : nat) (t1 t2 : Node) :
  sections db !! i = Some t1 → sections db !! S i = Some t2 →
  ∃ before after,
    all_sections db = before ++ tree_list [i] t1 ++ tree_list [S i] t2 ++ after.
Proof.
  intros H1 H2.
  exists (kids_list [] 0 (take i (sections db))),
         (kids_list [] (S (S i)) (drop (S (S i)) (sections db))).
  unfold all_sections.
  rewrite <- (take_drop_middle (sections db) i t1 H1) at 1.
  assert (drop (S i) (sections db) = t2 :: drop (S (S i)) (sections db)) as ->
    by (by apply drop_S).
  assert (length (take i (sections db)) = i) as Hlen.
  { apply length_take_le. apply lookup_lt_Some in H1. lia. }
  rewrite kids_list_app, Hlen. by cbn [kids_list Nat.add app].
Qed.

(** C5: [get_next] and [get_previous] do not stay in the tree of the
    section.  Where a tree is stored right after the tree of [s] and [s]
    is the last section of its tree, [get_next] on [s] returns the root of
    the tree that follows, not None; and [get_previous] on that root,
    which has no section before it in its own tree, returns [s] unless
    [s] is a root. *)
Theorem get_next_leaves_the_tree (db : DB) (i : nat) (t1 t2 : Node) (s : SectionObj) :
  sections db !! i = Some t1 → sections db !! S i = Some t2 →
  last (tree_list [i] t1) = Some s →
  NoDup (pk <$> all_sections db) →
  Section_get_next s db = (Ok (Some (instance [S i] t2)), db)
  ∧ Section_get_previous (instance [S i] t2) db
    = (Ok (if is_root s then None else Some s), db).
Proof.
  intros H1 H2 Hlast Hnd.
  destruct (all_sections_two_trees db i t1 t2 H1 H2) as (before & after & Hall).
  apply last_Some in Hlast as [l Hl].
  rewrite Hl, (tree_list_unfold [S i] t2) in Hall.
  set (rest := kids_list [S i] 0 (node_children t2) ++ after) in *.
  split.
  - assert (all_sections db = (before ++ l) ++ s :: instance [S i] t2 :: rest) as Hs.
    { rewrite Hall. by rewrite <- !app_assoc. }
    by destruct (table_neighbours db s _ _ Hs Hnd) as [-> _].
  - assert (all_sections db = (before ++ l ++ [s]) ++ instance [S i] t2 :: rest) as Ht.
    { rewrite Hall. by rewrite <- !app_assoc. }
    destruct (table_neighbours db _ _ _ Ht Hnd) as [_ ->].
    by rewrite !app_assoc, last_snoc.
Qed.

Lemma get_next_leaves_the_tree_witness :
  hierarchy demo_about = 1%Z
  ∧ Section_get_next demo_about demo_two_db = (Ok (Some demo_other_root), demo_two_db)
  ∧ hierarchy demo_other_root = 2%Z
  ∧ Section_get_previous demo_other_root demo_two_db = (Ok (Some demo_about), demo_two_db).
Proof.
  split; [reflexivity|].
  destruct (get_next_leaves_the_tree demo_two_db 0 demo_tree demo_other_tree demo_about)
    as [Hnext Hprev].
  - reflexivity.
  - reflexivity.
  - reflexivity.
  - apply (bool_decide_unpack _). by vm_compute.
  - split; [exact Hnext|]. split; [reflexivity|exact Hprev].
Defined.

(** X26: [get_next] and [get_previous] on a stored section, where the keys
    of the sections are distinct, write nothing and return the neighbours
    of the section in the listing of the whole table of sections, all
    trees in path order: [get_next] the row that follows, None after the
    last row; [get_previous] the row before, None when that row is a root
    or the section is the first row. *)
Theorem neighbours_in_the_table (db : DB) (s : SectionObj) (l1 l2 : list SectionObj) :
  all_sections db = l1 ++ s :: l2 →
  NoDup (pk <$> all_sections db) →
  Section_get_next s db = (Ok (head l2), db)
  ∧ Section_get_previous s db
    = (Ok (match last l1 with
           | Some p => if is_root p then None else Some p
           | None => None
           end), db).
Proof. exact (table_neighbours db s l1 l2). Qed.

Lemma neighbours_in_the_table_witness :
  all_sections demo_db = [demo_root; demo_intro] ++ demo_part_one :: [demo_about]
  ∧ Section_get_next demo_part_one demo_db = (Ok (Some demo_about), demo_db)
  ∧ Section_get_previous demo_part_one demo_db = (Ok (Some demo_intro), demo_db).
Proof.
  split; [reflexivity|].
  apply (neighbours_in_the_table demo_db demo_part_one [demo_root; demo_intro] [demo_about]).
  - reflexivity.
  - apply (bool_decide_unpack _). by vm_compute.
Defined.

(** *** Going forth and back *)

(** X25: [get_previous] undoes [get_next]: where [t] comes right after [s] in
    the listing of the table of sections, whose keys are distinct,
    [get_next] on [s] returns [t] and [get_previous] on [t] returns [s], or
    None when [s] is a root. *)
Theorem get_previous_of_get_next (db : DB) (s t : SectionObj) (l1 l2 : list SectionObj) :
  all_sections db = l1 ++ s :: t :: l2 →
  NoDup (pk <$> all_sections db) →
  Section_get_next s db = (Ok (Some t), db)
  ∧ Section_get_previous t db = (Ok (if is_root s then None else Some s), db).
Proof.
  intros Hlist Hnd. split.
  - by destruct (table_neighbours db s l1 (t :: l2) Hlist Hnd) as [-> _].
  - assert (all_sections db = (l1 ++ [s]) ++ t :: l2) as Hlist'
      by (by rewrite Hlist, <- app_assoc).
    destruct (table_neighbours db t (l1 ++ [s]) l2 Hlist' Hnd) as [_ ->].
    by rewrite last_snoc.
Qed.

Lemma get_previous_of_get_next_witness :
  Section_get_next demo_intro demo_db = (Ok (Some demo_part_one), demo_db)
  ∧ Section_get_previous demo_part_one demo_db = (Ok (Some demo_intro), demo_db).
Proof.
  apply (get_previous_of_get_next demo_db demo_intro demo_part_one [demo_root] [demo_about]).
  - reflexivity.
  - apply (bool_decide_unpack _). by vm_compute.
Defined.

(** *** The roots of the forest *)

Section Preserved.
Variable P : DB → Prop.

Lemma preserves_bind {A B : Type} (c : M A) (k : A → M B) :
  preserves P c → (∀ a, preserves P (k a)) → preserves P (bind c k).
Proof.
  intros Hc Hk db HP. unfold bind. specialize (Hc db HP).
  destruct (c db) as [[a|e] db1]; cbn in *; [|done].
  by apply Hk.
Qed.

Lemma preserves_ret {A : Type} (a : A) : preserves P (ret a).
Proof. by intros db. Qed.

Lemma preserves_raise {A : Type} (e : Exception) : preserves P (@raise A e).
Proof. by intros db. Qed.

Lemma preserves_read {A : Type} (f : DB → A) : preserves P (read f).
Proof. by intros db. Qed.

Lemma preserves_objects_get {A : Type} (rows : list A) : preserves P (objects_get rows).
Proof. destruct rows as [|r [|r' rows]]; by intros db. Qed.

Lemma preserves_for_each {A : Type} (l : list A) (body : A → M unit) :
  (∀ x, x ∈ l → preserves P (body x)) → preserves P (for_each l body).
Proof.
  induction l as [|x l IH]; intros Hbody; [apply preserves_ret|].
  cbn [for_each]. apply preserves_bind; [apply Hbody; left|].
  intros _. apply IH. intros y Hy. apply Hbody. by right.
Qed.

Lemma preserves_try_except {A : Type} (c h : M A) (e : Exception) :
  preserves P c → preserves P h → preserves P (try_except c e h).
Proof.
  intros Hc Hh db HP. unfold try_except. specialize (Hc db HP).
  destruct (c db) as [[a|e'] db1]; cbn in *; [done|].
  case_decide; [by apply Hh|done].
Qed.

Lemma preserves_section_by_path (p : list nat) : preserves P (section_by_path p).
Proof. intros db HP. unfold section_by_path. by destruct (forest_at _ _). Qed.

Lemma preserves_get_parent (s : SectionObj) : preserves P (get_parent s).
Proof.
  unfold get_parent. destruct (depth s <=? 1)%nat; [apply preserves_ret|].
  apply preserves_bind; [apply preserves_section_by_path|].
  intros p. apply preserves_ret.
Qed.
End Preserved.

(** Altering a node of the forest by a function that keeps label and slug
    keeps the labels and slugs of the roots. *)
Lemma roots_ok_alter (f : Node → Node) (p : list nat) (db : DB) :
  (∀ n, node_label (f n) = node_label n ∧ node_slug (f n) = node_slug n) →
  roots_ok db → roots_ok (set_sections (forest_alter f p) db).
Proof.
  intros Hf Hok. unfold roots_ok in *. cbn [sections set_sections].
  destruct p as [|i q]; [done|]. cbn [forest_alter].
  apply Forall_alter; [done|]. intros r _ [Hl Hs].
  destruct q as [|j q]; cbn [node_alter node_label node_slug].
  - destruct (Hf r) as [-> ->]. done.
  - done.
Qed.

Lemma roots_ok_new_root (h : Z) (k : Z) (db : DB) :
  roots_ok db → roots_ok (set_sections (fun t => t ++ [MkNode k "Root" "" h []]) db).
Proof.
  intros Hok. unfold roots_ok in *. cbn [sections set_sections].
  apply Forall_app. split; [done|]. by apply Forall_singleton.
Qed.

Lemma preserves_add_root (h : Z) : preserves roots_ok (add_root "Root" "" h).
Proof. intros db Hok. unfold add_root. cbn [snd]. by apply roots_ok_new_root. Qed.

Lemma preserves_Hierarchy_get_root (self : Hierarchy) :
  preserves roots_ok (Hierarchy_get_root self).
Proof.
  unfold Hierarchy_get_root. apply preserves_try_except; [|apply preserves_add_root].
  unfold mbind, M_bind.
  apply preserves_bind; [apply preserves_read|]. intros rows.
  apply preserves_bind; [apply preserves_objects_get|]. intros s.
  apply preserves_section_by_path.
Qed.

Lemma preserves_Section_append_child (self : SectionObj) (l sl : string) :
  preserves roots_ok (Section_append_child self l sl).
Proof.
  intros db Hok. unfold Section_append_child, add_child.
  destruct (forest_at (sections db) (path self)); [|done].
  cbn [snd]. by apply roots_ok_alter.
Qed.

Lemma preserves_add_pageblock_from_dict (settings : option (list BlockClass))
    (self : SectionObj) (d : Dict) :
  preserves roots_ok (Section_add_pageblock_from_dict settings self d).
Proof.
  unfold Section_add_pageblock_from_dict, Section_available_pageblocks, Section_hierarchy.
  unfold mbind, M_bind, mret, M_ret.
  apply preserves_bind.
  { apply preserves_bind; [|intros _; apply preserves_ret].
    apply preserves_bind; [apply preserves_read|intros rows; apply preserves_objects_get]. }
  intros classes. apply preserves_for_each. intros c _.
  destruct (Value_eqb _ _); [|apply preserves_ret].
  destruct (create_from_dict c) as [create|]; [|apply preserves_ret].
  apply preserves_bind; [by intros db|]. intros block.
  destruct (accepts _ _); [|apply preserves_raise].
  apply preserves_bind; [|intros _; apply preserves_ret].
  unfold Section_append_pageblock, pageblock_set_count.
  apply preserves_bind; [apply preserves_read|]. intros n. by intros db.
Qed.

Lemma preserves_add_child_section_from_dict (settings : option (list BlockClass))
    (d : SectionDict) :
  ∀ self, preserves roots_ok (Section_add_child_section_from_dict settings self d).
Proof.
  induction d as [l sl pbs cs IH] using SectionDict_induction. intros self db.
  rewrite add_child_section_unfold. revert db.
  unfold mbind, M_bind.
  apply preserves_bind; [apply preserves_Section_append_child|]. intros s.
  apply preserves_bind.
  { apply preserves_for_each. intros pb _. apply preserves_add_pageblock_from_dict. }
  intros _. apply preserves_for_each. intros c Hc.
  rewrite Forall_forall in IH. by apply IH.
Qed.

Lemma preserves_Hierarchy_from_dict (settings : option (list BlockClass))
    (d : HierarchyDict) :
  preserves roots_ok (Hierarchy_from_dict settings d).
Proof.
  unfold Hierarchy_from_dict, Hierarchy_add_section_from_dict.
  unfold mbind, M_bind, mret, M_ret.
  apply preserves_bind; [by intros db|]. intros h.
  apply preserves_bind; [|intros _; apply preserves_ret].
  apply preserves_for_each. intros sd _.
  apply preserves_bind; [|intros _; apply preserves_ret].
  apply preserves_bind; [apply preserves_add_root|]. intros s.
  apply preserves_bind.
  { apply preserves_for_each. intros pb _. apply preserves_add_pageblock_from_dict. }
  intros _. apply preserves_bind; [|intros _; apply preserves_ret].
  apply preserves_for_each. intros c _. apply preserves_add_child_section_from_dict.
Qed.

Lemma preserves_update_children_order (self : SectionObj) (children_ids : list Z) :
  preserves roots_ok (Section_update_children_order self children_ids).
Proof.
  unfold Section_update_children_order. unfold mbind, M_bind.
  apply preserves_for_each. intros id _.
  apply preserves_bind; [apply preserves_read|]. intros rows.
  apply preserves_bind; [apply preserves_objects_get|]. intros s.
  apply preserves_bind; [apply preserves_get_parent|]. intros [p|];
    [|apply preserves_raise].
  intros db Hok. unfold move_last_child, write. cbn [snd].
  destruct (last (path s)) as [j|] eqn:Hj.
  - apply (roots_ok_alter (move_to_end j) (path p) db); [|done].
    intros n. unfold move_to_end. by destruct (node_children n !! j).
  - by rewrite set_sections_id.
Qed.

(** The two ways [get_root] returns: the only section of the hierarchy
    labelled "Root" was found and nothing is written, or there was none
    and a root is added. *)
Lemma Hierarchy_get_root_cases (self : Hierarchy) (s : SectionObj) (db db' : DB) :
  Hierarchy_get_root self db = (Ok s, db') →
  (db' = db
   ∧ ∃ x, filter (fun s => hierarchy s = hierarchy_pk self ∧ label s = "Root")
                 (all_sections db) = [x]
          ∧ path s = take 1 (path x))
  ∨ (filter (fun s => hierarchy s = hierarchy_pk self ∧ label s = "Root")
            (all_sections db) = []
     ∧ s = instance [length (sections db)]
                    (MkNode (fresh (pk <$> all_sections db)) "Root" ""
                            (hierarchy_pk self) [])
     ∧ db' = set_sections
               (fun t => t ++ [MkNode (fresh (pk <$> all_sections db)) "Root" ""
                                      (hierarchy_pk self) []]) db).
Proof.
  unfold Hierarchy_get_root, try_except. unfold_M.
  destruct (filter _ (all_sections db)) as [|s0 [|s1 rows]] eqn:Hf; cbn.
  - case_decide; [|done]. unfold add_root. intros [= <- <-]. by right.
  - assert (s0 ∈ all_sections db) as Hs0.
    { eapply (list_elem_of_filter (fun s => hierarchy s = hierarchy_pk self ∧ label s = "Root")).
      rewrite Hf. apply list_elem_of_here. }
    apply all_sections_elem in Hs0. destruct Hs0 as (n & Hn & Hs0).
    unfold get_root, section_by_path.
    destruct (path s0) as [|i q] eqn:Hp; [done|].
    cbn [take]. rewrite take_0, forest_at_root.
    cbn in Hn. destruct (sections db !! i) as [root|] eqn:Hi; [|done].
    intros [= <- <-]. left. split; [done|]. exists s0. split; [done|].
    by rewrite Hp.
  - case_decide; [done|]. intros [=].
Qed.

(** C6: every root of the forest is labelled "Root" with an empty slug:
    this holds when no section is stored, and [get_root], [append_child],
    [from_dict] and [update_children_order], the methods that write
    sections, keep it whether they return or raise.  In such a state the
    section [get_root] returns is a stored root labelled "Root" with an
    empty slug: the root of the tree of the only section of the hierarchy
    labelled "Root", with nothing written, or, when the hierarchy has no
    such section, a new root of the hierarchy with a key of its own and no
    child, added after the stored roots.  [get_root] does return when at
    most one section of the hierarchy is labelled "Root".  The URL of a
    stored section is the [base_url] of the hierarchy of its root followed
    by the slug and a slash of each ancestor that is not the root and of
    the section itself, and the URL of a root is the [base_url]. *)
Theorem root_label_and_urls :
  roots_ok empty_db
  ∧ (∀ self, preserves roots_ok (Hierarchy_get_root self))
  ∧ (∀ s l sl, preserves roots_ok (Section_append_child s l sl))
  ∧ (∀ settings d, preserves roots_ok (Hierarchy_from_dict settings d))
  ∧ (∀ s children_ids, preserves roots_ok (Section_update_children_order s children_ids))
  ∧ (∀ db self s db',
       roots_ok db → Hierarchy_get_root self db = (Ok s, db') →
       label s = "Root" ∧ slug s = "" ∧ is_root s = true
       ∧ s ∈ all_sections db'
       ∧ ((db' = db
           ∧ ∃ x, filter (fun s => hierarchy s = hierarchy_pk self ∧ label s = "Root")
                         (all_sections db) = [x]
                  ∧ path s = take 1 (path x))
          ∨ (filter (fun s => hierarchy s = hierarchy_pk self ∧ label s = "Root")
                    (all_sections db) = []
             ∧ hierarchy s = hierarchy_pk self ∧ is_leaf s = true
             ∧ (pk s ∉ pk <$> all_sections db)
             ∧ db' = set_sections
                       (fun t => t ++ [MkNode (pk s) "Root" "" (hierarchy_pk self) []])
                       db)))
  ∧ (∀ db self,
       (length (filter (fun s => hierarchy s = hierarchy_pk self ∧ label s = "Root")
                       (all_sections db)) ≤ 1)%nat →
       ∃ s db', Hierarchy_get_root self db = (Ok s, db'))
  ∧ (∀ db p n root h,
       forest_at (sections db) p = Some n →
       forest_at (sections db) (take 1 p) = Some root →
       filter (fun x => hierarchy_pk x = node_hierarchy root) (hierarchies db) = [h] →
       ∃ ancestors,
         get_ancestors (instance p n) db = (Ok ancestors, db)
         ∧ Section_get_absolute_url (instance p n) db
           = (Ok (base_url h +:+
                  slugs_path (filter (fun a => is_root a = false)
                                     (ancestors ++ [instance p n]))), db)
         ∧ (is_root (instance p n) = true →
            Section_get_absolute_url (instance p n) db = (Ok (base_url h), db))).
Proof.
  split; [by apply Forall_nil|].
  split; [exact preserves_Hierarchy_get_root|].
  split; [exact preserves_Section_append_child|].
  split; [exact preserves_Hierarchy_from_dict|].
  split; [exact preserves_update_children_order|].
  split; [|split].
  - intros db self s db' Hok Hget.
    destruct (Hierarchy_get_root_label self s db db' Hok Hget) as (Hl & Hsl & Hr & _).
    split; [done|]. split; [done|]. split; [done|]. split.
    + destruct (Hierarchy_get_root_stored self s db db' Hget) as (i & r & -> & Hi).
      apply all_sections_stored. by rewrite forest_at_root.
    + destruct (Hierarchy_get_root_cases self s db db' Hget)
        as [Hfound|(Hnone & -> & ->)]; [by left|right].
      split; [done|]. split; [done|]. split; [done|].
      split; [apply fresh_not_elem|done].
  - intros db self H. exact (Hierarchy_get_root_returns self db H).
  - intros db p n root h Hn Hroot Hh.
    destruct p as [|i q]; [done|].
    cbn in Hroot. rewrite take_0 in Hroot.
    destruct (sections db !! i) as [r|] eqn:Hi; [|done].
    cbn in Hroot. injection Hroot as ->.
    eexists. split; [reflexivity|].
    pose proof (get_absolute_url_path db i root h q n Hi Hh Hn) as Hurl.
    split; [exact Hurl|].
    intros Hr. unfold is_root, depth in Hr. cbn in Hr.
    destruct q as [|j q]; [|done].
    cbn in Hn. rewrite Hi in Hn. injection Hn as <-.
    cbn. unfold Section_hierarchy. unfold_M. cbn. by rewrite Hh.
Qed.

Lemma root_label_and_urls_witness :
  (Hierarchy_get_root demo_hierarchy demo_db = (Ok demo_root, demo_db)
   ∧ label demo_root = "Root" ∧ slug demo_root = "" ∧ demo_root ∈ all_sections demo_db)
  ∧ (∃ s db', Hierarchy_get_root demo_hierarchy demo_new_db = (Ok s, db')
              ∧ label s = "Root" ∧ slug s = "" ∧ s ∈ all_sections db'
              ∧ roots_ok db')
  ∧ fst (Section_get_absolute_url demo_part_one demo_db) = Ok "/intro/part-one/".
Proof.
  destruct root_label_and_urls as (_ & Hkeep & _ & _ & _ & Hget & _ & Hurl).
  split; [|split].
  - split; [reflexivity|].
    destruct (Hget demo_db demo_hierarchy demo_root demo_db demo_db_roots_ok eq_refl)
      as (Hl & Hs & _ & Hin & _).
    done.
  - eexists _, _. split; [reflexivity|].
    assert (roots_ok demo_new_db) as Hnew by (by apply Forall_nil).
    destruct (Hget demo_new_db demo_hierarchy _ _ Hnew eq_refl) as (Hl & Hs & _ & Hin & _).
    split; [exact Hl|]. split; [exact Hs|]. split; [exact Hin|].
    exact (Hkeep demo_hierarchy demo_new_db Hnew).
  - destruct (Hurl demo_db [0; 0; 0]%nat (MkNode 3 "Part One" "part-one" 1 []) demo_tree
                demo_hierarchy eq_refl eq_refl eq_refl) as (ancestors & Ha & Hu & _).
    injection Ha as <-.
    change (instance [0; 0; 0]%nat (MkNode 3 "Part One" "part-one" 1 []))
      with demo_part_one in Hu.
    rewrite Hu. reflexivity.
Defined.
